(** * Dresses: the wedding-dress collection manager

  A shallow embedding of the client-side state model of the application
  (two revisions of [App.tsx], the [CountdownTimer] component and
  [types.ts]) together with the platform pieces the code leans on:
  [JSON.stringify] / [JSON.parse], [localStorage], [alert] and the remote
  content-generation call.

  Conventions.
  - JavaScript strings are modelled as byte strings ([string]), read as
    the UTF-8 encoding of the text.
  - JavaScript numbers that the program only uses as integers (time
    stamps, image dimensions, loop indices) are modelled in [Z]; where
    the code divides, the quotient is taken in [Q] and the rounding of
    the double-precision result is made explicit.
  - objects used as dictionaries ([teamNotes], [localStorage]) are finite
    maps; JSON objects keep their members in textual order. *)

From Stdlib Require Import ZArith QArith Qround Qabs Qpower Lqa Ascii String List Lia.
From Stdlib Require Import Decimal DecimalFacts DecimalString DecimalPos DecimalN.
From stdpp Require Import base option list strings gmap fin_maps.

Set Default Proof Using "Type".
Local Open Scope Z_scope.

(* ===================================================================== *)
(** ** Characters and small string helpers *)
(* ===================================================================== *)

Module Chars.

Definition dquote    : ascii := "034"%char.
Definition backslash : ascii := "092"%char.
Definition slash     : ascii := "/"%char.
Definition tab       : ascii := "009"%char.
Definition newline   : ascii := "010"%char.
Definition creturn   : ascii := "013"%char.
Definition backspace : ascii := "008"%char.
Definition formfeed  : ascii := "012"%char.
Definition space     : ascii := " "%char.

Definition is_digit (c : ascii) : bool :=
  match c with
  | "0" | "1" | "2" | "3" | "4" | "5" | "6" | "7" | "8" | "9" => true
  | _ => false
  end%char.

(** JSON insignificant white space. *)
Definition is_ws (c : ascii) : bool :=
  Ascii.eqb c space || Ascii.eqb c tab || Ascii.eqb c newline || Ascii.eqb c creturn.

(** The string [s] with every apostrophe turned into a double quote; it
    lets JSON texts be written legibly: [js "{'a':1}"]. *)
Fixpoint js (s : string) : string :=
  match s with
  | EmptyString => EmptyString
  | String c r => String (if Ascii.eqb c "'"%char then dquote else c) (js r)
  end.

Fixpoint skip_ws (s : string) : string :=
  match s with
  | String c r => if is_ws c then skip_ws r else s
  | EmptyString => EmptyString
  end.

Fixpoint all_ws (s : string) : bool :=
  match s with
  | String c r => is_ws c && all_ws r
  | EmptyString => true
  end.

(** [s.startsWith(p)] *)
Fixpoint startsWith (p s : string) : bool :=
  match p, s with
  | EmptyString, _ => true
  | String a p', String b s' => Ascii.eqb a b && startsWith p' s'
  | String _ _, EmptyString => false
  end.

End Chars.
Import Chars.

(* ===================================================================== *)
(** ** JSON values, [JSON.stringify] and [JSON.parse] *)
(* ===================================================================== *)

Module Json.

(** The values [JSON.parse] can produce.  A number literal without
    fraction and exponent is an integer [JNum]; any other number literal
    is carried as its text ([JFrac]): double-precision values that are not
    integers are outside this model. *)
#[warnings="-register-all"]
Inductive jsval : Type :=
| JNull
| JBool (b : bool)
| JNum (z : Z)
| JFrac (lit : string)
| JStr (s : string)
| JArr (items : list jsval)
| JObj (members : list (string * jsval)).

(** *** Objects: own data properties in insertion order *)

(** [o[k]]; [None] stands for [undefined]. *)
Fixpoint obj_get (k : string) (l : list (string * jsval)) : option jsval :=
  match l with
  | [] => None
  | (k', v) :: r => if String.eqb k' k then Some v else obj_get k r
  end.

(** [o[k] = v]: an existing property keeps its place, a new one goes last. *)
Fixpoint obj_set (k : string) (v : jsval) (l : list (string * jsval))
  : list (string * jsval) :=
  match l with
  | [] => [(k, v)]
  | (k', v') :: r =>
      if String.eqb k' k then (k', v) :: r else (k', v') :: obj_set k v r
  end.

(** The object built from the members of an object literal read left to
    right: a repeated key overwrites the earlier value. *)
Definition obj_of_members (l : list (string * jsval)) : list (string * jsval) :=
  fold_left (fun acc kv => obj_set (fst kv) (snd kv) acc) l [].

(** *** Numbers *)

Definition string_of_Z (z : Z) : string :=
  match z with
  | Z0 => "0"
  | Zpos p => NilEmpty.string_of_uint (Pos.to_uint p)
  | Zneg p => String "-" (NilEmpty.string_of_uint (Pos.to_uint p))
  end.

Definition digit_cons (c : ascii) (u : uint) : uint :=
  match uint_of_char c (Some u) with
  | Some u' => u'
  | None => Nil
  end.

(** The longest prefix of decimal digits, and what follows it. *)
Fixpoint read_digits (s : string) : uint * string :=
  match s with
  | String c r =>
      if is_digit c
      then let '(u, r') := read_digits r in (digit_cons c u, r')
      else (Nil, s)
  | EmptyString => (Nil, EmptyString)
  end.

(** JSON forbids a leading zero in front of further digits. *)
Definition leading_zero (u : uint) : bool :=
  match u with
  | D0 Nil => false
  | D0 _ => true
  | _ => false
  end.

(** The optional fraction [.digits]: its text and the rest. *)
Definition parse_frac (s : string) : option (string * string) :=
  match s with
  | String "." r =>
      match read_digits r with
      | (Nil, _) => None
      | (u, r') => Some (String "." (NilEmpty.string_of_uint u), r')
      end
  | _ => Some (EmptyString, s)
  end.

(** The optional exponent [e|E][+|-]digits: its text and the rest. *)
Definition parse_exp (s : string) : option (string * string) :=
  match s with
  | String c r =>
      if Ascii.eqb c "e" || Ascii.eqb c "E" then
        let '(sign, r1) :=
          match r with
          | String "+" r1 => ("+"%string, r1)
          | String "-" r1 => ("-"%string, r1)
          | _ => (EmptyString, r)
          end in
        match read_digits r1 with
        | (Nil, _) => None
        | (u, r2) => Some (String c (sign +:+ NilEmpty.string_of_uint u), r2)
        end
      else Some (EmptyString, s)
  | EmptyString => Some (EmptyString, s)
  end.

Definition parse_number (s : string) : option (jsval * string) :=
  let '(neg, s1) :=
    match s with
    | String "-" r => (true, r)
    | _ => (false, s)
    end in
  match read_digits s1 with
  | (Nil, _) => None
  | (u, s2) =>
      if leading_zero u then None else
      match parse_frac s2 with
      | None => None
      | Some (frac, s3) =>
          match parse_exp s3 with
          | None => None
          | Some (exp, s4) =>
              match frac, exp with
              | EmptyString, EmptyString =>
                  Some (JNum (if neg then - Z.of_uint u else Z.of_uint u), s4)
              | _, _ =>
                  Some (JFrac ((if neg then "-" else EmptyString)
                               +:+ NilEmpty.string_of_uint u +:+ frac +:+ exp), s4)
              end
          end
      end
  end.

(** *** Strings *)

(** The lower-case hexadecimal digit of a value below 16. *)
Definition hexdigit (n : N) : ascii :=
  ascii_of_N (if n <? 10 then 48 + n else 87 + n)%N.

(** The value of a hexadecimal digit, in either case. *)
Definition hexval (c : ascii) : option N :=
  let n := N_of_ascii c in
  (if (48 <=? n) && (n <=? 57) then Some (n - 48)
   else if (97 <=? n) && (n <=? 102) then Some (n - 87)
   else if (65 <=? n) && (n <=? 70) then Some (n - 55)
   else None)%N.

(** The code unit written by four hexadecimal digits. *)
Definition hex4 (a b c d : ascii) : option N :=
  match hexval a, hexval b, hexval c, hexval d with
  | Some x, Some y, Some z, Some w => Some (((x * 16 + y) * 16 + z) * 16 + w)%N
  | _, _, _, _ => None
  end.

(** QuoteJSONString, one character at a time. *)
Definition escape_char (c : ascii) : string :=
  if Ascii.eqb c dquote then String backslash (String dquote EmptyString)
  else if Ascii.eqb c backslash then String backslash (String backslash EmptyString)
  else if Ascii.eqb c backspace then String backslash "b"
  else if Ascii.eqb c formfeed then String backslash "f"
  else if Ascii.eqb c newline then String backslash "n"
  else if Ascii.eqb c creturn then String backslash "r"
  else if Ascii.eqb c tab then String backslash "t"
  else if (N_of_ascii c <? 32)%N then
    String backslash
      (String "u" (String "0" (String "0"
        (String (hexdigit (N_of_ascii c / 16)) (String (hexdigit (N_of_ascii c mod 16)) EmptyString)))))
  else String c EmptyString.

Fixpoint escape (s : string) : string :=
  match s with
  | EmptyString => EmptyString
  | String c r => escape_char c +:+ escape r
  end.

Definition quote (s : string) : string :=
  String dquote (escape s +:+ String dquote EmptyString).

(** The bytes of a code point in (generalised) UTF-8. *)
Definition utf8 (cp : N) : string :=
  (if cp <? 128 then String (ascii_of_N cp) EmptyString
   else if cp <? 2048 then
     String (ascii_of_N (192 + cp / 64)) (String (ascii_of_N (128 + cp mod 64)) EmptyString)
   else if cp <? 65536 then
     String (ascii_of_N (224 + cp / 4096))
       (String (ascii_of_N (128 + (cp / 64) mod 64))
          (String (ascii_of_N (128 + cp mod 64)) EmptyString))
   else
     String (ascii_of_N (240 + cp / 262144))
       (String (ascii_of_N (128 + (cp / 4096) mod 64))
          (String (ascii_of_N (128 + (cp / 64) mod 64))
             (String (ascii_of_N (128 + cp mod 64)) EmptyString))))%N.

Definition is_high_surrogate (u : N) : bool := ((55296 <=? u) && (u <? 56320))%N.
Definition is_low_surrogate (u : N) : bool := ((56320 <=? u) && (u <? 57344))%N.

(** The low surrogate written as an escape at the head of [s], if any. *)
Definition low_surrogate_escape (b u g1 g2 g3 g4 : ascii) : option N :=
  if Ascii.eqb b backslash && Ascii.eqb u "u" then
    match hex4 g1 g2 g3 g4 with
    | Some lo => if is_low_surrogate lo then Some lo else None
    | None => None
    end
  else None.

Definition prepend (p : string) (r : option (string * string)) : option (string * string) :=
  match r with
  | Some (x, rest) => Some (p +:+ x, rest)
  | None => None
  end.

(** The characters of a string literal after its opening quote, up to and
    including the closing quote: the string denoted and the rest. *)
Fixpoint parse_chars (s : string) : option (string * string) :=
  match s with
  | EmptyString => None
  | String c r =>
      if Ascii.eqb c dquote then Some (EmptyString, r)
      else if Ascii.eqb c backslash then
        match r with
        | String e r1 =>
            if Ascii.eqb e dquote then prepend (String dquote EmptyString) (parse_chars r1)
            else if Ascii.eqb e backslash then prepend (String backslash EmptyString) (parse_chars r1)
            else if Ascii.eqb e slash then prepend (String slash EmptyString) (parse_chars r1)
            else if Ascii.eqb e "b" then prepend (String backspace EmptyString) (parse_chars r1)
            else if Ascii.eqb e "f" then prepend (String formfeed EmptyString) (parse_chars r1)
            else if Ascii.eqb e "n" then prepend (String newline EmptyString) (parse_chars r1)
            else if Ascii.eqb e "r" then prepend (String creturn EmptyString) (parse_chars r1)
            else if Ascii.eqb e "t" then prepend (String tab EmptyString) (parse_chars r1)
            else if Ascii.eqb e "u" then
              match r1 with
              | String h1 (String h2 (String h3 (String h4 r5))) =>
                  match hex4 h1 h2 h3 h4 with
                  | Some cu =>
                      if is_high_surrogate cu then
                        match r5 with
                        | String b (String u (String g1 (String g2 (String g3 (String g4 r11))))) =>
                            match low_surrogate_escape b u g1 g2 g3 g4 with
                            | Some lo =>
                                prepend (utf8 (65536 + (cu - 55296) * 1024 + (lo - 56320))%N)
                                        (parse_chars r11)
                            | None => prepend (utf8 cu) (parse_chars r5)
                            end
                        | _ => prepend (utf8 cu) (parse_chars r5)
                        end
                      else prepend (utf8 cu) (parse_chars r5)
                  | None => None
                  end
              | _ => None
              end
            else None
        | EmptyString => None
        end
      else if (N_of_ascii c <? 32)%N then None
      else prepend (String c EmptyString) (parse_chars r)
  end.

(** *** [JSON.stringify] *)

Fixpoint stringify (v : jsval) : string :=
  match v with
  | JNull => "null"
  | JBool true => "true"
  | JBool false => "false"
  | JNum z => string_of_Z z
  | JFrac lit => lit
  | JStr s => quote s
  | JArr items =>
      "[" +:+
      match items with
      | [] => EmptyString
      | x :: r =>
          stringify x +:+
          (fix more (l : list jsval) : string :=
             match l with
             | [] => EmptyString
             | y :: l' => "," +:+ stringify y +:+ more l'
             end) r
      end +:+ "]"
  | JObj members =>
      "{" +:+
      match members with
      | [] => EmptyString
      | (k, x) :: r =>
          quote k +:+ ":" +:+ stringify x +:+
          (fix more (l : list (string * jsval)) : string :=
             match l with
             | [] => EmptyString
             | (k', y) :: l' => "," +:+ quote k' +:+ ":" +:+ stringify y +:+ more l'
             end) r
      end +:+ "}"
  end.

(** *** [JSON.parse] *)

(** What follows the prefix [w] of [s], if [s] starts with [w]. *)
Fixpoint after_prefix (w s : string) : option string :=
  match w, s with
  | EmptyString, _ => Some s
  | String a w', String b s' => if Ascii.eqb a b then after_prefix w' s' else None
  | String _ _, EmptyString => None
  end.

(** The keyword tail [w] is expected at the head of [s]. *)
Definition expect (w : string) (s : string) (v : jsval) : option (jsval * string) :=
  match after_prefix w s with
  | Some r => Some (v, r)
  | None => None
  end.

(** What follows the character [c], if it is the first one of [s] after
    white space. *)
Definition after_char (c : ascii) (s : string) : option string :=
  match skip_ws s with
  | String c1 r1 => if Ascii.eqb c1 c then Some r1 else None
  | EmptyString => None
  end.

(** One member [ "key" : value ] of an object, given the value parser. *)
Definition parse_member (pv : string -> option (jsval * string)) (s : string)
  : option ((string * jsval) * string) :=
  match skip_ws s with
  | String c r =>
      if Ascii.eqb c dquote then
        match parse_chars r with
        | Some (k, r1) =>
            match after_char ":" r1 with
            | Some r2 =>
                match pv r2 with
                | Some (v, r3) => Some ((k, v), r3)
                | None => None
                end
            | None => None
            end
        | None => None
        end
      else None
  | EmptyString => None
  end.

(** Recursive descent; [fuel] bounds the nesting and the number of
    elements read, and the length of the text is always enough. *)
Fixpoint parse_value (fuel : nat) (s : string) {struct fuel} : option (jsval * string) :=
  match fuel with
  | O => None
  | S f =>
      match skip_ws s with
      | EmptyString => None
      | String c r =>
          if Ascii.eqb c "n" then expect "ull" r JNull
          else if Ascii.eqb c "t" then expect "rue" r (JBool true)
          else if Ascii.eqb c "f" then expect "alse" r (JBool false)
          else if Ascii.eqb c dquote then
            match parse_chars r with
            | Some (x, r1) => Some (JStr x, r1)
            | None => None
            end
          else if Ascii.eqb c "[" then
            match after_char "]" r with
            | Some r1 => Some (JArr [], r1)
            | None =>
                match parse_value f r with
                | Some (v, r1) =>
                    match parse_more_elements f r1 with
                    | Some (vs, r2) => Some (JArr (v :: vs), r2)
                    | None => None
                    end
                | None => None
                end
            end
          else if Ascii.eqb c "{" then
            match after_char "}" r with
            | Some r1 => Some (JObj [], r1)
            | None =>
                match parse_member (parse_value f) r with
                | Some (m, r1) =>
                    match parse_more_members f r1 with
                    | Some (ms, r2) => Some (JObj (obj_of_members (m :: ms)), r2)
                    | None => None
                    end
                | None => None
                end
            end
          else parse_number (String c r)
      end
  end

with parse_more_elements (fuel : nat) (s : string) {struct fuel}
  : option (list jsval * string) :=
  match fuel with
  | O => None
  | S f =>
      match skip_ws s with
      | String c r =>
          if Ascii.eqb c "]" then Some ([], r)
          else if Ascii.eqb c "," then
            match parse_value f r with
            | Some (v, r1) =>
                match parse_more_elements f r1 with
                | Some (vs, r2) => Some (v :: vs, r2)
                | None => None
                end
            | None => None
            end
          else None
      | EmptyString => None
      end
  end

with parse_more_members (fuel : nat) (s : string) {struct fuel}
  : option (list (string * jsval) * string) :=
  match fuel with
  | O => None
  | S f =>
      match skip_ws s with
      | String c r =>
          if Ascii.eqb c "}" then Some ([], r)
          else if Ascii.eqb c "," then
            match parse_member (parse_value f) r with
            | Some (m, r1) =>
                match parse_more_members f r1 with
                | Some (ms, r2) => Some (m :: ms, r2)
                | None => None
                end
            | None => None
            end
          else None
      | EmptyString => None
      end
  end.

(** [JSON.parse(text)]: [None] stands for the [SyntaxError] it throws. *)
Definition parse (text : string) : option jsval :=
  match parse_value (S (String.length text)) text with
  | Some (v, rest) => if all_ws rest then Some v else None
  | None => None
  end.

End Json.

(* ===================================================================== *)
(** ** The data model ([types.ts]) *)
(* ===================================================================== *)

Module Types.

(** ['up' | 'down' | null] *)
Inductive Vote : Type := VoteUp | VoteDown | VoteNull.

(** [TeamMemberNote].  The interface declares three required properties; at
    run time a note is an object that may lack some of them (the spread in
    [updateMemberNote] can build one), so each is optional here: [None]
    means that the object has no such property. *)
Record TeamMemberNote : Type := mkTeamMemberNote {
  name : option string;
  note : option string;
  vote : option Vote
}.

(** [DressEntry]; [image] is a data URL or [null]. *)
Record DressEntry : Type := mkDressEntry {
  id : string;
  location : string;
  price : string;
  image : option string;
  teamNotes : gmap string TeamMemberNote
}.

Record SyncData : Type := mkSyncData {
  entries : list DressEntry;
  lastUpdated : Z
}.

(** [Partial<DressEntry>] *)
Record DressEntryUpdates : Type := mkDressEntryUpdates {
  new_id : option string;
  new_location : option string;
  new_price : option string;
  new_image : option (option string);
  new_teamNotes : option (gmap string TeamMemberNote)
}.

(** [Partial<{note: string, vote: 'up' | 'down' | null}>] *)
Record NoteUpdates : Type := mkNoteUpdates {
  new_note : option string;
  new_vote : option Vote
}.

#[global] Instance Vote_eq_dec : EqDecision Vote.
Proof. solve_decision. Defined.
#[global] Instance TeamMemberNote_eq_dec : EqDecision TeamMemberNote.
Proof. solve_decision. Defined.
#[global] Instance DressEntry_eq_dec : EqDecision DressEntry.
Proof. solve_decision. Defined.

End Types.
Import Types.

(* ===================================================================== *)
(** ** The typed values as JSON *)
(* ===================================================================== *)

Module Codec.
Import Json.

(** What [JSON.stringify] sees of each typed value: the properties in the
    order of the object literals that build them. *)

Definition json_of_vote (v : Vote) : jsval :=
  match v with
  | VoteUp => JStr "up"
  | VoteDown => JStr "down"
  | VoteNull => JNull
  end.

Definition member {A : Type} (k : string) (f : A -> jsval) (o : option A)
  : list (string * jsval) :=
  match o with
  | Some a => [(k, f a)]
  | None => []
  end.

Definition json_of_note (n : TeamMemberNote) : jsval :=
  JObj (member "name" JStr (name n) ++ member "note" JStr (note n)
        ++ member "vote" json_of_vote (vote n)).

(** The members of [teamNotes] are written in the order in which the map
    enumerates its keys.  [JSON.stringify] writes them in the order in
    which they were put into the object, which the map does not record:
    the text written can differ from the code's in the order of these
    members, and in nothing else; [JSON.parse] gives the same value for
    both. *)
Definition json_of_teamNotes (m : gmap string TeamMemberNote) : jsval :=
  JObj (map (fun kn => (fst kn, json_of_note (snd kn))) (map_to_list m)).

Definition json_of_image (i : option string) : jsval :=
  match i with
  | Some s => JStr s
  | None => JNull
  end.

Definition json_of_entry (e : DressEntry) : jsval :=
  JObj [("id"%string, JStr (id e));
        ("location"%string, JStr (location e));
        ("price"%string, JStr (price e));
        ("image"%string, json_of_image (image e));
        ("teamNotes"%string, json_of_teamNotes (teamNotes e))].

Definition json_of_entries (l : list DressEntry) : jsval :=
  JArr (map json_of_entry l).

Definition json_of_SyncData (d : SyncData) : jsval :=
  JObj [("entries"%string, json_of_entries (entries d));
        ("lastUpdated"%string, JNum (lastUpdated d))].

(** The other direction: the typed value a JSON value is, if it has the
    declared shape.  TypeScript's annotation [const parsed: SyncData] checks
    nothing at run time; the model is typed, so it has to say where a value
    stops being one. *)

Definition vote_of_json (v : jsval) : option Vote :=
  match v with
  | JNull => Some VoteNull
  | JStr s =>
      if String.eqb s "up" then Some VoteUp
      else if String.eqb s "down" then Some VoteDown
      else None
  | _ => None
  end.

Definition string_of_json (v : jsval) : option string :=
  match v with
  | JStr s => Some s
  | _ => None
  end.

Definition note_add (acc : option TeamMemberNote) (kv : string * jsval)
  : option TeamMemberNote :=
  match acc with
  | None => None
  | Some n =>
      if String.eqb (fst kv) "name" then
        match string_of_json (snd kv) with
        | Some s => Some (mkTeamMemberNote (Some s) (note n) (vote n))
        | None => None
        end
      else if String.eqb (fst kv) "note" then
        match string_of_json (snd kv) with
        | Some s => Some (mkTeamMemberNote (name n) (Some s) (vote n))
        | None => None
        end
      else if String.eqb (fst kv) "vote" then
        match vote_of_json (snd kv) with
        | Some v => Some (mkTeamMemberNote (name n) (note n) (Some v))
        | None => None
        end
      else None
  end.

Definition note_of_json (v : jsval) : option TeamMemberNote :=
  match v with
  | JObj l => fold_left note_add l (Some (mkTeamMemberNote None None None))
  | _ => None
  end.

Fixpoint notes_of_members (l : list (string * jsval))
  : option (list (string * TeamMemberNote)) :=
  match l with
  | [] => Some []
  | (k, v) :: r =>
      match note_of_json v, notes_of_members r with
      | Some n, Some ns => Some ((k, n) :: ns)
      | _, _ => None
      end
  end.

Definition teamNotes_of_json (v : jsval) : option (gmap string TeamMemberNote) :=
  match v with
  | JObj l =>
      match notes_of_members l with
      | Some ns => Some (list_to_map ns)
      | None => None
      end
  | _ => None
  end.

Definition image_of_json (v : jsval) : option (option string) :=
  match v with
  | JNull => Some None
  | JStr s => Some (Some s)
  | _ => None
  end.

Definition entry_of_json (v : jsval) : option DressEntry :=
  match v with
  | JObj l =>
      if (length l =? 5)%nat then
        match obj_get "id" l, obj_get "location" l, obj_get "price" l,
              obj_get "image" l, obj_get "teamNotes" l with
        | Some (JStr i), Some (JStr loc), Some (JStr p), Some im, Some tn =>
            match image_of_json im, teamNotes_of_json tn with
            | Some im', Some tn' => Some (mkDressEntry i loc p im' tn')
            | _, _ => None
            end
        | _, _, _, _, _ => None
        end
      else None
  | _ => None
  end.

Fixpoint entries_of_items (l : list jsval) : option (list DressEntry) :=
  match l with
  | [] => Some []
  | v :: r =>
      match entry_of_json v, entries_of_items r with
      | Some e, Some es => Some (e :: es)
      | _, _ => None
      end
  end.

Definition entries_of_json (v : jsval) : option (list DressEntry) :=
  match v with
  | JArr l => entries_of_items l
  | _ => None
  end.

End Codec.

(* ===================================================================== *)
(** ** The Entry Store: the state updaters of [App] *)
(* ===================================================================== *)

Module Store.

(** [{ ...e, ...updates }] *)
Definition merge_entry (e : DressEntry) (updates : DressEntryUpdates) : DressEntry :=
  {| id := default (id e) (new_id updates);
     location := default (location e) (new_location updates);
     price := default (price e) (new_price updates);
     image := default (image e) (new_image updates);
     teamNotes := default (teamNotes e) (new_teamNotes updates) |}.

(** [{ ...memberNote, ...updates }], where [memberNote] is [undefined] when
    the entry has no note under the name: spreading [undefined] adds
    nothing. *)
Definition merge_note (memberNote : option TeamMemberNote) (updates : NoteUpdates)
  : TeamMemberNote :=
  let base := default (mkTeamMemberNote None None None) memberNote in
  {| name := name base;
     note := match new_note updates with Some s => Some s | None => note base end;
     vote := match new_vote updates with Some v => Some v | None => vote base end |}.

(** [prev.map(e => e.id === id ? { ...e, ...updates } : e)] *)
Definition updateEntry (id0 : string) (updates : DressEntryUpdates)
  (prev : list DressEntry) : list DressEntry :=
  map (fun e => if String.eqb (id e) id0 then merge_entry e updates else e) prev.

Definition updateMemberNote (entryId memberName : string) (updates : NoteUpdates)
  (prev : list DressEntry) : list DressEntry :=
  map (fun e =>
         if String.eqb (id e) entryId then
           let memberNote := teamNotes e !! memberName in
           {| id := id e; location := location e; price := price e; image := image e;
              teamNotes := <[memberName := merge_note memberNote updates]> (teamNotes e) |}
         else e) prev.

(** [prev.filter(e => e.id !== id)], run only when the user confirms. *)
Definition removeDress (confirm : bool) (id0 : string) (prev : list DressEntry)
  : list DressEntry :=
  if confirm then List.filter (fun e => negb (String.eqb (id e) id0)) prev else prev.

Section Roster.
Variable TEAM_MEMBERS : list string.

(** [TEAM_MEMBERS.reduce((acc, name) =>
       ({ ...acc, [name]: { name, note: '', vote: null } }), {})] *)
Definition emptyTeamNotes : gmap string TeamMemberNote :=
  fold_left
    (fun acc name0 =>
       <[name0 := mkTeamMemberNote (Some name0) (Some EmptyString) (Some VoteNull)]> acc)
    TEAM_MEMBERS ∅.

(** The entry both revisions build for a new row; [uuid] is the value
    [crypto.randomUUID()] returned. *)
Definition newEntry (uuid : string) : DressEntry :=
  {| id := uuid; location := EmptyString; price := EmptyString; image := None;
     teamNotes := emptyTeamNotes |}.

End Roster.

End Store.

(* ===================================================================== *)
(** ** Effects: React state, [localStorage], and what the user and the
       network see *)
(* ===================================================================== *)

Module Runtime.
Import Json.

Inductive Error : Type :=
| SyntaxError        (** thrown by [JSON.parse] *)
| TypeError          (** a property read on [null] *)
| RequestError.      (** the rejection of the remote call *)

(** [new Event('storage')] has neither [key] nor [newValue]: both read as
    [undefined], here [None] (which also stands for [null]). *)
Record StorageEvent : Type := mkStorageEvent {
  key : option string;
  newValue : option string
}.

(** One element of [parts] in a content-generation request. *)
Inductive Part : Type :=
| TextPart (text : string)
| InlineData (mimeType : string) (data : option string).

(** What leaves the component, in the order it happens. *)
Inductive Effect : Type :=
| Alert (msg : string)
| ConsoleError (label : string) (e : Error)
| DispatchEvent (e : StorageEvent)
| SetTimeout (ms : Z)
| Progress (percent : Z)
| GenerateContent (model : string) (parts : list Part)
| Resolved
| Rejected.

(** How a piece of code ends.  [IllTyped v] is not an exception: it marks
    the point where a value that does not have its declared TypeScript
    type ([v]; [None] for [undefined] or a function) is stored in the typed
    state, and the typed model has nothing more to say. *)
Inductive Completion (A : Type) : Type :=
| Normal (a : A)
| Throw (e : Error)
| IllTyped (v : option jsval).
Arguments Normal {A} a.
Arguments Throw {A} e.
Arguments IllTyped {A} v.

Record World (St : Type) : Type := mkWorld {
  react : St;
  localStorage : gmap string string;
  trace : list Effect
}.
Arguments mkWorld {St} _ _ _.
Arguments react {St} _.
Arguments localStorage {St} _.
Arguments trace {St} _.

Definition M (St A : Type) : Type := World St -> Completion A * World St.

Definition ret {St A} (a : A) : M St A := fun w => (Normal a, w).

Definition bind {St A B} (c : M St A) (k : A -> M St B) : M St B :=
  fun w =>
    match c w with
    | (Normal a, w') => k a w'
    | (Throw e, w') => (Throw e, w')
    | (IllTyped v, w') => (IllTyped v, w')
    end.

Definition throw {St A} (e : Error) : M St A := fun w => (Throw e, w).
Definition illTyped {St A} (v : option jsval) : M St A := fun w => (IllTyped v, w).

(** [try { body } catch (e) { handler }] *)
Definition try_catch {St A} (body : M St A) (handler : Error -> M St A) : M St A :=
  fun w =>
    match body w with
    | (Throw e, w') => handler e w'
    | r => r
    end.

(** [try-block finally { cleanup }]: the cleanup runs however the block
    ended, and the block's completion stands unless the cleanup throws. *)
Definition finally {St A} (block : M St A) (cleanup : M St unit) : M St A :=
  fun w =>
    match block w with
    | (IllTyped v, w') => (IllTyped v, w')
    | (r, w') =>
        match cleanup w' with
        | (Normal _, w'') => (r, w'')
        | (Throw e, w'') => (Throw e, w'')
        | (IllTyped v, w'') => (IllTyped v, w'')
        end
    end.

Definition gets {St A} (f : St -> A) : M St A := fun w => (Normal (f (react w)), w).

Definition modify {St} (f : St -> St) : M St unit :=
  fun w => (Normal tt, mkWorld (f (react w)) (localStorage w) (trace w)).

Definition emit {St} (e : Effect) : M St unit :=
  fun w => (Normal tt, mkWorld (react w) (localStorage w) (trace w ++ [e])).

(** [localStorage.getItem(k)] *)
Definition getItem {St} (k : string) : M St (option string) :=
  fun w => (Normal (localStorage w !! k), w).

(** [localStorage.setItem(k, v)] (the quota is not modelled: the write
    succeeds). *)
Definition setItem {St} (k v : string) : M St unit :=
  fun w => (Normal tt, mkWorld (react w) (<[k := v]> (localStorage w)) (trace w)).

Definition alert {St} (msg : string) : M St unit := emit (Alert msg).
Definition console_error {St} (label : string) (e : Error) : M St unit :=
  emit (ConsoleError label e).

(** [JSON.parse(text)] *)
Definition JSON_parse {St} (text : string) : M St jsval :=
  match Json.parse text with
  | Some v => ret v
  | None => throw SyntaxError
  end.

(** A string (or [null]) in a condition. *)
Definition truthy_string (o : option string) : bool :=
  match o with
  | Some (String _ _) => true
  | _ => false
  end.

(** The mantissa of a number literal has a digit other than zero. *)
Fixpoint nonzero_mantissa (lit : string) : bool :=
  match lit with
  | EmptyString => false
  | String c r =>
      if Ascii.eqb c "e" || Ascii.eqb c "E" then false
      else (is_digit c && negb (Ascii.eqb c "0")) || nonzero_mantissa r
  end.

(** ToBoolean; [None] is [undefined]. *)
Definition truthy (o : option jsval) : bool :=
  match o with
  | None | Some JNull | Some (JBool false) | Some (JNum 0) | Some (JStr EmptyString) => false
  | Some (JFrac lit) => nonzero_mantissa lit
  | Some _ => true
  end.

(** [a || b] *)
Definition or_else (a : option jsval) (b : jsval) : option jsval :=
  if truthy a then a else Some b.

(** [v.k] for a value that [JSON.parse] returned.  Own properties of
    objects are read; primitives have neither of the names the program
    reads; reading a property of [null] throws.  Arrays inherit a method
    called [entries], a function, which only [IllTyped] can stand for. *)
Definition prop {St} (v : jsval) (k : string) : M St (option jsval) :=
  match v with
  | JNull => throw TypeError
  | JObj l => ret (obj_get k l)
  | JArr _ => if String.eqb k "entries" then illTyped None else ret None
  | _ => ret None
  end.

(** A value used as [DressEntry[]]. *)
Definition as_entries {St} (v : option jsval) : M St (list DressEntry) :=
  match v with
  | Some j =>
      match Codec.entries_of_json j with
      | Some l => ret l
      | None => illTyped v
      end
  | None => illTyped v
  end.

(** A value used as [number | null]. *)
Definition as_time {St} (v : option jsval) : M St (option Z) :=
  match v with
  | Some (JNum z) => ret (Some z)
  | Some JNull => ret None
  | _ => illTyped v
  end.

End Runtime.

(* ===================================================================== *)
(** ** Numbers: the double-precision results of the divisions in the code *)
(* ===================================================================== *)

Module Number.
Local Open Scope Q_scope.

(** The integer nearest to [q], ties to the even one. *)
Definition round_half_even (q : Q) : Z :=
  let f := Qfloor q in
  match Qcompare (q - inject_Z f) (1 # 2) with
  | Lt => f
  | Gt => (f + 1)%Z
  | Eq => if Z.even f then f else (f + 1)%Z
  end.

(** The exponent [e] with [2^e <= |q| < 2^(e+1)], for [q] other than 0. *)
Definition binade (q : Q) : Z :=
  let k := (Z.log2 (Z.abs (Qnum q)) - Z.log2 (Zpos (Qden q)))%Z in
  if Qle_bool (2 ^ k) (Qabs q) then k else (k - 1)%Z.

(** The double nearest to the real number [q]: 53 significant bits, round
    to nearest, ties to even.  The exponent range is not bounded (no
    overflow, no subnormal numbers): the quantities of this program stay
    far inside it. *)
Definition fl (q : Q) : Q :=
  if Qeq_bool q 0 then 0
  else
    let ulp := 2 ^ (binade q - 52) in
    inject_Z (round_half_even (q / ulp)) * ulp.

(** [a / b] and [a * b] on doubles. *)
Definition div (a b : Q) : Q := fl (a / b).
Definition mul (a b : Q) : Q := fl (a * b).

(** [Math.round(x)]: the integer nearest to [x], ties upwards. *)
Definition Math_round (x : Q) : Z := Qfloor (x + (1 # 2)).

(** The conversion of a number to WebIDL's [unsigned long] (the type of
    [canvas.width]): truncated towards zero, modulo [2^32]. *)
Definition ToUint32 (x : Q) : Z :=
  ((if Qle_bool 0 x then Qfloor x else Qceiling x) mod 2 ^ 32)%Z.

End Number.

Module Prog.
Import Runtime.

#[global] Instance M_ret {St : Type} : MRet (M St) := fun A a => ret a.
#[global] Instance M_bind {St : Type} : MBind (M St) := fun A B k c => bind c k.

(** [for (let i = start; ...; i++) { const x = l[i]; body }] over the
    elements of [l] from index [start] on. *)
Fixpoint for_each {St A : Type} (body : nat -> A -> M St unit) (start : nat) (l : list A)
  : M St unit :=
  match l with
  | [] => ret tt
  | x :: rest => body start x;; for_each body (S start) rest
  end.

(** Running a piece of code from a given world. *)
Definition run {St A : Type} (c : M St A) (w : World St) : Completion A * World St := c w.

End Prog.

(* ===================================================================== *)
(** ** [App], first revision: local persistence and the storage listener *)
(* ===================================================================== *)

Module Local.
Import Json Runtime Prog.

(** The three [useState] cells. *)
Record State : Type := mkState {
  entries : list DressEntry;
  isSyncing : bool;
  lastSyncTime : option Z
}.

Definition initialState : State := mkState [] false None.

Definition setEntries (f : list DressEntry -> list DressEntry) : M State unit :=
  modify (fun s => mkState (f (entries s)) (isSyncing s) (lastSyncTime s)).
Definition setIsSyncing (b : bool) : M State unit :=
  modify (fun s => mkState (entries s) b (lastSyncTime s)).
Definition setLastSyncTime (t : option Z) : M State unit :=
  modify (fun s => mkState (entries s) (isSyncing s) t).

(** A pending [setTimeout]. *)
Record Timer : Type := mkTimer {
  delay : Z;
  callback : M State unit
}.

Section App.
Variable TEAM_MEMBERS : list string.
Variable STORAGE_KEY : string.

(** The effect that runs once after the first render; [uuid] is what
    [crypto.randomUUID()] returns if it is called. *)
Definition initialLoad (uuid : string) : M State unit :=
  saved ← getItem STORAGE_KEY;
  if truthy_string saved then
    parsed ← JSON_parse (default EmptyString saved);
    es ← prop parsed "entries" ≫= as_entries;
    setEntries (fun _ => es);;
    t ← prop parsed "lastUpdated" ≫= as_time;
    setLastSyncTime t
  else
    let initialEntry := Store.newEntry TEAM_MEMBERS uuid in
    setEntries (fun _ => [initialEntry]).

Definition handleStorageChange (e : StorageEvent) : M State unit :=
  if bool_decide (key e = Some STORAGE_KEY) && truthy_string (newValue e) then
    parsed ← JSON_parse (default EmptyString (newValue e));
    es ← prop parsed "entries" ≫= as_entries;
    setEntries (fun _ => es);;
    t ← prop parsed "lastUpdated" ≫= as_time;
    setLastSyncTime t
  else mret tt.

(** [window.dispatchEvent(e)] for a storage event: the listener this
    component registered runs at once; an exception it throws is reported
    and does not reach the dispatcher. *)
Definition dispatchEvent (e : StorageEvent) : M State unit :=
  emit (DispatchEvent e);;
  try_catch (handleStorageChange e) (fun err => console_error "Uncaught" err).

(** [saveToCloud], up to the [setTimeout]; [now] is what [Date.now()]
    returns.  The callback of the timer is the value returned. *)
Definition saveToCloud (now : Z) : M State Timer :=
  setIsSyncing true;;
  es ← gets entries;
  let syncData := mkSyncData es now in
  mret (mkTimer 800 (
    setItem STORAGE_KEY (stringify (Codec.json_of_SyncData syncData));;
    setLastSyncTime (Some (lastUpdated syncData));;
    setIsSyncing false;;
    dispatchEvent (mkStorageEvent None None);;
    alert "הנתונים סונכרנו בהצלחה לכל הצוות!")).

(** [save]: the call and then its timer. *)
Definition save (now : Z) : M State unit :=
  t ← saveToCloud now; callback t.

Definition updateEntry (id0 : string) (updates : DressEntryUpdates) : M State unit :=
  setEntries (Store.updateEntry id0 updates).

Definition updateMemberNote (entryId memberName : string) (updates : NoteUpdates)
  : M State unit :=
  setEntries (Store.updateMemberNote entryId memberName updates).

(** New entries go last. *)
Definition addNewDress (uuid : string) : M State unit :=
  let newEntry := Store.newEntry TEAM_MEMBERS uuid in
  setEntries (fun prev => prev ++ [newEntry]).

Definition removeDress (confirm : bool) (id0 : string) : M State unit :=
  setEntries (Store.removeDress confirm id0).

(** [handleImageUpload], once the file reader is done: [file] is the data
    URL it produced for the first file chosen, or [None] when no file was
    chosen. *)
Definition handleImageUpload (id0 : string) (file : option string) : M State unit :=
  match file with
  | Some result =>
      updateEntry id0 (mkDressEntryUpdates None None None (Some (Some result)) None)
  | None => mret tt
  end.

End App.
End Local.

(* ===================================================================== *)
(** ** [App], second revision: guarded load, image compression and the
       per-entry upload *)
(* ===================================================================== *)

Module Cloud.
Import Json Runtime Prog.

(** ['idle' | 'loading' | 'success' | 'error'] *)
Inductive CloudStatus : Type := idle | loading | success | error.

(** The five [useState] cells. *)
Record State : Type := mkState {
  entries : list DressEntry;
  isSyncing : bool;
  lastSyncTime : option Z;
  syncProgress : Z;
  cloudStatus : CloudStatus
}.

Definition initialState : State := mkState [] false None 0 idle.

Definition setEntries (f : list DressEntry -> list DressEntry) : M State unit :=
  modify (fun s => mkState (f (entries s)) (isSyncing s) (lastSyncTime s)
                           (syncProgress s) (cloudStatus s)).
Definition setIsSyncing (b : bool) : M State unit :=
  modify (fun s => mkState (entries s) b (lastSyncTime s) (syncProgress s) (cloudStatus s)).
Definition setLastSyncTime (t : option Z) : M State unit :=
  modify (fun s => mkState (entries s) (isSyncing s) t (syncProgress s) (cloudStatus s)).
Definition setCloudStatus (c : CloudStatus) : M State unit :=
  modify (fun s => mkState (entries s) (isSyncing s) (lastSyncTime s) (syncProgress s) c).

(** The progress bar shows the value as soon as it is set. *)
Definition setSyncProgress (p : Z) : M State unit :=
  modify (fun s => mkState (entries s) (isSyncing s) (lastSyncTime s) p (cloudStatus s));;
  emit (Progress p).

(** *** [compressImage] *)

Definition MAX_SIZE : Z := 600.

(** The [width] and [height] variables when the canvas is sized, from
    [img.width] and [img.height]. *)
Definition scaledSize (img_width img_height : Z) : Q * Q :=
  let width := inject_Z img_width in
  let height := inject_Z img_height in
  if img_width >? img_height then
    if img_width >? MAX_SIZE then
      let height := Number.mul height (Number.div (inject_Z MAX_SIZE) width) in
      let width := inject_Z MAX_SIZE in
      (width, height)
    else (width, height)
  else
    if img_height >? MAX_SIZE then
      let width := Number.mul width (Number.div (inject_Z MAX_SIZE) height) in
      let height := inject_Z MAX_SIZE in
      (width, height)
    else (width, height).

(** The canvas that is encoded: its size (an [unsigned long] each way) and
    the one [drawImage] call on it. *)
Record Canvas : Type := mkCanvas {
  canvas_width : Z;
  canvas_height : Z;
  source : string;
  drawn_width : Q;
  drawn_height : Q;
  imageSmoothingQuality : string
}.

Definition canvasFor (base64 : string) (img_width img_height : Z) : Canvas :=
  let '(width, height) := scaledSize img_width img_height in
  {| canvas_width := Number.ToUint32 width;
     canvas_height := Number.ToUint32 height;
     source := base64;
     drawn_width := width;
     drawn_height := height;
     imageSmoothingQuality := "high" |}.

Section Images.
(** The browser's image decoder (the size of the picture a data URL holds,
    if it loads at all) and its encoder, [canvas.toDataURL(type, quality)]. *)
Variable decode : string -> option (Z * Z).
Variable toDataURL : Canvas -> string -> Q -> string.

(** The value the promise resolves with; [None] when [onload] never fires
    and the promise stays pending.  The 2d context is taken to exist, so
    the one [drawImage] call is always made. *)
Definition compressImage (base64 : string) : option string :=
  match decode base64 with
  | Some (img_width, img_height) =>
      Some (toDataURL (canvasFor base64 img_width img_height) "image/jpeg" (1 # 2))
  | None => None
  end.

End Images.

(** *** The component *)

(** [s.split(',')[1]]: what stands between the first comma of [s] and the
    next one (or the end); [undefined] without a comma. *)
Fixpoint upto_comma (s : string) : string :=
  match s with
  | EmptyString => EmptyString
  | String c r => if Ascii.eqb c "," then EmptyString else String c (upto_comma r)
  end.

Fixpoint split_comma_1 (s : string) : option string :=
  match s with
  | EmptyString => None
  | String c r => if Ascii.eqb c "," then Some (upto_comma r) else split_comma_1 r
  end.

(** The percentage [Math.round(((i + 1) / n) * 100)]. *)
Definition percent (i n : nat) : Z :=
  Number.Math_round
    (Number.mul (Number.div (inject_Z (Z.of_nat i + 1)) (inject_Z (Z.of_nat n))) 100).

(** The [parts] of the request for the entry at index [i] of [n]. *)
Definition partsFor (i n : nat) (entry : DressEntry) : list Part :=
  let parts :=
    [TextPart
       ("בקשת גיבוי ענן לשמלה " +:+ string_of_Z (Z.of_nat i + 1) +:+ "/"
        +:+ string_of_Z (Z.of_nat n) +:+ ". נתונים: "
        +:+ stringify (JObj [("id"%string, JStr (id entry));
                             ("location"%string, JStr (location entry));
                             ("price"%string, JStr (price entry));
                             ("notes"%string, Codec.json_of_teamNotes (teamNotes entry))]))] in
  match image entry with
  | Some img =>
      if negb (String.eqb img EmptyString) && startsWith "data:image" img then
        let base64Data := split_comma_1 img in
        parts ++ [InlineData "image/jpeg" base64Data]
      else parts
  | None => parts
  end.

(** [await ai.models.generateContent({ model, contents: [{ parts }] })]:
    [ok] tells whether the promise is fulfilled. *)
Definition generateContent (ok : bool) (model : string) (parts : list Part) : M State unit :=
  emit (GenerateContent model parts);;
  if ok then emit Resolved else (emit Rejected;; throw RequestError).

Section App.
Variable TEAM_MEMBERS : list string.
Variable STORAGE_KEY : string.

(** The effect that runs once after the first render. *)
Definition initialLoad : M State unit :=
  saved ← getItem STORAGE_KEY;
  if truthy_string saved then
    try_catch
      (parsed ← JSON_parse (default EmptyString saved);
       e ← prop parsed "entries";
       es ← as_entries (or_else e (JArr []));
       setEntries (fun _ => es);;
       t ← prop parsed "lastUpdated";
       t' ← as_time (or_else t JNull);
       setLastSyncTime t')
      (fun e => console_error "Parse error" e)
  else mret tt.

(** [saveToCloud]; [now] is what [Date.now()] returns and [remote i] tells
    whether the call made for the entry at index [i] succeeds.  The pass
    is run from start to end: what other handlers do while a call is
    awaited is not part of it. *)
Definition saveToCloud (now : Z) (remote : nat -> bool) : M State unit :=
  es ← gets entries;
  if (length es =? 0)%nat then mret tt
  else
    setIsSyncing true;;
    setCloudStatus loading;;
    setSyncProgress 0;;
    finally
      (try_catch
         (let syncData := mkSyncData es now in
          setItem STORAGE_KEY (stringify (Codec.json_of_SyncData syncData));;
          for_each
            (fun i entry =>
               setSyncProgress (percent i (length es));;
               generateContent (remote i) "gemini-3-flash-preview" (partsFor i (length es) entry))
            0%nat es;;
          setLastSyncTime (Some (lastUpdated syncData));;
          setCloudStatus success;;
          emit (SetTimeout 3000);;
          alert "הכל סונכרן בהצלחה לענן! ✨")
         (fun err =>
            console_error "Cloud Sync Error" err;;
            setCloudStatus error;;
            alert "הנתונים נשמרו במכשיר, אך הייתה בעיה בסנכרון התמונות לענן. נסי שוב מאוחר יותר."))
      (setIsSyncing false;;
       setSyncProgress 0).

Definition updateEntry (id0 : string) (updates : DressEntryUpdates) : M State unit :=
  setEntries (Store.updateEntry id0 updates).

Definition updateMemberNote (entryId memberName : string) (updates : NoteUpdates)
  : M State unit :=
  setEntries (Store.updateMemberNote entryId memberName updates).

(** New entries go first. *)
Definition addNewDress (uuid : string) : M State unit :=
  let newEntry := Store.newEntry TEAM_MEMBERS uuid in
  setEntries (fun prev => newEntry :: prev).

(** The filter the delete button runs when the user confirms (it is
    written inline in this revision). *)
Definition removeDress (confirm : bool) (id0 : string) : M State unit :=
  setEntries (Store.removeDress confirm id0).

(** [handleImageUpload], once the file reader is done: the picture is
    compressed and then stored; if the promise of [compressImage] stays
    pending, nothing is stored. *)
Definition handleImageUpload (decode : string -> option (Z * Z))
    (toDataURL : Canvas -> string -> Q -> string)
    (id0 : string) (file : option string) : M State unit :=
  match file with
  | Some base64 =>
      match compressImage decode toDataURL base64 with
      | Some compressed =>
          updateEntry id0 (mkDressEntryUpdates None None None (Some (Some compressed)) None)
      | None => mret tt
      end
  | None => mret tt
  end.

End App.
End Cloud.

(* ===================================================================== *)
(** ** [CountdownTimer] *)
(* ===================================================================== *)

Module CountdownTimer.

Record TimeLeft : Type := mkTimeLeft {
  days : Z;
  hours : Z;
  minutes : Z;
  seconds : Z
}.

(** [useState({ days: 0, hours: 0, minutes: 0, seconds: 0 })] *)
Definition initialTimeLeft : TimeLeft := mkTimeLeft 0 0 0 0.

(** [Math.floor(a / b)] for integers [a] and [b]: the quotient is a
    double, rounded before the floor is taken. *)
Definition floor_div (a b : Z) : Z := Qfloor (Number.div (inject_Z a) (inject_Z b)).

(** The object passed to [setTimeLeft]; [%] is the remainder that takes the
    sign of the dividend. *)
Definition decompose (distance : Z) : TimeLeft :=
  {| days := floor_div distance (1000 * 60 * 60 * 24);
     hours := floor_div (Z.rem distance (1000 * 60 * 60 * 24)) (1000 * 60 * 60);
     minutes := floor_div (Z.rem distance (1000 * 60 * 60)) (1000 * 60);
     seconds := floor_div (Z.rem distance (1000 * 60)) 1000 |}.

Section Timer.
Variable TARGET_DATE : Z.

(** One run of the interval callback at time [now]: the state after it,
    and whether the interval was cleared. *)
Definition tick (now : Z) (timeLeft : TimeLeft) : TimeLeft * bool :=
  let distance := TARGET_DATE - now in
  if distance <? 0 then (timeLeft, true)
  else (decompose distance, false).

End Timer.
End CountdownTimer.

(* ===================================================================== *)
(** ** Sequences of Entry Store operations *)
(* ===================================================================== *)

Module Ops.
Import Runtime Prog.

(** The four mutations of the Entry Store, with the arguments their
    handlers take. *)
Inductive Op : Type :=
| CreateEntry (uuid : string)
| UpdateEntryFields (id0 : string) (updates : DressEntryUpdates)
| UpdateNote (entryId memberName : string) (updates : NoteUpdates)
| RemoveEntry (id0 : string).

Section Roster.
Variable TEAM_MEMBERS : list string.

Definition performLocal (op : Op) : M Local.State unit :=
  match op with
  | CreateEntry uuid => Local.addNewDress TEAM_MEMBERS uuid
  | UpdateEntryFields i u => Local.updateEntry i u
  | UpdateNote i m u => Local.updateMemberNote i m u
  | RemoveEntry i => Local.removeDress true i
  end.

Definition performCloud (op : Op) : M Cloud.State unit :=
  match op with
  | CreateEntry uuid => Cloud.addNewDress TEAM_MEMBERS uuid
  | UpdateEntryFields i u => Cloud.updateEntry i u
  | UpdateNote i m u => Cloud.updateMemberNote i m u
  | RemoveEntry i => Cloud.removeDress true i
  end.

Fixpoint sequence {St : Type} (perform : Op -> M St unit) (ops : list Op) : M St unit :=
  match ops with
  | [] => mret tt
  | op :: rest => perform op;; sequence perform rest
  end.

(** The invariant of the data model: the notes of an entry are those of
    the roster, each under its own name. *)
Definition roster_shaped_notes (m : gmap string TeamMemberNote) : Prop :=
  (forall k : string, is_Some (m !! k) <-> k ∈ TEAM_MEMBERS) /\
  (forall (k : string) (n : TeamMemberNote), m !! k = Some n -> name n = Some k).

Definition roster_shaped (e : DressEntry) : Prop := roster_shaped_notes (teamNotes e).

(** The operations the rendered page can issue: notes are addressed by a
    roster name, and a field update that brings a [teamNotes] map brings a
    roster-shaped one (the page only ever updates [location], [price] and
    [image]). *)
Definition from_page (op : Op) : Prop :=
  match op with
  | UpdateNote _ m _ => m ∈ TEAM_MEMBERS
  | UpdateEntryFields _ u =>
      match new_teamNotes u with
      | Some m => roster_shaped_notes m
      | None => True
      end
  | _ => True
  end.

End Roster.

(** A world with nothing stored and nothing done yet. *)
Definition fresh {St : Type} (s : St) : World St := mkWorld s ∅ [].

End Ops.

(* ===================================================================== *)
(** ** Vocabulary of the properties *)
(* ===================================================================== *)

(** *** JSON texts *)

Module JsonText.
Import Json.

(** What may follow an integer literal for it to end there. *)
Definition ends_number (rest : string) : bool :=
  match rest with
  | EmptyString => true
  | String c _ =>
      negb (is_digit c) && negb (Ascii.eqb c ".") && negb (Ascii.eqb c "e")
      && negb (Ascii.eqb c "E")
  end.

(** A number starts with a digit or the minus sign. *)
Definition number_head (c : ascii) : bool := is_digit c || Ascii.eqb c "-".

(** The first character of a value is no white space and closes nothing. *)
Definition value_head (c : ascii) : bool :=
  negb (is_ws c) && negb (Ascii.eqb c "]") && negb (Ascii.eqb c "}").

(** Induction on a value, with the hypothesis for every element of an
    array and every member of an object. *)
Section Induction.
Variable P : jsval -> Prop.
Hypothesis Hnull : P JNull.
Hypothesis Hbool : forall b, P (JBool b).
Hypothesis Hnum : forall z, P (JNum z).
Hypothesis Hfrac : forall lit, P (JFrac lit).
Hypothesis Hstr : forall s, P (JStr s).
Hypothesis Harr : forall l, Forall P l -> P (JArr l).
Hypothesis Hobj : forall l, Forall (fun kv => P (snd kv)) l -> P (JObj l).

Fixpoint jsval_induction (v : jsval) : P v :=
  match v with
  | JNull => Hnull
  | JBool b => Hbool b
  | JNum z => Hnum z
  | JFrac lit => Hfrac lit
  | JStr s => Hstr s
  | JArr l =>
      Harr l ((fix go (l : list jsval) : Forall P l :=
                 match l with
                 | [] => List.Forall_nil P
                 | x :: r => @List.Forall_cons _ P x r (jsval_induction x) (go r)
                 end) l)
  | JObj l =>
      Hobj l ((fix go (l : list (string * jsval)) : Forall (fun kv => P (snd kv)) l :=
                 match l with
                 | [] => List.Forall_nil _
                 | kv :: r => @List.Forall_cons _ (fun kv => P (snd kv)) kv r (jsval_induction (snd kv)) (go r)
                 end) l)
  end.
End Induction.

(** The values [JSON.stringify] writes so that they can be read back:
    integers only, and no key twice in an object. *)
#[warnings="-register-all"]
Inductive plain : jsval -> Prop :=
| plain_null : plain JNull
| plain_bool b : plain (JBool b)
| plain_num z : plain (JNum z)
| plain_str s : plain (JStr s)
| plain_arr l : Forall plain l -> plain (JArr l)
| plain_obj l : NoDup (map fst l) -> Forall (fun kv => plain (snd kv)) l -> plain (JObj l).

(** The text after the first element of an array and after the first
    member of an object. *)
Fixpoint more_elements (l : list jsval) : string :=
  match l with
  | [] => EmptyString
  | y :: l' => "," +:+ stringify y +:+ more_elements l'
  end.

Fixpoint more_members (l : list (string * jsval)) : string :=
  match l with
  | [] => EmptyString
  | (k, y) :: l' => "," +:+ quote k +:+ ":" +:+ stringify y +:+ more_members l'
  end.

(** The fuel a value needs. *)
Fixpoint size (v : jsval) : nat :=
  match v with
  | JArr (x :: r) =>
      1 + size x +
      (fix more (l : list jsval) : nat :=
         match l with
         | [] => 1
         | y :: l' => 1 + size y + more l'
         end) r
  | JObj ((_, x) :: r) =>
      1 + size x +
      (fix more (l : list (string * jsval)) : nat :=
         match l with
         | [] => 1
         | (_, y) :: l' => 1 + size y + more l'
         end) r
  | _ => 1
  end%nat.

Fixpoint size_elements (l : list jsval) : nat :=
  match l with
  | [] => 1
  | y :: l' => 1 + size y + size_elements l'
  end.

Fixpoint size_members (l : list (string * jsval)) : nat :=
  match l with
  | [] => 1
  | (_, y) :: l' => 1 + size y + size_members l'
  end.

(** The statement of the round trip for one value. *)
Definition reads_back (v : jsval) : Prop :=
  plain v ->
  forall (fuel : nat) (rest : string),
    (size v <= fuel)%nat -> ends_number rest = true ->
    parse_value fuel (stringify v +:+ rest) = Some (v, rest).

(** A reader that, when it succeeds, leaves strictly less text than it
    was given. *)
Definition consumes {A : Type} (p : string -> option (A * string)) : Prop :=
  forall s a r, p s = Some (a, r) -> (String.length r < String.length s)%nat.

End JsonText.

(** *** Sessions that share a [localStorage] *)

Module Sessions.
Import Json Codec Runtime.

(** A new session over the same [localStorage]. *)
Definition newLocalSession (ls : gmap string string) : World Local.State :=
  mkWorld Local.initialState ls [].
Definition newCloudSession (ls : gmap string string) : World Cloud.State :=
  mkWorld Cloud.initialState ls [].

(** The text [save] writes for the entries [es] at time [now]. *)
Definition snapshotText (es : list DressEntry) (now : Z) : string :=
  stringify (json_of_SyncData (mkSyncData es now)).

End Sessions.

(** *** What a Remote Mirror pass lets out *)

Module Mirror.
Import Json Runtime Prog.

Definition MODEL : string := "gemini-3-flash-preview".

Definition failureNotice : string :=
  "הנתונים נשמרו במכשיר, אך הייתה בעיה בסנכרון התמונות לענן. נסי שוב מאוחר יותר.".

Definition successNotice : string := "הכל סונכרן בהצלחה לענן! ✨".

(** What one iteration of the loop lets out for the entry at index [i] of
    [n]: the progress value, then the call, then its outcome. *)
Definition block (n i : nat) (entry : DressEntry) (ok : bool) : list Effect :=
  [Progress (Cloud.percent i n);
   GenerateContent MODEL (Cloud.partsFor i n entry);
   if ok then Resolved else Rejected].

Fixpoint blocks (remote : nat -> bool) (n i : nat) (l : list DressEntry) : list Effect :=
  match l with
  | [] => []
  | entry :: rest => block n i entry (remote i) ++ blocks remote n (S i) rest
  end.

(** How many of [m] entries from index [i] on the loop reaches: all of
    them, or those up to the first call that fails. *)
Fixpoint reached (remote : nat -> bool) (i m : nat) : nat :=
  match m with
  | O => O
  | S m' => if remote i then S (reached remote (S i) m') else 1%nat
  end.

(** Whether every call from index [i] on succeeds. *)
Fixpoint all_ok (remote : nat -> bool) (i m : nat) : bool :=
  match m with
  | O => true
  | S m' => remote i && all_ok remote (S i) m'
  end.

(** The requests of a trace, in order. *)
Fixpoint requests (t : list Effect) : list (list Part) :=
  match t with
  | [] => []
  | GenerateContent _ parts :: t' => parts :: requests t'
  | _ :: t' => requests t'
  end.

(** The requests for the entries [l], the first of which has index [i]. *)
Fixpoint requestsFor (n i : nat) (l : list DressEntry) : list (list Part) :=
  match l with
  | [] => []
  | entry :: rest => Cloud.partsFor i n entry :: requestsFor n (S i) rest
  end.

(** The notices shown to the user, in order. *)
Fixpoint alerts (t : list Effect) : list string :=
  match t with
  | [] => []
  | Alert msg :: t' => msg :: alerts t'
  | _ :: t' => alerts t'
  end.

(** The calls of a trace that have completed. *)
Fixpoint completed (t : list Effect) : nat :=
  match t with
  | [] => O
  | Resolved :: t' => S (completed t')
  | _ :: t' => completed t'
  end.

Definition withProgress (p : Z) (s : Cloud.State) : Cloud.State :=
  Cloud.mkState (Cloud.entries s) (Cloud.isSyncing s) (Cloud.lastSyncTime s) p
                (Cloud.cloudStatus s).

(** The loop of the pass. *)
Definition loop (remote : nat -> bool) (n : nat) : nat -> list DressEntry -> M Cloud.State unit :=
  for_each
    (fun i entry =>
       Cloud.setSyncProgress (Cloud.percent i n);;
       Cloud.generateContent (remote i) MODEL (Cloud.partsFor i n entry)).

End Mirror.

(** *** Rounding tolerances *)

Module Tolerance.

(** The relative error of one rounding: [2^-53]. *)
Definition eps : Q := 1 # 9007199254740992.

(** What two roundings can add to a scaled side (a bound, not the exact
    value: it is about [600 * 2^-52]). *)
Definition delta : Q := 1 # 1000000000000.

End Tolerance.

(** *** Sample data *)

Module Samples.
Import Runtime Ops.

Definition sampleRoster : list string := ["Dana"; "Noa"]%string.

Definition voteUp : NoteUpdates := mkNoteUpdates None (Some VoteUp).

Definition sampleOps : list Op :=
  [CreateEntry "e2";
   UpdateNote "e2" "Dana" voteUp;
   UpdateEntryFields "e2" (mkDressEntryUpdates None (Some "Atelier"%string) None None None);
   UpdateNote "e1" "Noa" (mkNoteUpdates (Some "too long"%string) None);
   RemoveEntry "e2"]%string.

Definition sampleEntry : DressEntry :=
  mkDressEntry "e1" "Atelier" "1200" None ∅.

Definition sampleWorld (es : list DressEntry) : World Cloud.State :=
  mkWorld (Cloud.mkState es false None 0 Cloud.idle) ∅ [].

Definition brokenSlot : gmap string string := {[ "dresses"%string := "{"%string ]}.

End Samples.

(* ===================================================================== *)
(** ** The rendered page: what the controls show and what they call *)
(* ===================================================================== *)

Module Page.
Import Runtime Prog.

(** How rendering ends: with the elements, or with the exception that
    takes the component down. *)
Inductive Rendered (A : Type) : Type :=
| Shown (a : A)
| Crashed (e : Error).
Arguments Shown {A} a.
Arguments Crashed {A} e.

(** [l.map(f)] where [f] may throw: the first exception ends the map. *)
Fixpoint renderAll {A B : Type} (f : A -> Rendered B) (l : list A) : Rendered (list B) :=
  match l with
  | [] => Shown []
  | x :: rest =>
      match f x with
      | Crashed e => Crashed e
      | Shown y =>
          match renderAll f rest with
          | Crashed e => Crashed e
          | Shown ys => Shown (y :: ys)
          end
      end
  end.

Section Render.
Context {St : Type}.
Variable TEAM_MEMBERS : list string.
(** The functions of the component the handlers close over. *)
Variable updateEntry : string -> DressEntryUpdates -> M St unit.
Variable updateMemberNote : string -> string -> NoteUpdates -> M St unit.
Variable handleImageUpload : string -> option string -> M St unit.
Variable removeDress : bool -> string -> M St unit.
Variable addNewDress : string -> M St unit.
Variable entriesOf : St -> list DressEntry.

(** The cell of one team member in the card of an entry: the two vote
    buttons (whether each is lit, what a press does) and the text area. *)
Record MemberRow : Type := mkMemberRow {
  label : string;
  upLit : bool;
  downLit : bool;
  noteValue : option string;
  onUp : M St unit;
  onDown : M St unit;
  onNote : string -> M St unit
}.

(** The card of an entry.  [picture] is the [src] of the preview, which
    is there instead of the upload box when [entry.image] is truthy; the
    button that deletes the image belongs to the preview. *)
Record Card : Type := mkCard {
  card_key : string;
  onDelete : bool -> M St unit;
  locationValue : string;
  onLocation : string -> M St unit;
  priceValue : string;
  onPrice : string -> M St unit;
  picture : option string;
  onFile : option string -> M St unit;
  onDeleteImage : M St unit;
  rows : list MemberRow
}.

(** [data.vote === v ? null : v] *)
Definition pressed (current : option Vote) (v : Vote) : Vote :=
  if bool_decide (current = Some v) then VoteNull else v.

(** [{ vote: data.vote === v ? null : v }] *)
Definition toggled (current : option Vote) (v : Vote) : NoteUpdates :=
  mkNoteUpdates None (Some (pressed current v)).

(** The body of [TEAM_MEMBERS.map(name => ...)]: [data] is
    [entry.teamNotes[name]], and [data.vote] is read while rendering, which
    throws when the entry has no note under the name. *)
Definition memberRow (entry : DressEntry) (name0 : string) : Rendered MemberRow :=
  match teamNotes entry !! name0 with
  | None => Crashed TypeError
  | Some data =>
      Shown
        {| label := name0;
           upLit := bool_decide (vote data = Some VoteUp);
           downLit := bool_decide (vote data = Some VoteDown);
           noteValue := note data;
           onUp := updateMemberNote (id entry) name0 (toggled (vote data) VoteUp);
           onDown := updateMemberNote (id entry) name0 (toggled (vote data) VoteDown);
           onNote := fun text =>
                       updateMemberNote (id entry) name0 (mkNoteUpdates (Some text) None) |}
  end.

(** The body of [entries.map(entry => ...)]. *)
Definition card (entry : DressEntry) : Rendered Card :=
  match renderAll (memberRow entry) TEAM_MEMBERS with
  | Crashed e => Crashed e
  | Shown cells =>
      Shown
        {| card_key := id entry;
           onDelete := fun confirm => removeDress confirm (id entry);
           locationValue := location entry;
           onLocation := fun text =>
                           updateEntry (id entry)
                             (mkDressEntryUpdates None (Some text) None None None);
           priceValue := price entry;
           onPrice := fun text =>
                        updateEntry (id entry)
                          (mkDressEntryUpdates None None (Some text) None None);
           picture := if truthy_string (image entry) then image entry else None;
           onFile := fun file => handleImageUpload (id entry) file;
           onDeleteImage := updateEntry (id entry)
                              (mkDressEntryUpdates None None None (Some None) None);
           rows := cells |}
  end.

(** The list of cards of the page. *)
Definition page (es : list DressEntry) : Rendered (list Card) := renderAll card es.

(** What the user can do on the page: the card is given by its position
    [i], the team member by the position [j] of the row in the card. *)
Inductive Click : Type :=
| PressAdd (uuid : string)
| PressDelete (i : nat) (confirm : bool)
| EditLocation (i : nat) (text : string)
| EditPrice (i : nat) (text : string)
| ChooseFile (i : nat) (file : option string)
| PressDeleteImage (i : nat)
| PressUp (i j : nat)
| PressDown (i j : nat)
| EditNote (i j : nat) (text : string).

(** The handler behind a control, if the page has the control. *)
Definition control (cards : list Card) (c : Click) : option (M St unit) :=
  match c with
  | PressAdd uuid => Some (addNewDress uuid)
  | PressDelete i confirm => c0 ← cards !! i; Some (onDelete c0 confirm)
  | EditLocation i text => c0 ← cards !! i; Some (onLocation c0 text)
  | EditPrice i text => c0 ← cards !! i; Some (onPrice c0 text)
  | ChooseFile i file => c0 ← cards !! i; Some (onFile c0 file)
  | PressDeleteImage i =>
      c0 ← cards !! i;
      match picture c0 with
      | Some _ => Some (onDeleteImage c0)
      | None => None
      end
  | PressUp i j => c0 ← cards !! i; r ← rows c0 !! j; Some (onUp r)
  | PressDown i j => c0 ← cards !! i; r ← rows c0 !! j; Some (onDown r)
  | EditNote i j text => c0 ← cards !! i; r ← rows c0 !! j; Some (onNote r text)
  end.

(** One interaction: the page as rendered from the current entries, then
    the handler of the control.  Where rendering throws there is no page
    to act on, and a control the page does not have does nothing. *)
Definition interact (c : Click) : M St unit :=
  es ← gets entriesOf;
  match page es with
  | Crashed e => throw e
  | Shown cards =>
      match control cards c with
      | Some handler => handler
      | None => mret tt
      end
  end.

Fixpoint session (cs : list Click) : M St unit :=
  match cs with
  | [] => mret tt
  | c :: rest => interact c;; session rest
  end.

End Render.

(** The page of either revision.  The second one is given the image
    decoder and encoder its upload handler goes through. *)
Section Revisions.
Variable TEAM_MEMBERS : list string.

Definition localPage : list DressEntry -> Rendered (list (@Card Local.State)) :=
  page TEAM_MEMBERS Local.updateEntry Local.updateMemberNote Local.handleImageUpload
       Local.removeDress.

Definition localSession : list Click -> M Local.State unit :=
  session TEAM_MEMBERS Local.updateEntry Local.updateMemberNote Local.handleImageUpload
          Local.removeDress (Local.addNewDress TEAM_MEMBERS) Local.entries.

Variable decode : string -> option (Z * Z).
Variable toDataURL : Cloud.Canvas -> string -> Q -> string.

Definition cloudPage : list DressEntry -> Rendered (list (@Card Cloud.State)) :=
  page TEAM_MEMBERS Cloud.updateEntry Cloud.updateMemberNote
       (Cloud.handleImageUpload decode toDataURL) Cloud.removeDress.

Definition cloudSession : list Click -> M Cloud.State unit :=
  session TEAM_MEMBERS Cloud.updateEntry Cloud.updateMemberNote
          (Cloud.handleImageUpload decode toDataURL) Cloud.removeDress
          (Cloud.addNewDress TEAM_MEMBERS) Cloud.entries.

End Revisions.

(** A handler that replaces the entries by [f] of them and does nothing
    else; [entriesOf] and [withEntries] read and write the entries of the
    state. *)
Definition acts {St : Type} (entriesOf : St -> list DressEntry)
    (withEntries : list DressEntry -> St -> St)
    (h : M St unit) (f : list DressEntry -> list DressEntry) : Prop :=
  forall w : World St,
    run h w
    = (Normal tt,
       mkWorld (withEntries (f (entriesOf (react w))) (react w)) (localStorage w) (trace w)).

Definition withLocalEntries (l : list DressEntry) (s : Local.State) : Local.State :=
  Local.mkState l (Local.isSyncing s) (Local.lastSyncTime s).

Definition withCloudEntries (l : list DressEntry) (s : Cloud.State) : Cloud.State :=
  Cloud.mkState l (Cloud.isSyncing s) (Cloud.lastSyncTime s) (Cloud.syncProgress s)
                (Cloud.cloudStatus s).

(** The world [w] with other entries. *)
Definition localWith (w : World Local.State) (es : list DressEntry) : World Local.State :=
  mkWorld (withLocalEntries es (react w)) (localStorage w) (trace w).

Definition cloudWith (w : World Cloud.State) (es : list DressEntry) : World Cloud.State :=
  mkWorld (withCloudEntries es (react w)) (localStorage w) (trace w).

(** The entry [e] with the vote of the member [m], whose note is [data],
    set to [v]. *)
Definition withVote (e : DressEntry) (m : string) (data : TeamMemberNote) (v : Vote)
  : DressEntry :=
  mkDressEntry (id e) (location e) (price e) (image e)
    (<[m := mkTeamMemberNote (name data) (note data) (Some v)]> (teamNotes e)).

(** And with the text of that note set to [text]. *)
Definition withNote (e : DressEntry) (m : string) (data : TeamMemberNote) (text : string)
  : DressEntry :=
  mkDressEntry (id e) (location e) (price e) (image e)
    (<[m := mkTeamMemberNote (name data) (Some text) (vote data)]> (teamNotes e)).

(** Every team member has a note in the entry: what rendering needs. *)
Definition covers (TEAM_MEMBERS : list string) (e : DressEntry) : Prop :=
  forall k : string, k ∈ TEAM_MEMBERS -> is_Some (teamNotes e !! k).

(** The identifiers [crypto.randomUUID()] hands out during a session. *)
Fixpoint uuids (cs : list Click) : list string :=
  match cs with
  | [] => []
  | PressAdd uuid :: rest => uuid :: uuids rest
  | _ :: rest => uuids rest
  end.

(** The entries are in order for the clicks [cs] still to come: roster
    shaped, with distinct identifiers, all of them among [known]; and the
    identifiers still to be handed out are distinct, new, and among
    [known] as well. *)
Definition tidy (TEAM_MEMBERS known : list string) (cs : list Click) (l : list DressEntry)
  : Prop :=
  Forall (Ops.roster_shaped TEAM_MEMBERS) l
  /\ NoDup (map id l)
  /\ NoDup (uuids cs)
  /\ (forall u, u ∈ uuids cs -> u ∉ map id l)
  /\ (forall x, x ∈ map id l -> x ∈ known)
  /\ (forall u, u ∈ uuids cs -> u ∈ known).

(** What a session starts from: entries as above, and identifiers to
    hand out that are distinct and not in use. *)
Definition startable (TEAM_MEMBERS : list string) (cs : list Click) (l : list DressEntry)
  : Prop :=
  Forall (Ops.roster_shaped TEAM_MEMBERS) l
  /\ NoDup (map id l)
  /\ NoDup (uuids cs)
  /\ (forall u, u ∈ uuids cs -> u ∉ map id l).

(** A session on a page with two team members. *)
Definition sampleClicks : list Click :=
  [PressAdd "e2"; PressUp 0 0; EditNote 0 1 "too long"; EditLocation 1 "Atelier";
   ChooseFile 0 (Some "data:image/png;base64,AAAA"%string); PressDown 0 0;
   PressDelete 1 true]%string.

End Page.

(* ===================================================================== *)
(** ** Sessions side by side *)
(* ===================================================================== *)

Module Tabs.
Import Runtime Prog Page.

(** The event the other sessions of the browser receive when the value
    [v] is written under the key [k]. *)
Definition storageEvent (k v : string) : StorageEvent := mkStorageEvent (Some k) (Some v).

Section App.
Variable TEAM_MEMBERS : list string.
Variable STORAGE_KEY : string.

(** The first revision's [saveToCloud] with the page in use while the
    timer runs: the clicks [cs] come between the call and the callback. *)
Definition saveWhileEditing (now : Z) (cs : list Click) : M Local.State unit :=
  t ← Local.saveToCloud STORAGE_KEY now;
  localSession TEAM_MEMBERS cs;;
  Local.callback t.

End App.

(** The second revision: a pass, then every entry deleted, then another
    pass. *)
Definition saveEmptySave (TEAM_MEMBERS : list string) (STORAGE_KEY : string)
    (now1 now2 : Z) (remote1 remote2 : nat -> bool) : M Cloud.State unit :=
  es ← gets Cloud.entries;
  Cloud.saveToCloud STORAGE_KEY now1 remote1;;
  Ops.sequence (Ops.performCloud TEAM_MEMBERS) (map Ops.RemoveEntry (map id es));;
  Cloud.saveToCloud STORAGE_KEY now2 remote2.

(** A slot that holds JSON, but for [null]. *)
Definition nullSlot : gmap string string := {[ "dresses"%string := "null"%string ]}.

End Tabs.

(* ===================================================================== *)
(** ** The interval of the countdown, and texts with commas *)
(* ===================================================================== *)

Module Ticks.
Import CountdownTimer.

(** The interval set up by the effect of [CountdownTimer]: the callback
    runs at the times [nows], in this order, until it clears the
    interval; the result is the state then. *)
Fixpoint interval (TARGET_DATE : Z) (nows : list Z) (timeLeft : TimeLeft) : TimeLeft :=
  match nows with
  | [] => timeLeft
  | now :: rest =>
      let '(t, cleared) := tick TARGET_DATE now timeLeft in
      if cleared then t else interval TARGET_DATE rest t
  end.

End Ticks.

Module Commas.

(** Whether the text has a comma. *)
Fixpoint has_comma (s : string) : bool :=
  match s with
  | EmptyString => false
  | String c r => Ascii.eqb c "," || has_comma r
  end.

End Commas.

(* ********************************************************************* *)
(** * Properties *)
(* ********************************************************************* *)

(* ===================================================================== *)
(** ** Rounding to double precision *)
(* ===================================================================== *)

Module NumberFacts.
Import Number Tolerance.
Local Open Scope Q_scope.

Lemma round_half_even_error (q : Q) :
  Qabs (inject_Z (round_half_even q) - q) <= 1 # 2.
Proof.
  unfold round_half_even.
  pose proof (Qfloor_le q) as Hlo. pose proof (Qlt_floor q) as Hhi.
  rewrite inject_Z_plus in Hhi. change (inject_Z 1) with 1 in Hhi.
  apply Qabs_Qle_condition.
  destruct (Qcompare (q - inject_Z (Qfloor q)) (1 # 2)) eqn:E.
  - apply Qeq_alt in E.
    destruct (Z.even (Qfloor q)); [| rewrite inject_Z_plus; change (inject_Z 1) with 1];
      split; lra.
  - apply Qlt_alt in E. split; lra.
  - apply Qgt_alt in E. rewrite inject_Z_plus. change (inject_Z 1) with 1. split; lra.
Qed.

Lemma Qpower_2_pos (e : Z) : 0 < 2 ^ e.
Proof. apply Qpower_0_lt. reflexivity. Qed.

Lemma Qpower_2_inject (n : Z) : (0 <= n)%Z -> 2 ^ n == inject_Z (2 ^ n).
Proof. intros Hn. rewrite Zpower_Qpower by exact Hn. reflexivity. Qed.

(** The exponent found is not too large. *)
Lemma binade_le (q : Q) : ~ q == 0 -> 2 ^ binade q <= Qabs q.
Proof.
  intros Hq. unfold binade.
  set (a := Z.abs (Qnum q)). set (d := Zpos (Qden q)).
  set (k := (Z.log2 a - Z.log2 d)%Z).
  destruct (Qle_bool (2 ^ k) (Qabs q)) eqn:E.
  - apply Qle_bool_iff. exact E.
  - clear E.
    assert (Ha : (0 < a)%Z).
    { subst a. destruct q as [n m]. unfold Qeq in Hq. simpl in *. lia. }
    assert (Hd : (0 < d)%Z) by (subst d; lia).
    destruct (Z.log2_spec a Ha) as [Ha1 _].
    destruct (Z.log2_spec d Hd) as [_ Hd2].
    pose proof (Z.log2_nonneg a) as Hla. pose proof (Z.log2_nonneg d) as Hld.
    replace (k - 1)%Z with (Z.log2 a + - Z.succ (Z.log2 d))%Z by (subst k; lia).
    rewrite Qpower_plus by discriminate. rewrite Qpower_opp.
    rewrite (Qpower_2_inject (Z.log2 a)) by exact Hla.
    rewrite (Qpower_2_inject (Z.succ (Z.log2 d))) by lia.
    assert (Habs : Qabs q == inject_Z a / inject_Z d).
    { destruct q as [n m]. subst a d. unfold Qabs, Qeq, Qdiv, Qinv, Qmult, inject_Z.
      simpl. lia. }
    rewrite Habs.
    assert (H1 : inject_Z (2 ^ Z.log2 a) <= inject_Z a)
      by (rewrite <- Zle_Qle; exact Ha1).
    assert (H2 : inject_Z d <= inject_Z (2 ^ Z.succ (Z.log2 d)))
      by (rewrite <- Zle_Qle; lia).
    assert (H3 : 0 < inject_Z d) by (rewrite <- (Zlt_Qlt 0); exact Hd).
    assert (H4 : 0 < inject_Z (2 ^ Z.log2 a)).
    { rewrite <- (Zlt_Qlt 0). apply Z.pow_pos_nonneg; lia. }
    set (A := inject_Z (2 ^ Z.log2 a)) in *. set (B := inject_Z (2 ^ Z.succ (Z.log2 d))) in *.
    set (x := inject_Z a) in *. set (y := inject_Z d) in *.
    apply Qle_shift_div_l; [exact H3 |].
    assert (HB : 0 < B) by lra.
    assert (Hstep : A * / B * y <= A).
    { assert (Heq : A * / B * y == A * (y / B)) by (field; lra).
      assert (Hy : y / B <= 1) by (apply Qle_shift_div_r; lra).
      assert (Hm : A * (y / B) <= A * 1) by (apply Qmult_le_l; [exact H4 | exact Hy]).
      lra. }
    lra.
Qed.

(** One rounding is off by at most [eps], relatively. *)
Lemma fl_error (q : Q) : Qabs (fl q - q) <= Qabs q * eps.
Proof.
  unfold fl. destruct (Qeq_bool q 0) eqn:E.
  - apply Qeq_bool_eq in E. rewrite E. vm_compute. discriminate.
  - apply Qeq_bool_neq in E.
    pose proof (binade_le q E) as He.
    set (e := binade q) in *.
    pose proof (Qpower_2_pos (e - 52)) as Hu.
    assert (Hue : 2 ^ (e - 52) == 2 ^ e * (1 # 4503599627370496)).
    { unfold Z.sub. rewrite Qpower_plus by discriminate. reflexivity. }
    set (u := 2 ^ (e - 52)) in *.
    pose proof (round_half_even_error (q / u)) as Hr.
    set (r := inject_Z (round_half_even (q / u))) in *.
    assert (Hd : r * u - q == u * (r - q / u)) by (field; lra).
    rewrite Hd, Qabs_Qmult, (Qabs_pos u) by lra.
    assert (Hb : u * Qabs (r - q / u) <= u * (1 # 2))
      by (apply Qmult_le_l; [exact Hu | exact Hr]).
    assert (Hc : u * (1 # 2) == 2 ^ e * eps).
    { rewrite Hue. unfold eps. ring_simplify. reflexivity. }
    assert (Hf : 2 ^ e * eps <= Qabs q * eps).
    { apply Qmult_le_compat_r; [exact He | discriminate]. }
    lra.
Qed.

Lemma fl_zero : fl 0 == 0.
Proof. reflexivity. Qed.

(** The side that is scaled: with [long > 600] the longer and
    [short <= long] the other input side, the product
    [short * (600 / long)] computed in doubles is within [delta] of the
    exact quotient, and is not negative. *)
Lemma scaled_side (long short : Z) :
  (600 < long)%Z -> (0 <= short <= long)%Z ->
  let y := mul (inject_Z short) (div (inject_Z 600) (inject_Z long)) in
  let exact := 600 * inject_Z short / inject_Z long in
  0 <= y /\ Qabs (y - exact) <= delta /\ 0 <= exact <= 600.
Proof.
  intros Hlong Hshort y exact. subst y exact. unfold mul, div.
  set (s := inject_Z short). set (l := inject_Z long).
  change (inject_Z 600) with 600.
  assert (Hl : 600 < l) by (subst l; rewrite <- (Zlt_Qlt 600); exact Hlong).
  assert (Hs0 : 0 <= s) by (subst s; rewrite <- (Zle_Qle 0); tauto).
  assert (Hsl : s <= l) by (subst s l; rewrite <- Zle_Qle; tauto).
  set (E0 := 600 / l).
  assert (HE0 : 0 < E0) by (subst E0; apply Qlt_shift_div_l; lra).
  assert (HE1 : E0 * l == 600) by (subst E0; field; lra).
  pose proof (fl_error E0) as Hx. rewrite (Qabs_pos E0) in Hx by lra.
  apply Qabs_Qle_condition in Hx. set (x := fl E0) in *.
  set (T := s * E0).
  assert (HT0 : 0 <= T) by (subst T; apply Qmult_le_0_compat; lra).
  assert (HT1 : T <= 600).
  { subst T. rewrite <- HE1. rewrite (Qmult_comm E0 l).
    apply Qmult_le_compat_r; lra. }
  assert (HTe : 600 * s / l == T) by (subst T E0; field; lra).
  set (P := s * x).
  unfold eps in Hx.
  assert (HP1 : P <= T + T * (1 # 9007199254740992)).
  { assert (Hm : s * x <= s * (E0 + E0 * (1 # 9007199254740992))).
    { rewrite !(Qmult_comm s). apply Qmult_le_compat_r; lra. }
    subst P T. lra. }
  assert (HP2 : T - T * (1 # 9007199254740992) <= P).
  { assert (Hm : s * (E0 - E0 * (1 # 9007199254740992)) <= s * x).
    { rewrite !(Qmult_comm s). apply Qmult_le_compat_r; lra. }
    subst P T. lra. }
  assert (HP0 : 0 <= P) by lra.
  pose proof (fl_error P) as Hy. rewrite (Qabs_pos P) in Hy by exact HP0.
  apply Qabs_Qle_condition in Hy. unfold eps in Hy.
  rewrite HTe. unfold delta.
  split; [lra |]. split; [| lra].
  apply Qabs_Qle_condition. split; lra.
Qed.

(** The canvas takes an integer below [2^32] as it is. *)
Lemma ToUint32_inject (z : Z) : (0 <= z < 2 ^ 32)%Z -> ToUint32 (inject_Z z) = z.
Proof.
  intros Hz. unfold ToUint32.
  assert (H0 : Qle_bool 0 (inject_Z z) = true).
  { apply Qle_bool_iff. rewrite <- (Zle_Qle 0). tauto. }
  rewrite H0, Qfloor_Z. apply Z.mod_small. exact Hz.
Qed.

(** The canvas side that takes the scaled value: its integer part. *)
Lemma ToUint32_scaled (long short : Z) :
  (600 < long)%Z -> (0 <= short <= long)%Z ->
  let out := ToUint32 (mul (inject_Z short) (div (inject_Z 600) (inject_Z long))) in
  (0 <= out <= 600)%Z
  /\ Qabs (inject_Z out - 600 * inject_Z short / inject_Z long) < 1 + delta.
Proof.
  intros Hlong Hshort out.
  destruct (scaled_side long short Hlong Hshort) as (Hy0 & Hy & Hex).
  cbv zeta in Hy0, Hy, Hex. subst out.
  set (y := mul (inject_Z short) (div (inject_Z 600) (inject_Z long))) in *.
  set (exact := 600 * inject_Z short / inject_Z long) in *.
  apply Qabs_Qle_condition in Hy. unfold delta in *.
  pose proof (Qfloor_le y) as Hlo. pose proof (Qlt_floor y) as Hhi.
  rewrite inject_Z_plus in Hhi. change (inject_Z 1) with 1 in Hhi.
  assert (Hf0 : (0 <= Qfloor y)%Z).
  { rewrite <- (Qfloor_Z 0). apply Qfloor_resp_le. exact Hy0. }
  assert (Hf1 : (Qfloor y <= 600)%Z).
  { apply Z.lt_succ_r. rewrite Zlt_Qlt. change (inject_Z (Z.succ 600)) with 601. lra. }
  unfold ToUint32.
  assert (H0 : Qle_bool 0 y = true) by (apply Qle_bool_iff; exact Hy0).
  rewrite H0, Z.mod_small by lia.
  split; [lia |].
  apply Qabs_case; intros _; lra.
Qed.

(** An integer below [2^53] is a double. *)
Lemma fl_integer (x : Q) (n : Z) :
  x == inject_Z n -> (Z.abs n < 2 ^ 53)%Z -> fl x == inject_Z n.
Proof.
  intros Hx Hn. unfold fl. destruct (Qeq_bool x 0) eqn:E.
  - apply Qeq_bool_eq in E. rewrite <- Hx, E. reflexivity.
  - apply Qeq_bool_neq in E.
    pose proof (binade_le x E) as He.
    set (e := binade x) in *.
    assert (Habs : Qabs x == inject_Z (Z.abs n)).
    { rewrite Hx. unfold Qabs, inject_Z. simpl. reflexivity. }
    assert (Hlt : (e < 53)%Z).
    { destruct (Z_lt_le_dec e 53) as [H | H]; [exact H | exfalso].
      assert (H53 : 2 ^ 53 <= 2 ^ e).
      { apply Qpower_le_compat_l; [exact H | discriminate]. }
      rewrite Habs in He.
      assert (Hc : inject_Z (Z.abs n) < 2 ^ 53).
      { rewrite (Qpower_2_inject 53) by lia. rewrite <- Zlt_Qlt. exact Hn. }
      lra. }
    assert (Hu : 2 ^ (e - 52) * inject_Z (2 ^ (52 - e)) == 1).
    { rewrite <- Qpower_2_inject by lia. rewrite <- Qpower_plus by discriminate.
      replace (e - 52 + (52 - e))%Z with 0%Z by lia. reflexivity. }
    pose proof (Qpower_2_pos (e - 52)) as Hpos.
    set (u := 2 ^ (e - 52)) in *.
    assert (Hq : x / u == inject_Z (n * 2 ^ (52 - e))).
    { assert (HP : / u == inject_Z (2 ^ (52 - e))).
      { assert (H1 : / u == / u * (u * inject_Z (2 ^ (52 - e)))) by (rewrite Hu; ring).
        rewrite H1. field. lra. }
      unfold Qdiv. rewrite HP, Hx, inject_Z_mult. reflexivity. }
    assert (Hr : round_half_even (x / u) = (n * 2 ^ (52 - e))%Z).
    { unfold round_half_even.
      assert (Hf : Qfloor (x / u) = (n * 2 ^ (52 - e))%Z).
      { rewrite (Qfloor_comp _ _ Hq). apply Qfloor_Z. }
      rewrite Hf.
      assert (Hc : Qcompare (x / u - inject_Z (n * 2 ^ (52 - e))) (1 # 2) = Lt).
      { apply Qlt_alt. rewrite Hq.
        generalize (inject_Z (n * 2 ^ (52 - e))). intros m.
        assert (H0 : m - m == 0) by ring.
        rewrite H0. reflexivity. }
      rewrite Hc. reflexivity. }
    rewrite Hr, inject_Z_mult.
    assert (Hfin : inject_Z n * inject_Z (2 ^ (52 - e)) * u
                   == inject_Z n * (u * inject_Z (2 ^ (52 - e)))) by ring.
    rewrite Hfin, Hu. ring.
Qed.

(** The floor of the rounded quotient of two integers is their integer
    quotient, as long as the dividend is below [2^53]. *)
Lemma floor_fl_quotient (a b : Z) :
  (0 <= a < 2 ^ 53)%Z -> (0 < b)%Z ->
  Qfloor (fl (inject_Z a / inject_Z b)) = (a / b)%Z.
Proof.
  intros Ha Hb.
  pose proof (Z.div_mod a b ltac:(lia)) as Hdm.
  pose proof (Z.mod_pos_bound a b Hb) as Hr.
  assert (Hq0 : (0 <= a / b)%Z) by (apply Z.div_pos; lia).
  assert (Hqa : (a / b <= a)%Z).
  { destruct (Z.eq_dec a 0%Z) as [-> | Hne]; [rewrite Z.div_0_l by lia; lia |].
    apply Z.div_le_upper_bound; [lia | nia]. }
  set (q := (a / b)%Z) in *. set (r := (a mod b)%Z) in *.
  assert (HB : 0 < inject_Z b) by (rewrite <- (Zlt_Qlt 0); exact Hb).
  set (x := inject_Z a / inject_Z b).
  assert (Hx : x == inject_Z q + inject_Z r / inject_Z b).
  { subst x. rewrite Hdm, inject_Z_plus, inject_Z_mult. field. lra. }
  destruct (Z.eq_dec r 0%Z) as [Hr0 | Hr0].
  - assert (Hxq : x == inject_Z q).
    { rewrite Hx, Hr0. unfold Qdiv. change (inject_Z 0) with 0. ring. }
    rewrite (Qfloor_comp _ _ (fl_integer x q Hxq ltac:(lia))). apply Qfloor_Z.
  - pose proof (fl_error x) as Herr.
    assert (Hxpos : 0 <= x).
    { subst x. apply Qle_shift_div_l; [exact HB |].
      rewrite Qmult_0_l. rewrite <- (Zle_Qle 0). lia. }
    rewrite (Qabs_pos x Hxpos) in Herr.
    apply Qabs_Qle_condition in Herr. destruct Herr as [Hlo Hhi].
    assert (Hone : / inject_Z b <= inject_Z r / inject_Z b).
    { apply Qle_shift_div_l; [exact HB |].
      assert (H1 : / inject_Z b * inject_Z b == 1) by (field; lra).
      rewrite H1. rewrite <- (Zle_Qle 1). lia. }
    assert (Htop : inject_Z r / inject_Z b <= 1 - / inject_Z b).
    { apply Qle_shift_div_r; [exact HB |].
      assert (H1 : (1 - / inject_Z b) * inject_Z b == inject_Z b - 1) by (field; lra).
      assert (H7 : inject_Z (r + 1) <= inject_Z b) by (rewrite <- Zle_Qle; lia).
      rewrite inject_Z_plus in H7. change (inject_Z 1) with 1 in H7. lra. }
    assert (Hxe : x * eps < / inject_Z b).
    { assert (H1 : x * eps == inject_Z a * eps * / inject_Z b)
        by (subst x; field; lra).
      assert (H2 : inject_Z a * eps < 1).
      { assert (H3 : inject_Z a < 9007199254740992).
        { change 9007199254740992 with (inject_Z (2 ^ 53)). rewrite <- Zlt_Qlt. lia. }
        unfold eps.
        assert (H4 : inject_Z a * (1 # 9007199254740992) == inject_Z a / 9007199254740992)
          by (field).
        rewrite H4. apply Qlt_shift_div_r; [reflexivity | lra]. }
      assert (H5 : 0 < / inject_Z b) by (apply Qinv_lt_0_compat; exact HB).
      assert (H6 : inject_Z a * eps * / inject_Z b < 1 * / inject_Z b).
      { apply Qmult_lt_compat_r; assumption. }
      lra. }
    assert (Hge : inject_Z q <= fl x) by lra.
    assert (Hlt : fl x < inject_Z (q + 1)).
    { rewrite inject_Z_plus. change (inject_Z 1) with 1. lra. }
    apply Z.le_antisymm.
    + apply Z.lt_succ_r. unfold Z.succ. rewrite Zlt_Qlt.
      apply Qle_lt_trans with (fl x); [apply Qfloor_le | exact Hlt].
    + rewrite <- (Qfloor_Z q). apply Qfloor_resp_le. exact Hge.
Qed.

(** And the rounded quotient of non-negative integers is never negative. *)
Lemma floor_fl_nonneg (a b : Z) :
  (0 <= a)%Z -> (0 < b)%Z -> (0 <= Qfloor (fl (inject_Z a / inject_Z b)))%Z.
Proof.
  intros Ha Hb.
  assert (HB : 0 < inject_Z b) by (rewrite <- (Zlt_Qlt 0); exact Hb).
  set (x := inject_Z a / inject_Z b).
  assert (Hxpos : 0 <= x).
  { subst x. apply Qle_shift_div_l; [exact HB |].
    rewrite Qmult_0_l. rewrite <- (Zle_Qle 0). lia. }
  pose proof (fl_error x) as Herr.
  rewrite (Qabs_pos x Hxpos) in Herr.
  apply Qabs_Qle_condition in Herr. destruct Herr as [Hlo _].
  assert (Hm : eps * x <= 1 * x).
  { apply Qmult_le_compat_r; [unfold eps; discriminate | exact Hxpos]. }
  change 0%Z with (Qfloor 0). apply Qfloor_resp_le. lra.
Qed.

End NumberFacts.

(* ===================================================================== *)
(** ** Countdown *)
(* ===================================================================== *)

Module CountdownFacts.
Import CountdownTimer.

(** [Math.floor(a / b)] is the integer quotient: the rounding of the
    division does not reach the next integer. *)
Lemma floor_div_quotient (a b : Z) :
  0 <= a < 2 ^ 53 -> 0 < b -> floor_div a b = a / b.
Proof. intros Ha Hb. unfold floor_div, Number.div. apply NumberFacts.floor_fl_quotient; assumption. Qed.

Lemma floor_div_nonneg (a b : Z) : 0 <= a -> 0 < b -> 0 <= floor_div a b.
Proof. intros Ha Hb. unfold floor_div, Number.div. apply NumberFacts.floor_fl_nonneg; assumption. Qed.

(** The hours, minutes and seconds are the integer ones whatever the
    distance is; the days are, for a distance below [2^53]. *)
Lemma decompose_parts (distance : Z) :
  0 <= distance ->
  hours (decompose distance) = (distance mod 86400000) / 3600000
  /\ minutes (decompose distance) = (distance mod 3600000) / 60000
  /\ seconds (decompose distance) = (distance mod 60000) / 1000.
Proof.
  intros Hd. unfold decompose. cbn [hours minutes seconds].
  change (1000 * 60 * 60 * 24) with 86400000.
  change (1000 * 60 * 60) with 3600000.
  change (1000 * 60) with 60000.
  rewrite !Z.rem_mod_nonneg by lia.
  pose proof (Z.mod_pos_bound distance 86400000 ltac:(lia)).
  pose proof (Z.mod_pos_bound distance 3600000 ltac:(lia)).
  pose proof (Z.mod_pos_bound distance 60000 ltac:(lia)).
  rewrite !floor_div_quotient by lia.
  repeat split.
Qed.

Lemma decompose_days (distance : Z) :
  0 <= distance < 2 ^ 53 -> days (decompose distance) = distance / 86400000.
Proof.
  intros Hd. unfold decompose. cbn [days].
  change (1000 * 60 * 60 * 24) with 86400000.
  apply floor_div_quotient; lia.
Qed.

(** The parts put together again give the distance, up to the
    milliseconds below one second. *)
Lemma decompose_sum (distance : Z) :
  0 <= distance < 2 ^ 53 ->
  let t := decompose distance in
  let total := days t * 86400000 + hours t * 3600000 + minutes t * 60000 + seconds t * 1000 in
  total <= distance < total + 1000.
Proof.
  intros Hd. cbv zeta.
  destruct (decompose_parts distance ltac:(lia)) as (-> & -> & ->).
  rewrite (decompose_days distance Hd).
  pose proof (Z.div_mod distance 86400000 ltac:(lia)) as H1.
  pose proof (Z.mod_pos_bound distance 86400000 ltac:(lia)) as B1.
  pose proof (Z.div_mod (distance mod 86400000) 3600000 ltac:(lia)) as H2.
  pose proof (Z.mod_pos_bound (distance mod 86400000) 3600000 ltac:(lia)) as B2.
  pose proof (Z.div_mod (distance mod 3600000) 60000 ltac:(lia)) as H3.
  pose proof (Z.mod_pos_bound (distance mod 3600000) 60000 ltac:(lia)) as B3.
  pose proof (Z.div_mod (distance mod 60000) 1000 ltac:(lia)) as H4.
  pose proof (Z.mod_pos_bound (distance mod 60000) 1000 ltac:(lia)) as B4.
  assert (E1 : (distance mod 86400000) mod 3600000 = distance mod 3600000).
  { apply Z.mod_mod_divide. exists 24. reflexivity. }
  assert (E2 : (distance mod 3600000) mod 60000 = distance mod 60000).
  { apply Z.mod_mod_divide. exists 60. reflexivity. }
  lia.
Qed.

(** C9.  For every non-negative remaining interval, the decomposition
    (the floor of the double-precision quotients, and the remainder) has
    hours in 0..23, minutes in 0..59 and seconds in 0..59 (and no
    negative days); an interval of exactly 90061000 ms decomposes into
    1 day, 1 hour, 1 minute and 1 second, and that is what one tick shows
    when the target is 90061000 ms ahead. *)
Theorem C9_countdown_decomposition (distance : Z) (Hpos : 0 <= distance) :
  (0 <= days (decompose distance) /\
   0 <= hours (decompose distance) <= 23 /\
   0 <= minutes (decompose distance) <= 59 /\
   0 <= seconds (decompose distance) <= 59) /\
  decompose 90061000 = mkTimeLeft 1 1 1 1 /\
  (forall now t, tick (now + 90061000) now t = (mkTimeLeft 1 1 1 1, false)).
Proof.
  assert (H1111 : decompose 90061000 = mkTimeLeft 1 1 1 1).
  { unfold decompose.
    change (1000 * 60 * 60 * 24) with 86400000.
    change (1000 * 60 * 60) with 3600000.
    change (1000 * 60) with 60000.
    rewrite !floor_div_quotient by (try rewrite !Z.rem_mod_nonneg by lia; lia).
    reflexivity. }
  split; [| split].
  - destruct (decompose_parts distance Hpos) as (-> & -> & ->).
    pose proof (Z.mod_pos_bound distance 86400000 ltac:(lia)).
    pose proof (Z.mod_pos_bound distance 3600000 ltac:(lia)).
    pose proof (Z.mod_pos_bound distance 60000 ltac:(lia)).
    repeat split.
    + apply floor_div_nonneg; [exact Hpos | reflexivity].
    + apply Z.div_pos; lia.
    + apply Z.lt_succ_r. apply Z.div_lt_upper_bound; lia.
    + apply Z.div_pos; lia.
    + apply Z.lt_succ_r. apply Z.div_lt_upper_bound; lia.
    + apply Z.div_pos; lia.
    + apply Z.lt_succ_r. apply Z.div_lt_upper_bound; lia.
  - exact H1111.
  - intros now t. unfold tick.
    replace (now + 90061000 - now) with 90061000 by lia.
    rewrite H1111. reflexivity.
Qed.

Lemma C9_countdown_decomposition_witness :
  0 <= 86399999 /\
  0 <= hours (decompose 86399999) <= 23 /\
  0 <= minutes (decompose 86399999) <= 59 /\
  0 <= seconds (decompose 86399999) <= 59.
Proof.
  split; [lia |].
  destruct (C9_countdown_decomposition 86399999 ltac:(lia)) as [(_ & Hh & Hm & Hs) _].
  exact (conj Hh (conj Hm Hs)).
Defined.

(** The same computed on the doubles themselves. *)
Lemma decompose_sample :
  decompose 86399999 = mkTimeLeft 0 23 59 59.
Proof. vm_compute. reflexivity. Qed.

End CountdownFacts.

(* ===================================================================== *)
(** ** The Entry Store *)
(* ===================================================================== *)

Module StoreFacts.
Import Runtime Prog Store Ops.

Lemma String_eqb_true (a b : string) : String.eqb a b = true <-> a = b.
Proof. apply String.eqb_eq. Qed.

Lemma String_eqb_false (a b : string) : String.eqb a b = false <-> a <> b.
Proof. apply String.eqb_neq. Qed.

Section Roster.
Variable TEAM_MEMBERS : list string.

Lemma emptyTeamNotes_fold (l : list string) (acc : gmap string TeamMemberNote) (k : string) :
  fold_left
    (fun acc name0 =>
       <[name0 := mkTeamMemberNote (Some name0) (Some EmptyString) (Some VoteNull)]> acc)
    l acc !! k
  = if decide (k ∈ l)
    then Some (mkTeamMemberNote (Some k) (Some EmptyString) (Some VoteNull))
    else acc !! k.
Proof.
  revert acc. induction l as [| x l IH]; intros acc; simpl.
  - destruct (decide (k ∈ [])) as [H | H]; [inversion H | reflexivity].
  - rewrite IH.
    destruct (decide (k ∈ l)) as [Hin | Hnin].
    + rewrite decide_True by (right; exact Hin). reflexivity.
    + destruct (decide (k = x)) as [-> | Hne].
      * rewrite decide_True by left. apply lookup_insert_eq.
      * rewrite decide_False.
        -- apply lookup_insert_ne. congruence.
        -- intros H. apply elem_of_cons in H. tauto.
Qed.

(** The note map of a new entry: one empty note per roster name. *)
Lemma emptyTeamNotes_lookup (k : string) :
  emptyTeamNotes TEAM_MEMBERS !! k
  = if decide (k ∈ TEAM_MEMBERS)
    then Some (mkTeamMemberNote (Some k) (Some EmptyString) (Some VoteNull))
    else None.
Proof.
  unfold emptyTeamNotes. rewrite emptyTeamNotes_fold.
  destruct (decide (k ∈ TEAM_MEMBERS)); [reflexivity | apply lookup_empty].
Qed.

Lemma newEntry_roster_shaped (uuid : string) :
  roster_shaped TEAM_MEMBERS (newEntry TEAM_MEMBERS uuid).
Proof.
  split.
  - intros k. simpl. rewrite emptyTeamNotes_lookup.
    destruct (decide (k ∈ TEAM_MEMBERS)) as [H | H].
    + split; [intros _; exact H | intros _; eexists; reflexivity].
    + split; [intros [x Hx]; discriminate | intros H'; contradiction].
  - intros k n. simpl. rewrite emptyTeamNotes_lookup.
    destruct (decide (k ∈ TEAM_MEMBERS)); [| discriminate].
    intros [= <-]. reflexivity.
Qed.

Lemma merge_note_name (o : option TeamMemberNote) (u : NoteUpdates) :
  name (merge_note o u) = o ≫= name.
Proof. destruct o; reflexivity. Qed.

(** Each mutation keeps the invariant, when it is one the page issues. *)
Lemma updateEntry_roster_shaped (i : string) (u : DressEntryUpdates) (l : list DressEntry) :
  from_page TEAM_MEMBERS (UpdateEntryFields i u) ->
  Forall (roster_shaped TEAM_MEMBERS) l ->
  Forall (roster_shaped TEAM_MEMBERS) (updateEntry i u l).
Proof.
  intros Hu Hl. unfold updateEntry. apply Forall_map.
  eapply Forall_impl; [exact Hl |]. intros e He. simpl.
  destruct (String.eqb (id e) i); [| exact He].
  unfold roster_shaped, merge_entry. simpl. simpl in Hu.
  destruct (new_teamNotes u); [exact Hu | exact He].
Qed.

Lemma updateMemberNote_roster_shaped (i m : string) (u : NoteUpdates) (l : list DressEntry) :
  m ∈ TEAM_MEMBERS ->
  Forall (roster_shaped TEAM_MEMBERS) l ->
  Forall (roster_shaped TEAM_MEMBERS) (updateMemberNote i m u l).
Proof.
  intros Hm Hl. unfold updateMemberNote. apply Forall_map.
  eapply Forall_impl; [exact Hl |]. intros e [Hdom Hname]. simpl.
  destruct (String.eqb (id e) i); [| split; assumption].
  split; simpl.
  - intros k. destruct (decide (k = m)) as [-> | Hne].
    + rewrite lookup_insert_eq. split; [intros _; exact Hm | intros _; eexists; reflexivity].
    + rewrite lookup_insert_ne by congruence. apply Hdom.
  - intros k n. destruct (decide (k = m)) as [-> | Hne].
    + rewrite lookup_insert_eq. intros [= <-]. rewrite merge_note_name.
      apply Hdom in Hm. destruct Hm as [n0 Hn0]. rewrite Hn0. simpl.
      apply (Hname _ _ Hn0).
    + rewrite lookup_insert_ne by congruence. apply Hname.
Qed.

Lemma removeDress_roster_shaped (c : bool) (i : string) (l : list DressEntry) :
  Forall (roster_shaped TEAM_MEMBERS) l ->
  Forall (roster_shaped TEAM_MEMBERS) (removeDress c i l).
Proof.
  intros Hl. unfold removeDress. destruct c; [| exact Hl].
  rewrite List.Forall_forall in *. intros e He. apply Hl.
  apply List.filter_In in He. tauto.
Qed.

(** One operation, run in either revision, ends normally and touches
    nothing but the entries. *)
Lemma performLocal_run (op : Op) (w : World Local.State) :
  from_page TEAM_MEMBERS op ->
  Forall (roster_shaped TEAM_MEMBERS) (Local.entries (react w)) ->
  exists l,
    run (performLocal TEAM_MEMBERS op) w
    = (Normal tt,
       mkWorld (Local.mkState l (Local.isSyncing (react w)) (Local.lastSyncTime (react w)))
               (localStorage w) (trace w))
    /\ Forall (roster_shaped TEAM_MEMBERS) l.
Proof.
  intros Hop Hw. destruct op as [uuid | i u | i m u | i]; simpl;
    (eexists; split; [reflexivity |]).
  - apply Forall_app. split; [exact Hw |].
    constructor; [apply newEntry_roster_shaped | constructor].
  - apply updateEntry_roster_shaped; assumption.
  - apply updateMemberNote_roster_shaped; assumption.
  - apply removeDress_roster_shaped; assumption.
Qed.

Lemma performCloud_run (op : Op) (w : World Cloud.State) :
  from_page TEAM_MEMBERS op ->
  Forall (roster_shaped TEAM_MEMBERS) (Cloud.entries (react w)) ->
  exists l,
    run (performCloud TEAM_MEMBERS op) w
    = (Normal tt,
       mkWorld (Cloud.mkState l (Cloud.isSyncing (react w)) (Cloud.lastSyncTime (react w))
                              (Cloud.syncProgress (react w)) (Cloud.cloudStatus (react w)))
               (localStorage w) (trace w))
    /\ Forall (roster_shaped TEAM_MEMBERS) l.
Proof.
  intros Hop Hw. destruct op as [uuid | i u | i m u | i]; simpl;
    (eexists; split; [reflexivity |]).
  - constructor; [apply newEntry_roster_shaped | exact Hw].
  - apply updateEntry_roster_shaped; assumption.
  - apply updateMemberNote_roster_shaped; assumption.
  - apply removeDress_roster_shaped; assumption.
Qed.

Lemma sequenceLocal_run (ops : list Op) (w : World Local.State) :
  Forall (from_page TEAM_MEMBERS) ops ->
  Forall (roster_shaped TEAM_MEMBERS) (Local.entries (react w)) ->
  exists w',
    run (sequence (performLocal TEAM_MEMBERS) ops) w = (Normal tt, w')
    /\ Forall (roster_shaped TEAM_MEMBERS) (Local.entries (react w')).
Proof.
  intros Hops. revert w. induction Hops as [| op ops Hop Hops IH]; intros w Hw.
  - exists w. split; [reflexivity | exact Hw].
  - destruct (performLocal_run op w Hop Hw) as (l & Hrun & Hl).
    match type of Hrun with
    | _ = (_, ?w1) => destruct (IH w1 Hl) as (w' & Hrun' & Hw')
    end.
    exists w'. split; [| exact Hw'].
    unfold run in *. cbn [sequence]. unfold mbind, M_bind, bind.
    rewrite Hrun. exact Hrun'.
Qed.

Lemma sequenceCloud_run (ops : list Op) (w : World Cloud.State) :
  Forall (from_page TEAM_MEMBERS) ops ->
  Forall (roster_shaped TEAM_MEMBERS) (Cloud.entries (react w)) ->
  exists w',
    run (sequence (performCloud TEAM_MEMBERS) ops) w = (Normal tt, w')
    /\ Forall (roster_shaped TEAM_MEMBERS) (Cloud.entries (react w')).
Proof.
  intros Hops. revert w. induction Hops as [| op ops Hop Hops IH]; intros w Hw.
  - exists w. split; [reflexivity | exact Hw].
  - destruct (performCloud_run op w Hop Hw) as (l & Hrun & Hl).
    match type of Hrun with
    | _ = (_, ?w1) => destruct (IH w1 Hl) as (w' & Hrun' & Hw')
    end.
    exists w'. split; [| exact Hw'].
    unfold run in *. cbn [sequence]. unfold mbind, M_bind, bind.
    rewrite Hrun. exact Hrun'.
Qed.

End Roster.
End StoreFacts.

(* ===================================================================== *)
(** ** The roster invariant, the note update and the seed entry *)
(* ===================================================================== *)

Module EntryStoreClaims.
Import Runtime Prog Store Ops StoreFacts Samples.

Lemma sampleOps_from_page : Forall (from_page sampleRoster) sampleOps.
Proof.
  unfold sampleOps, sampleRoster.
  repeat constructor.
Qed.

Lemma initialLoad_fresh_Local (TEAM_MEMBERS : list string) (STORAGE_KEY uuid : string) :
  run (Local.initialLoad TEAM_MEMBERS STORAGE_KEY uuid) (fresh Local.initialState)
  = (Normal tt,
     mkWorld (Local.mkState [newEntry TEAM_MEMBERS uuid] false None) ∅ []).
Proof.
  unfold run, Local.initialLoad, fresh, mbind, M_bind, bind, getItem. simpl.
  rewrite lookup_empty. reflexivity.
Qed.

Lemma initialLoad_fresh_Cloud (STORAGE_KEY : string) :
  run (Cloud.initialLoad STORAGE_KEY) (fresh Cloud.initialState)
  = (Normal tt, fresh Cloud.initialState).
Proof.
  unfold run, Cloud.initialLoad, fresh, mbind, M_bind, bind, getItem. simpl.
  rewrite lookup_empty. reflexivity.
Qed.

(** C2 (as amended).  Start either revision in a fresh session (nothing
    stored) and let the page issue any finite sequence of create,
    update-fields, update-note and remove operations, where notes are
    addressed by roster names and no field update replaces [teamNotes] by
    a map of another shape.  The whole run ends normally, and in every
    surviving entry the note map holds exactly the roster's names, each
    note carrying its key as its [name]. *)
Theorem C2_roster_invariant (TEAM_MEMBERS : list string) (STORAGE_KEY uuid : string)
    (ops : list Op) (Hops : Forall (from_page TEAM_MEMBERS) ops) :
  (exists w,
      run (Local.initialLoad TEAM_MEMBERS STORAGE_KEY uuid;;
           sequence (performLocal TEAM_MEMBERS) ops) (fresh Local.initialState)
      = (Normal tt, w)
      /\ Forall (roster_shaped TEAM_MEMBERS) (Local.entries (react w)))
  /\
  (exists w,
      run (Cloud.initialLoad STORAGE_KEY;;
           sequence (performCloud TEAM_MEMBERS) ops) (fresh Cloud.initialState)
      = (Normal tt, w)
      /\ Forall (roster_shaped TEAM_MEMBERS) (Cloud.entries (react w))).
Proof.
  split.
  - pose proof (initialLoad_fresh_Local TEAM_MEMBERS STORAGE_KEY uuid) as H0.
    match type of H0 with
    | _ = (_, ?w0) =>
        destruct (sequenceLocal_run TEAM_MEMBERS ops w0 Hops) as (w & Hrun & Hw)
    end.
    { simpl. constructor; [apply newEntry_roster_shaped | constructor]. }
    exists w. split; [| exact Hw].
    unfold run in *. unfold mbind at 1. unfold M_bind, bind. rewrite H0. exact Hrun.
  - pose proof (initialLoad_fresh_Cloud STORAGE_KEY) as H0.
    destruct (sequenceCloud_run TEAM_MEMBERS ops (fresh Cloud.initialState) Hops)
      as (w & Hrun & Hw).
    { simpl. constructor. }
    exists w. split; [| exact Hw].
    unfold run in *. unfold mbind at 1. unfold M_bind, bind. rewrite H0. exact Hrun.
Qed.

Lemma C2_roster_invariant_witness :
  Forall (from_page sampleRoster) sampleOps /\
  (exists w,
      run (Cloud.initialLoad "dresses";;
           sequence (performCloud sampleRoster) sampleOps) (fresh Cloud.initialState)
      = (Normal tt, w)
      /\ Forall (roster_shaped sampleRoster) (Cloud.entries (react w))).
Proof.
  split.
  - exact sampleOps_from_page.
  - exact (proj2 (C2_roster_invariant sampleRoster "dresses" "e1" sampleOps
                    sampleOps_from_page)).
Defined.

(** The claim as the specification words it fails: a note update addressed
    to a name outside the roster adds a note under that name (and that
    note has no [name] property). *)
Lemma C2_counterexample :
  ~ (forall (TEAM_MEMBERS : list string) (ops : list Op) (w : World Cloud.State),
        run (Cloud.initialLoad "dresses";; sequence (performCloud TEAM_MEMBERS) ops)
            (fresh Cloud.initialState) = (Normal tt, w) ->
        Forall (roster_shaped TEAM_MEMBERS) (Cloud.entries (react w))).
Proof.
  intros H.
  specialize (H ["Dana"%string]
                [CreateEntry "e1"; UpdateNote "e1" "Zelda" voteUp]%string _ eq_refl).
  simpl in H. inversion H as [| e l [Hdom _] _]; subst.
  specialize (Hdom "Zelda"%string). simpl in Hdom.
  rewrite lookup_insert_eq in Hdom.
  assert (Hin : "Zelda"%string ∈ ["Dana"%string]) by (apply Hdom; eexists; reflexivity).
  apply list_elem_of_singleton in Hin. discriminate.
Qed.

(** *** update-note *)

(** C3 (as amended).  [updateMemberNote] keeps the length and the order of
    the list and every field of every entry other than [teamNotes]; it
    leaves the list unchanged when no entry has the id; in each entry that
    has the id it touches the note under the given name only: if there is
    one, the given fields are merged into it (its [name] and the fields not
    given stay); if there is none, a note holding just the given fields is
    stored under that name. *)
Theorem C3_update_note (l : list DressEntry) (entryId memberName : string)
    (updates : NoteUpdates) :
  ((forall e, e ∈ l -> id e <> entryId) ->
   updateMemberNote entryId memberName updates l = l)
  /\ length (updateMemberNote entryId memberName updates l) = length l
  /\ (forall (i : nat) (e : DressEntry),
        l !! i = Some e ->
        exists e',
          updateMemberNote entryId memberName updates l !! i = Some e'
          /\ id e' = id e /\ location e' = location e /\ price e' = price e
          /\ image e' = image e
          /\ (id e <> entryId -> e' = e)
          /\ (id e = entryId ->
              (forall k, k <> memberName -> teamNotes e' !! k = teamNotes e !! k)
              /\ teamNotes e' !! memberName
                 = Some match teamNotes e !! memberName with
                        | Some n =>
                            {| name := name n;
                               note := match new_note updates with
                                       | Some s => Some s
                                       | None => note n
                                       end;
                               vote := match new_vote updates with
                                       | Some v => Some v
                                       | None => vote n
                                       end |}
                        | None =>
                            {| name := None;
                               note := new_note updates;
                               vote := new_vote updates |}
                        end)).
Proof.
  split; [| split].
  - intros Hno. unfold updateMemberNote.
    induction l as [| e l' IH]; [reflexivity |]. simpl.
    assert (Hid : String.eqb (id e) entryId = false).
    { apply String_eqb_false. apply Hno. left. }
    rewrite Hid. f_equal. apply IH. intros e0 He0. apply Hno. right. exact He0.
  - unfold updateMemberNote. apply length_map.
  - intros i e Hi. unfold updateMemberNote. rewrite list_lookup_fmap, Hi. simpl.
    destruct (String.eqb (id e) entryId) eqn:Hid.
    + apply String_eqb_true in Hid. eexists. split; [reflexivity |]. simpl.
      do 4 (split; [reflexivity |]).
      split; [intros Hne; contradiction |].
      intros _. split.
      * intros k Hk. apply lookup_insert_ne. congruence.
      * rewrite lookup_insert_eq. f_equal.
        destruct (teamNotes e !! memberName) as [n |]; unfold merge_note; simpl.
        -- reflexivity.
        -- destruct (new_note updates), (new_vote updates); reflexivity.
    + apply String_eqb_false in Hid. exists e.
      do 5 (split; [reflexivity |]).
      split; [reflexivity |]. intros Heq. contradiction.
Qed.

(** The claim as the specification words it fails where the entry exists
    and has no note under the name: the update is not a no-op. *)
Lemma C3_counterexample :
  ~ (forall (l : list DressEntry) (entryId memberName : string) (updates : NoteUpdates),
        (forall e, e ∈ l -> id e <> entryId) \/
        (forall e, e ∈ l -> id e = entryId -> teamNotes e !! memberName = None) ->
        updateMemberNote entryId memberName updates l = l).
Proof.
  intros H.
  specialize (H [mkDressEntry "e1" EmptyString EmptyString None ∅]
                "e1"%string "Dana"%string voteUp).
  assert (Hpre : (forall e : DressEntry,
                     e ∈ [mkDressEntry "e1" EmptyString EmptyString None ∅] ->
                     id e <> "e1"%string) \/
                 (forall e : DressEntry,
                     e ∈ [mkDressEntry "e1" EmptyString EmptyString None ∅] ->
                     id e = "e1"%string -> teamNotes e !! "Dana"%string = None)).
  { right. intros e He _. apply list_elem_of_singleton in He. subst e. apply lookup_empty. }
  specialize (H Hpre).
  apply (f_equal (fun l : list DressEntry =>
                    match l with
                    | e :: _ => teamNotes e !! "Dana"%string
                    | [] => None
                    end)) in H.
  vm_compute in H. discriminate.
Qed.

(** *** The seed entry *)

(** C6 (as amended).  With nothing in the local slot, the first revision
    seeds the store with exactly one entry: the generated id, empty
    location and price, no image, and one empty note (empty text, vote
    unset, its key as name) per roster member; the second revision seeds
    nothing and the store stays as it was. *)
Theorem C6_seed_entry (TEAM_MEMBERS : list string) (STORAGE_KEY uuid : string)
    (w0 : World Local.State) (w1 : World Cloud.State)
    (Habsent0 : localStorage w0 !! STORAGE_KEY = None)
    (Habsent1 : localStorage w1 !! STORAGE_KEY = None) :
  (exists e,
      run (Local.initialLoad TEAM_MEMBERS STORAGE_KEY uuid) w0
      = (Normal tt,
         mkWorld (Local.mkState [e] (Local.isSyncing (react w0)) (Local.lastSyncTime (react w0)))
                 (localStorage w0) (trace w0))
      /\ id e = uuid /\ location e = EmptyString /\ price e = EmptyString
      /\ image e = None
      /\ forall k : string,
           teamNotes e !! k
           = if decide (k ∈ TEAM_MEMBERS)
             then Some (mkTeamMemberNote (Some k) (Some EmptyString) (Some VoteNull))
             else None)
  /\ run (Cloud.initialLoad STORAGE_KEY) w1 = (Normal tt, w1).
Proof.
  split.
  - exists (newEntry TEAM_MEMBERS uuid). split.
    + unfold run, Local.initialLoad, mbind, M_bind, bind, getItem.
      rewrite Habsent0. reflexivity.
    + repeat split. intros k. apply emptyTeamNotes_lookup.
  - unfold run, Cloud.initialLoad, mbind, M_bind, bind, getItem.
    rewrite Habsent1. reflexivity.
Qed.

Lemma C6_seed_entry_witness :
  exists e,
    run (Local.initialLoad sampleRoster "dresses" "e1") (fresh Local.initialState)
    = (Normal tt, mkWorld (Local.mkState [e] false None) ∅ [])
    /\ id e = "e1"%string /\ teamNotes e !! "Noa"%string
       = Some (mkTeamMemberNote (Some "Noa"%string) (Some EmptyString) (Some VoteNull)).
Proof.
  destruct (C6_seed_entry sampleRoster "dresses" "e1"
              (fresh Local.initialState) (fresh Cloud.initialState)
              (lookup_empty _) (lookup_empty _)) as [[e (Hrun & Hid & _ & _ & _ & Hnotes)] _].
  exists e. split; [exact Hrun | split; [exact Hid |]].
  rewrite Hnotes. reflexivity.
Defined.

(** The claim as the specification words it fails in the second revision:
    its load has no seeding branch, and the store stays empty. *)
Lemma C6_counterexample :
  ~ (forall (STORAGE_KEY : string) (w : World Cloud.State),
        localStorage w !! STORAGE_KEY = None ->
        exists e, Cloud.entries (react (snd (run (Cloud.initialLoad STORAGE_KEY) w))) = [e]).
Proof.
  intros H.
  destruct (H "dresses"%string (fresh Cloud.initialState) (lookup_empty _)) as [e He].
  rewrite initialLoad_fresh_Cloud in He. discriminate.
Qed.

End EntryStoreClaims.

(* ===================================================================== *)
(** ** [JSON.parse] reads back what [JSON.stringify] writes *)
(* ===================================================================== *)

Module JsonFacts.
Import Json JsonText.

(** *** Strings *)

Lemma append_cons (c : ascii) (a b : string) : String c a +:+ b = String c (a +:+ b).
Proof. reflexivity. Qed.

Lemma append_nil_l (b : string) : EmptyString +:+ b = b.
Proof. reflexivity. Qed.

Lemma append_assoc (a b c : string) : (a +:+ b) +:+ c = a +:+ (b +:+ c).
Proof.
  induction a as [| x a IH]; [reflexivity |].
  rewrite !append_cons, IH. reflexivity.
Qed.

Lemma append_nil_r (a : string) : a +:+ EmptyString = a.
Proof.
  induction a as [| x a IH]; [reflexivity |].
  rewrite append_cons, IH. reflexivity.
Qed.

Lemma length_append (a b : string) :
  String.length (a +:+ b) = (String.length a + String.length b)%nat.
Proof.
  induction a as [| x a IH]; [reflexivity |].
  rewrite append_cons. simpl. rewrite IH. reflexivity.
Qed.

Ltac norm_str :=
  repeat (rewrite append_cons || rewrite append_nil_l || rewrite append_assoc).

(** One escaped character is read back as that character. *)
Lemma parse_chars_escape_char (c : ascii) (t : string) :
  parse_chars (escape_char c +:+ t) = prepend (String c EmptyString) (parse_chars t).
Proof.
  destruct c as [[] [] [] [] [] [] [] []]; reflexivity.
Qed.

Lemma parse_chars_escape (s rest : string) :
  parse_chars (escape s +:+ String dquote rest) = Some (s, rest).
Proof.
  induction s as [| c s IH]; simpl.
  - reflexivity.
  - rewrite append_assoc, parse_chars_escape_char, IH. reflexivity.
Qed.

Lemma quote_append (s rest : string) :
  quote s +:+ rest = String dquote (escape s +:+ String dquote rest).
Proof. unfold quote. norm_str. reflexivity. Qed.

(** *** Numbers *)

Lemma read_digits_nondigit (rest : string) :
  ends_number rest = true -> read_digits rest = (Nil, rest).
Proof.
  destruct rest as [| c r]; [reflexivity |]. simpl.
  destruct (is_digit c); [discriminate | reflexivity].
Qed.

Lemma read_digits_uint (u : uint) (rest : string) :
  ends_number rest = true ->
  read_digits (NilEmpty.string_of_uint u +:+ rest) = (u, rest).
Proof.
  intros Hrest.
  induction u as [| u IH | u IH | u IH | u IH | u IH | u IH | u IH | u IH | u IH | u IH];
    cbn [NilEmpty.string_of_uint]; norm_str;
    [apply read_digits_nondigit; exact Hrest | ..];
    cbn [read_digits is_digit]; rewrite IH; reflexivity.
Qed.

Lemma parse_frac_none (rest : string) :
  ends_number rest = true -> parse_frac rest = Some (EmptyString, rest).
Proof.
  destruct rest as [| c r]; [reflexivity |].
  destruct c as [[] [] [] [] [] [] [] []]; simpl; intros H;
    first [discriminate H | reflexivity].
Qed.

Lemma parse_exp_none (rest : string) :
  ends_number rest = true -> parse_exp rest = Some (EmptyString, rest).
Proof.
  destruct rest as [| c r]; [reflexivity |].
  destruct c as [[] [] [] [] [] [] [] []]; simpl; intros H;
    first [discriminate H | reflexivity].
Qed.

Lemma to_uint_unorm (p : positive) : unorm (Pos.to_uint p) = Pos.to_uint p.
Proof.
  rewrite <- (DecimalPos.Unsigned.to_of (Pos.to_uint p)).
  rewrite DecimalPos.Unsigned.of_to. reflexivity.
Qed.

Lemma to_uint_no_leading_zero (p : positive) : leading_zero (Pos.to_uint p) = false.
Proof.
  pose proof (to_uint_unorm p) as Hn.
  destruct (Pos.to_uint p) as [| u | u | u | u | u | u | u | u | u | u]; try reflexivity.
  destruct u as [| u | u | u | u | u | u | u | u | u | u]; try reflexivity;
    exfalso; unfold unorm in Hn; rewrite nzhead_D0 in Hn;
    try (cbn [nzhead] in Hn; discriminate Hn).
  destruct (nzhead (D0 u)) eqn:Hz; try discriminate Hn.
  exact (nzhead_nonzero _ _ Hz).
Qed.

Lemma of_to_uint (p : positive) : Z.of_uint (Pos.to_uint p) = Zpos p.
Proof.
  unfold Z.of_uint. rewrite DecimalPos.Unsigned.of_to. reflexivity.
Qed.

(** The digits of a literal, not all zero-led, read as the number. *)
Lemma parse_number_digits (u : uint) (rest : string) :
  u <> Nil -> leading_zero u = false -> ends_number rest = true ->
  parse_number (NilEmpty.string_of_uint u +:+ rest) = Some (JNum (Z.of_uint u), rest)
  /\ parse_number (String "-" (NilEmpty.string_of_uint u +:+ rest))
     = Some (JNum (- Z.of_uint u), rest).
Proof.
  intros Hnil Hlz Hrest.
  pose proof (read_digits_uint u rest Hrest) as Hrd.
  split.
  - unfold parse_number.
    assert (Hhead : match NilEmpty.string_of_uint u +:+ rest with
                    | String "-" r => (true, r)
                    | _ => (false, NilEmpty.string_of_uint u +:+ rest)
                    end = (false, NilEmpty.string_of_uint u +:+ rest)).
    { destruct u; try contradiction; reflexivity. }
    rewrite Hhead, Hrd.
    destruct u; try contradiction;
      rewrite Hlz, (parse_frac_none _ Hrest), (parse_exp_none _ Hrest); reflexivity.
  - unfold parse_number. cbn [Ascii.eqb]. rewrite Hrd.
    destruct u; try contradiction;
      rewrite Hlz, (parse_frac_none _ Hrest), (parse_exp_none _ Hrest); reflexivity.
Qed.

Lemma parse_number_string_of_Z (z : Z) (rest : string) :
  ends_number rest = true ->
  parse_number (string_of_Z z +:+ rest) = Some (JNum z, rest).
Proof.
  intros Hrest. destruct z as [| p | p]; unfold string_of_Z.
  - apply (parse_number_digits (D0 Nil) rest); [discriminate | reflexivity | exact Hrest].
  - rewrite <- (of_to_uint p).
    apply parse_number_digits;
      [apply DecimalPos.Unsigned.to_uint_nonnil | apply to_uint_no_leading_zero | exact Hrest].
  - norm_str. change (Z.neg p) with (- Z.pos p). rewrite <- (of_to_uint p).
    apply parse_number_digits;
      [apply DecimalPos.Unsigned.to_uint_nonnil | apply to_uint_no_leading_zero | exact Hrest].
Qed.

Lemma string_of_uint_head (u : uint) :
  u <> Nil ->
  exists c s, NilEmpty.string_of_uint u = String c s /\ is_digit c = true.
Proof.
  destruct u; [contradiction | ..]; intros _; do 2 eexists; split; reflexivity.
Qed.

Lemma string_of_Z_head (z : Z) :
  exists c s, string_of_Z z = String c s /\ number_head c = true.
Proof.
  destruct z as [| p | p]; unfold string_of_Z.
  - do 2 eexists. split; reflexivity.
  - destruct (string_of_uint_head (Pos.to_uint p)) as (c & s & Hs & Hc);
      [apply DecimalPos.Unsigned.to_uint_nonnil |].
    exists c, s. split; [exact Hs |]. unfold number_head. rewrite Hc. reflexivity.
  - do 2 eexists. split; reflexivity.
Qed.

(** *** Values *)

Lemma stringify_arr (x : jsval) (r : list jsval) :
  stringify (JArr (x :: r)) = "[" +:+ (stringify x +:+ more_elements r) +:+ "]".
Proof. reflexivity. Qed.

Lemma stringify_obj (k : string) (x : jsval) (r : list (string * jsval)) :
  stringify (JObj ((k, x) :: r))
  = "{" +:+ (quote k +:+ ":" +:+ stringify x +:+ more_members r) +:+ "}".
Proof. reflexivity. Qed.

Lemma size_arr (x : jsval) (r : list jsval) :
  size (JArr (x :: r)) = (1 + size x + size_elements r)%nat.
Proof. reflexivity. Qed.

Lemma size_obj (k : string) (x : jsval) (r : list (string * jsval)) :
  size (JObj ((k, x) :: r)) = (1 + size x + size_members r)%nat.
Proof. reflexivity. Qed.

Lemma number_head_value_head (c : ascii) : number_head c = true -> value_head c = true.
Proof.
  destruct c as [[] [] [] [] [] [] [] []]; simpl; intros H;
    first [discriminate H | reflexivity].
Qed.

Lemma stringify_head (v : jsval) :
  plain v -> exists c s, stringify v = String c s /\ value_head c = true.
Proof.
  intros Hv. destruct Hv as [| [] | z | s | l _ | l _ _].
  - do 2 eexists. split; reflexivity.
  - do 2 eexists. split; reflexivity.
  - do 2 eexists. split; reflexivity.
  - destruct (string_of_Z_head z) as (c & s & Hs & Hc).
    exists c, s. split; [exact Hs | apply number_head_value_head; exact Hc].
  - do 2 eexists. split; reflexivity.
  - destruct l; do 2 eexists; (split; [reflexivity | reflexivity]).
  - destruct l as [| [k x] l]; do 2 eexists; (split; [reflexivity | reflexivity]).
Qed.

Lemma after_char_value (v : jsval) (t : string) (c : ascii) :
  plain v -> (c = "]"%char \/ c = "}"%char) -> after_char c (stringify v +:+ t) = None.
Proof.
  intros Hv Hc. destruct (stringify_head v Hv) as (h & s & Hs & Hh).
  rewrite Hs. norm_str. unfold after_char. cbn [skip_ws].
  unfold value_head in Hh.
  destruct (is_ws h); [discriminate |]. simpl in Hh.
  destruct Hc as [-> | ->].
  - destruct (Ascii.eqb h "]"); [discriminate | reflexivity].
  - destruct (Ascii.eqb h "]"); [discriminate |].
    destruct (Ascii.eqb h "}"); [discriminate | reflexivity].
Qed.

(** A number is dispatched to [parse_number]. *)
Lemma parse_value_number (f : nat) (c : ascii) (t : string) :
  number_head c = true -> parse_value (S f) (String c t) = parse_number (String c t).
Proof.
  destruct c as [[] [] [] [] [] [] [] []]; simpl; intros H;
    first [discriminate H | reflexivity].
Qed.

Lemma parse_value_string (f : nat) (t : string) :
  parse_value (S f) (String dquote t)
  = match parse_chars t with
    | Some (x, r1) => Some (JStr x, r1)
    | None => None
    end.
Proof. reflexivity. Qed.

Lemma parse_value_array (f : nat) (t : string) :
  parse_value (S f) (String "[" t)
  = match after_char "]" t with
    | Some r1 => Some (JArr [], r1)
    | None =>
        match parse_value f t with
        | Some (v, r1) =>
            match parse_more_elements f r1 with
            | Some (vs, r2) => Some (JArr (v :: vs), r2)
            | None => None
            end
        | None => None
        end
    end.
Proof. reflexivity. Qed.

Lemma parse_value_object (f : nat) (t : string) :
  parse_value (S f) (String "{" t)
  = match after_char "}" t with
    | Some r1 => Some (JObj [], r1)
    | None =>
        match parse_member (parse_value f) t with
        | Some (m, r1) =>
            match parse_more_members f r1 with
            | Some (ms, r2) => Some (JObj (obj_of_members (m :: ms)), r2)
            | None => None
            end
        | None => None
        end
    end.
Proof. reflexivity. Qed.

Lemma parse_more_elements_close (f : nat) (rest : string) :
  parse_more_elements (S f) (String "]" rest) = Some ([], rest).
Proof. reflexivity. Qed.

Lemma parse_more_elements_comma (f : nat) (t : string) :
  parse_more_elements (S f) (String "," t)
  = match parse_value f t with
    | Some (v, r1) =>
        match parse_more_elements f r1 with
        | Some (vs, r2) => Some (v :: vs, r2)
        | None => None
        end
    | None => None
    end.
Proof. reflexivity. Qed.

Lemma parse_more_members_close (f : nat) (rest : string) :
  parse_more_members (S f) (String "}" rest) = Some ([], rest).
Proof. reflexivity. Qed.

Lemma parse_more_members_comma (f : nat) (t : string) :
  parse_more_members (S f) (String "," t)
  = match parse_member (parse_value f) t with
    | Some (m, r1) =>
        match parse_more_members f r1 with
        | Some (ms, r2) => Some (m :: ms, r2)
        | None => None
        end
    | None => None
    end.
Proof. reflexivity. Qed.

Lemma parse_member_quote (pv : string -> option (jsval * string)) (k t : string) :
  parse_member pv (quote k +:+ String ":" t)
  = match pv t with
    | Some (v, r3) => Some ((k, v), r3)
    | None => None
    end.
Proof.
  rewrite quote_append. unfold parse_member.
  change (skip_ws (String dquote (escape k +:+ String dquote (String ":" t))))
    with (String dquote (escape k +:+ String dquote (String ":" t))).
  change (Ascii.eqb dquote dquote) with true. cbv iota.
  rewrite parse_chars_escape. reflexivity.
Qed.

Lemma after_char_quote (k t : string) : after_char "}" (quote k +:+ t) = None.
Proof. rewrite quote_append. reflexivity. Qed.

(** What follows an element of an array or a member of an object ends a
    number. *)
Lemma ends_number_more_elements (r : list jsval) (rest : string) :
  ends_number (more_elements r +:+ String "]" rest) = true.
Proof. destruct r; reflexivity. Qed.

Lemma ends_number_more_members (r : list (string * jsval)) (rest : string) :
  ends_number (more_members r +:+ String "}" rest) = true.
Proof. destruct r as [| [k y] r]; reflexivity. Qed.

Lemma parse_more_elements_stringify (r : list jsval) :
  Forall reads_back r -> Forall plain r ->
  forall (f : nat) (rest : string),
    (size_elements r <= f)%nat ->
    parse_more_elements f (more_elements r +:+ String "]" rest) = Some (r, rest).
Proof.
  induction r as [| y r IH]; intros HIH Hp f rest Hf.
  - destruct f as [| f]; [simpl in Hf; lia |]. reflexivity.
  - destruct f as [| f]; [simpl in Hf; lia |].
    apply Forall_cons in HIH as [Hy HIH]. apply Forall_cons in Hp as [Hpy Hp].
    cbn [more_elements size_elements] in *. norm_str.
    rewrite parse_more_elements_comma.
    rewrite (Hy Hpy f _ ltac:(lia) (ends_number_more_elements r rest)).
    rewrite (IH HIH Hp f rest ltac:(lia)). reflexivity.
Qed.

Lemma parse_more_members_stringify (r : list (string * jsval)) :
  Forall (fun kv => reads_back (snd kv)) r -> Forall (fun kv => plain (snd kv)) r ->
  forall (f : nat) (rest : string),
    (size_members r <= f)%nat ->
    parse_more_members f (more_members r +:+ String "}" rest) = Some (r, rest).
Proof.
  induction r as [| [k y] r IH]; intros HIH Hp f rest Hf.
  - destruct f as [| f]; [simpl in Hf; lia |]. reflexivity.
  - destruct f as [| f]; [simpl in Hf; lia |].
    apply Forall_cons in HIH as [Hy HIH]. apply Forall_cons in Hp as [Hpy Hp].
    cbn [more_members size_members snd] in *. norm_str.
    rewrite parse_more_members_comma.
    rewrite parse_member_quote.
    rewrite (Hy Hpy f _ ltac:(lia) (ends_number_more_members r rest)).
    rewrite (IH HIH Hp f rest ltac:(lia)). reflexivity.
Qed.

Lemma obj_set_fresh (k : string) (v : jsval) (acc : list (string * jsval)) :
  k ∉ map fst acc -> obj_set k v acc = acc ++ [(k, v)].
Proof.
  induction acc as [| [k' v'] acc IH]; intros Hk; [reflexivity |].
  cbn [obj_set]. cbn [map fst] in Hk.
  apply not_elem_of_cons in Hk as [Hne Hk].
  destruct (String.eqb k' k) eqn:E.
  - apply String.eqb_eq in E. congruence.
  - rewrite (IH Hk). reflexivity.
Qed.

Lemma obj_of_members_fold (l acc : list (string * jsval)) :
  NoDup (map fst (acc ++ l)) ->
  fold_left (fun a kv => obj_set (fst kv) (snd kv) a) l acc = acc ++ l.
Proof.
  revert acc. induction l as [| [k v] l IH]; intros acc Hnd.
  - simpl. rewrite app_nil_r. reflexivity.
  - cbn [fold_left fst snd]. rewrite obj_set_fresh.
    + rewrite IH; rewrite <- app_assoc; [reflexivity | exact Hnd].
    + rewrite map_app in Hnd. apply NoDup_app in Hnd as (_ & Hdisj & _).
      intros Hin. apply (Hdisj k Hin). cbn [map fst]. left.
Qed.

Lemma obj_of_members_nodup (l : list (string * jsval)) :
  NoDup (map fst l) -> obj_of_members l = l.
Proof. intros H. unfold obj_of_members. apply (obj_of_members_fold l []). exact H. Qed.

(** Every plain value is read back from its text, whatever follows it (as
    long as that cannot continue a number). *)
Lemma parse_value_stringify (v : jsval) : reads_back v.
Proof.
  induction v as [| b | z | lit | s | l IH | l IH] using jsval_induction;
    intros Hp fuel rest Hf Hr;
    (destruct fuel as [| f]; [destruct l as [| [] ?] || idtac; simpl in Hf; lia |]).
  - reflexivity.
  - destruct b; reflexivity.
  - cbn [stringify]. destruct (string_of_Z_head z) as (c & s & Hs & Hc).
    rewrite Hs. norm_str. rewrite (parse_value_number f c _ Hc).
    rewrite <- append_cons, <- Hs. apply parse_number_string_of_Z. exact Hr.
  - inversion Hp.
  - cbn [stringify]. rewrite quote_append, parse_value_string, parse_chars_escape.
    reflexivity.
  - inversion Hp as [| | | | l' Hl |]; subst.
    destruct l as [| x r]; [reflexivity |].
    rewrite stringify_arr. rewrite size_arr in Hf. norm_str.
    apply Forall_cons in IH as [IHx IH]. apply Forall_cons in Hl as [Hx Hl].
    rewrite parse_value_array, (after_char_value x _ "]" Hx (or_introl eq_refl)).
    rewrite (IHx Hx f _ ltac:(lia) (ends_number_more_elements r rest)).
    rewrite (parse_more_elements_stringify r IH Hl f rest ltac:(lia)). reflexivity.
  - inversion Hp as [| | | | | l' Hnd Hl]; subst.
    destruct l as [| [k x] r]; [reflexivity |].
    rewrite stringify_obj. rewrite size_obj in Hf. norm_str.
    apply Forall_cons in IH as [IHx IH]. apply Forall_cons in Hl as [Hx Hl].
    cbn [snd] in IHx, Hx.
    rewrite parse_value_object, after_char_quote, parse_member_quote.
    rewrite (IHx Hx f _ ltac:(lia) (ends_number_more_members r rest)).
    rewrite (parse_more_members_stringify r IH Hl f rest ltac:(lia)).
    rewrite (obj_of_members_nodup _ Hnd). reflexivity.
Qed.

Lemma length_quote (k : string) : (2 <= String.length (quote k))%nat.
Proof. unfold quote. cbn [String.length]. rewrite length_append. simpl. lia. Qed.

Lemma size_elements_le (r : list jsval) :
  Forall (fun v => plain v -> (size v <= String.length (stringify v))%nat) r ->
  Forall plain r ->
  (size_elements r <= String.length (more_elements r) + 1)%nat.
Proof.
  induction r as [| y r IH]; intros HIH Hp; [simpl; lia |].
  apply Forall_cons in HIH as [Hy HIH]. apply Forall_cons in Hp as [Hpy Hp].
  cbn [size_elements more_elements]. norm_str. cbn [String.length].
  rewrite length_append. specialize (Hy Hpy). specialize (IH HIH Hp). lia.
Qed.

Lemma size_members_le (r : list (string * jsval)) :
  Forall (fun kv => plain (snd kv) ->
                    (size (snd kv) <= String.length (stringify (snd kv)))%nat) r ->
  Forall (fun kv => plain (snd kv)) r ->
  (size_members r <= String.length (more_members r) + 1)%nat.
Proof.
  induction r as [| [k y] r IH]; intros HIH Hp; [simpl; lia |].
  apply Forall_cons in HIH as [Hy HIH]. apply Forall_cons in Hp as [Hpy Hp].
  cbn [size_members more_members snd] in *. norm_str. cbn [String.length].
  rewrite !length_append. cbn [String.length]. rewrite length_append.
  specialize (Hy Hpy). specialize (IH HIH Hp). lia.
Qed.

(** The length of the text is fuel enough. *)
Lemma size_le_length (v : jsval) :
  plain v -> (size v <= String.length (stringify v))%nat.
Proof.
  induction v as [| b | z | lit | s | l IH | l IH] using jsval_induction; intros Hp.
  - simpl. lia.
  - destruct b; simpl; lia.
  - cbn [size stringify]. destruct (string_of_Z_head z) as (c & s & Hs & _).
    rewrite Hs. simpl. lia.
  - inversion Hp.
  - cbn [size stringify]. pose proof (length_quote s). lia.
  - inversion Hp as [| | | | l' Hl |]; subst.
    destruct l as [| x r]; [simpl; lia |].
    rewrite stringify_arr, size_arr.
    apply Forall_cons in IH as [IHx IH]. apply Forall_cons in Hl as [Hx Hl].
    norm_str. cbn [String.length]. rewrite !length_append. cbn [String.length].
    specialize (IHx Hx). pose proof (size_elements_le r IH Hl). lia.
  - inversion Hp as [| | | | | l' Hnd Hl]; subst.
    destruct l as [| [k x] r]; [simpl; lia |].
    rewrite stringify_obj, size_obj.
    apply Forall_cons in IH as [IHx IH]. apply Forall_cons in Hl as [Hx Hl].
    cbn [snd] in IHx, Hx.
    norm_str. cbn [String.length]. rewrite !length_append. cbn [String.length].
    rewrite !length_append. cbn [String.length].
    specialize (IHx Hx). pose proof (size_members_le r IH Hl). lia.
Qed.

(** [JSON.parse(JSON.stringify(v))] is [v]. *)
Theorem parse_stringify (v : jsval) : plain v -> parse (stringify v) = Some v.
Proof.
  intros Hp. unfold parse.
  pose proof (parse_value_stringify v Hp (S (String.length (stringify v))) EmptyString
                ltac:(pose proof (size_le_length v Hp); lia) eq_refl) as H.
  rewrite append_nil_r in H. rewrite H. reflexivity.
Qed.

(** *** The reader consumes its input *)

Lemma skip_ws_length (s : string) : (String.length (skip_ws s) <= String.length s)%nat.
Proof.
  induction s as [| c r IH]; [reflexivity |].
  simpl. destruct (is_ws c); simpl; lia.
Qed.

Lemma skip_ws_cons_length (s : string) (c : ascii) (r : string) :
  skip_ws s = String c r -> (String.length r < String.length s)%nat.
Proof.
  intros H. pose proof (skip_ws_length s) as Hl. rewrite H in Hl. simpl in Hl. lia.
Qed.

Lemma after_prefix_length (w s r : string) :
  after_prefix w s = Some r -> (String.length r <= String.length s)%nat.
Proof.
  revert s. induction w as [| a w IH]; intros s H.
  - simpl in H. destruct s; injection H as <-; lia.
  - destruct s as [| b s]; [discriminate |]. simpl in H.
    destruct (Ascii.eqb a b); [| discriminate].
    apply IH in H. simpl. lia.
Qed.

Lemma expect_length (w s : string) (v v' : jsval) (r : string) :
  expect w s v = Some (v', r) -> (String.length r <= String.length s)%nat.
Proof.
  unfold expect. destruct (after_prefix w s) as [r0 |] eqn:E; [| discriminate].
  intros [= _ <-]. eapply after_prefix_length; eassumption.
Qed.

Lemma after_char_length (c : ascii) (s r : string) :
  after_char c s = Some r -> (String.length r < String.length s)%nat.
Proof.
  unfold after_char. destruct (skip_ws s) as [| c1 r1] eqn:E; [discriminate |].
  destruct (Ascii.eqb c1 c); [| discriminate].
  intros [= <-]. eapply skip_ws_cons_length; eassumption.
Qed.

Lemma read_digits_length (s : string) :
  (String.length (snd (read_digits s)) <= String.length s)%nat
  /\ (fst (read_digits s) <> Nil ->
      (String.length (snd (read_digits s)) < String.length s)%nat).
Proof.
  induction s as [| c r [IH _]]; [split; [reflexivity | intros H; exact (False_ind _ (H eq_refl))] |].
  simpl. destruct (is_digit c).
  - destruct (read_digits r) as [u r']. simpl in *. split; intros; lia.
  - simpl. split; [lia | intros H; exact (False_ind _ (H eq_refl))].
Qed.

Lemma parse_frac_length (s f r : string) :
  parse_frac s = Some (f, r) -> (String.length r <= String.length s)%nat.
Proof.
  unfold parse_frac. destruct s as [| c s]; [intros [= _ <-]; lia |].
  destruct (Ascii.eqb c ".") eqn:Ec.
  - apply Ascii.eqb_eq in Ec. subst c.
    pose proof (read_digits_length s) as [Hl _].
    destruct (read_digits s) as [u r']. simpl in Hl.
    destruct u; try discriminate; intros [= _ <-]; simpl; lia.
  - assert (Hs : match c with
                 | "."%char =>
                     match read_digits s with
                     | (Nil, _) => None
                     | (u, r') => Some (String "." (NilEmpty.string_of_uint u), r')
                     end
                 | _ => Some (EmptyString, String c s)
                 end = Some (EmptyString, String c s)).
    { destruct c as [[] [] [] [] [] [] [] []]; try reflexivity. discriminate. }
    rewrite Hs. intros [= _ <-]. lia.
Qed.

Lemma parse_exp_length (s e r : string) :
  parse_exp s = Some (e, r) -> (String.length r <= String.length s)%nat.
Proof.
  unfold parse_exp. destruct s as [| c s]; [intros [= _ <-]; lia |].
  destruct (Ascii.eqb c "e" || Ascii.eqb c "E"); [| intros [= _ <-]; lia].
  assert (Hs : exists sign r1,
             match s with
             | String "+" r1 => ("+"%string, r1)
             | String "-" r1 => ("-"%string, r1)
             | _ => (EmptyString, s)
             end = (sign, r1) /\ (String.length r1 <= String.length s)%nat).
  { destruct s as [| d s']; [eexists _, _; split; [reflexivity | lia] |].
    destruct d as [[] [] [] [] [] [] [] []];
      (eexists _, _; split; [reflexivity | simpl; lia]). }
  destruct Hs as (sign & r1 & -> & Hl).
  pose proof (read_digits_length r1) as [Hd _].
  destruct (read_digits r1) as [u r2]. simpl in Hd.
  destruct u; try discriminate; intros [= _ <-]; simpl; lia.
Qed.

Lemma parse_number_length (s : string) (v : jsval) (r : string) :
  parse_number s = Some (v, r) -> (String.length r < String.length s)%nat.
Proof.
  unfold parse_number.
  assert (Hs : exists neg s1,
             match s with
             | String "-" r => (true, r)
             | _ => (false, s)
             end = (neg, s1) /\ (String.length s1 <= String.length s)%nat).
  { destruct s as [| d s']; [eexists _, _; split; [reflexivity | lia] |].
    destruct d as [[] [] [] [] [] [] [] []];
      (eexists _, _; split; [reflexivity | simpl; lia]). }
  destruct Hs as (neg & s1 & -> & Hl).
  pose proof (read_digits_length s1) as [_ Hd].
  destruct (read_digits s1) as [u s2]. simpl in Hd.
  assert (Hgo : u <> Nil ->
      (if leading_zero u then None else
       match parse_frac s2 with
       | None => None
       | Some (frac, s3) =>
           match parse_exp s3 with
           | None => None
           | Some (exp, s4) =>
               match frac, exp with
               | EmptyString, EmptyString =>
                   Some (JNum (if neg then - Z.of_uint u else Z.of_uint u), s4)
               | _, _ =>
                   Some (JFrac ((if neg then "-" else EmptyString)
                                +:+ NilEmpty.string_of_uint u +:+ frac +:+ exp), s4)
               end
           end
       end) = Some (v, r) -> (String.length r < String.length s)%nat).
  { intros Hu. specialize (Hd Hu).
    destruct (leading_zero u); [discriminate |].
    destruct (parse_frac s2) as [[frac s3] |] eqn:Ef; [| discriminate].
    destruct (parse_exp s3) as [[exp s4] |] eqn:Ee; [| discriminate].
    apply parse_frac_length in Ef. apply parse_exp_length in Ee.
    destruct frac, exp; intros [= _ <-]; lia. }
  destruct u; try discriminate; apply Hgo; discriminate.
Qed.

Lemma prepend_some (p : string) (o : option (string * string)) (x rest : string) :
  prepend p o = Some (x, rest) -> exists x', o = Some (x', rest).
Proof.
  destruct o as [[x' r'] |]; [| discriminate].
  intros [= _ <-]. eexists. reflexivity.
Qed.

Lemma parse_chars_length_upto (n : nat) (s x r : string) :
  (String.length s <= n)%nat ->
  parse_chars s = Some (x, r) -> (String.length r < String.length s)%nat.
Proof.
  revert s x r. induction n as [| n IH]; intros s x r Hn H.
  - destruct s; [discriminate | simpl in Hn; lia].
  - destruct s as [| c s]; [discriminate |].
    simpl in Hn.
    assert (Hrec : forall p t, (String.length t <= n)%nat ->
               prepend p (parse_chars t) = Some (x, r) ->
               (String.length r < String.length t)%nat).
    { intros p t Ht Hp. apply prepend_some in Hp as [x' Hp]. eapply IH; eassumption. }
    cbn [parse_chars] in H.
    destruct (Ascii.eqb c dquote); [injection H as _ <-; simpl; lia |].
    destruct (Ascii.eqb c backslash).
    + destruct s as [| e r1]; [discriminate |]. simpl in Hn.
      repeat match type of H with
             | (if Ascii.eqb e ?k then prepend _ (parse_chars r1) else _) = _ =>
                 destruct (Ascii.eqb e k);
                 [apply Hrec in H; [simpl; lia | lia] |]
             end.
      destruct (Ascii.eqb e "u"); [| discriminate].
      destruct r1 as [| h1 [| h2 [| h3 [| h4 r5]]]]; try discriminate.
      simpl in Hn.
      destruct (hex4 h1 h2 h3 h4) as [cu |]; [| discriminate].
      destruct (is_high_surrogate cu).
      * destruct r5 as [| b [| u [| g1 [| g2 [| g3 [| g4 r11]]]]]];
          try (apply Hrec in H; [simpl in *; lia | simpl in *; lia]).
        destruct (low_surrogate_escape b u g1 g2 g3 g4);
          (apply Hrec in H; [simpl in *; lia | simpl in *; lia]).
      * apply Hrec in H; [simpl in *; lia | simpl in *; lia].
    + destruct (N_of_ascii c <? 32)%N; [discriminate |].
      apply Hrec in H; [simpl; lia | lia].
Qed.

Lemma parse_chars_length (s x r : string) :
  parse_chars s = Some (x, r) -> (String.length r < String.length s)%nat.
Proof. apply (parse_chars_length_upto (String.length s)). lia. Qed.

Lemma parse_member_length (pv : string -> option (jsval * string)) (s : string)
    (m : string * jsval) (r : string) :
  (forall t v r', pv t = Some (v, r') -> (String.length r' < String.length t)%nat) ->
  parse_member pv s = Some (m, r) -> (String.length r < String.length s)%nat.
Proof.
  intros Hpv. unfold parse_member.
  destruct (skip_ws s) as [| c r0] eqn:Es; [discriminate |].
  apply skip_ws_cons_length in Es.
  destruct (Ascii.eqb c dquote); [| discriminate].
  destruct (parse_chars r0) as [[k r1] |] eqn:Ek; [| discriminate].
  apply parse_chars_length in Ek.
  destruct (after_char ":" r1) as [r2 |] eqn:Ec; [| discriminate].
  apply after_char_length in Ec.
  destruct (pv r2) as [[v r3] |] eqn:Ev; [| discriminate].
  apply Hpv in Ev. intros [= _ <-]. lia.
Qed.

Lemma parse_consumes (f : nat) :
  consumes (parse_value f) /\ consumes (parse_more_elements f)
  /\ consumes (parse_more_members f).
Proof.
  induction f as [| f (IHv & IHe & IHm)]; [repeat split; intros s a r H; discriminate |].
  split; [| split]; intros s a r H; cbn [parse_value parse_more_elements parse_more_members] in H;
    destruct (skip_ws s) as [| c t] eqn:Es; try discriminate;
    apply skip_ws_cons_length in Es.
  - destruct (Ascii.eqb c "n"); [apply expect_length in H; lia |].
    destruct (Ascii.eqb c "t"); [apply expect_length in H; lia |].
    destruct (Ascii.eqb c "f"); [apply expect_length in H; lia |].
    destruct (Ascii.eqb c dquote).
    { destruct (parse_chars t) as [[x r1] |] eqn:Ek; [| discriminate].
      apply parse_chars_length in Ek. injection H as _ <-. lia. }
    destruct (Ascii.eqb c "[").
    { destruct (after_char "]" t) as [r1 |] eqn:Ec.
      - apply after_char_length in Ec. injection H as _ <-. lia.
      - destruct (parse_value f t) as [[v r1] |] eqn:Ev; [| discriminate].
        destruct (parse_more_elements f r1) as [[vs r2] |] eqn:Ee; [| discriminate].
        apply IHv in Ev. apply IHe in Ee. injection H as _ <-. lia. }
    destruct (Ascii.eqb c "{").
    { destruct (after_char "}" t) as [r1 |] eqn:Ec.
      - apply after_char_length in Ec. injection H as _ <-. lia.
      - destruct (parse_member (parse_value f) t) as [[m r1] |] eqn:Ev; [| discriminate].
        destruct (parse_more_members f r1) as [[ms r2] |] eqn:Ee; [| discriminate].
        apply (parse_member_length _ _ _ _ IHv) in Ev. apply IHm in Ee.
        injection H as _ <-. lia. }
    apply parse_number_length in H. simpl in H. lia.
  - destruct (Ascii.eqb c "]"); [injection H as _ <-; lia |].
    destruct (Ascii.eqb c ","); [| discriminate].
    destruct (parse_value f t) as [[v r1] |] eqn:Ev; [| discriminate].
    destruct (parse_more_elements f r1) as [[vs r2] |] eqn:Ee; [| discriminate].
    apply IHv in Ev. apply IHe in Ee. injection H as _ <-. lia.
  - destruct (Ascii.eqb c "}"); [injection H as _ <-; lia |].
    destruct (Ascii.eqb c ","); [| discriminate].
    destruct (parse_member (parse_value f) t) as [[m r1] |] eqn:Ev; [| discriminate].
    destruct (parse_more_members f r1) as [[ms r2] |] eqn:Ee; [| discriminate].
    apply (parse_member_length _ _ _ _ IHv) in Ev. apply IHm in Ee.
    injection H as _ <-. lia.
Qed.

(** *** The length of the text is enough fuel *)

Lemma parse_member_ext (pv pv' : string -> option (jsval * string)) (s : string) :
  (forall t, (String.length t < String.length s)%nat -> pv t = pv' t) ->
  parse_member pv s = parse_member pv' s.
Proof.
  intros Hpv. unfold parse_member.
  destruct (skip_ws s) as [| c r0] eqn:Es; [reflexivity |].
  apply skip_ws_cons_length in Es.
  destruct (Ascii.eqb c dquote); [| reflexivity].
  destruct (parse_chars r0) as [[k r1] |] eqn:Ek; [| reflexivity].
  apply parse_chars_length in Ek.
  destruct (after_char ":" r1) as [r2 |] eqn:Ec; [| reflexivity].
  apply after_char_length in Ec.
  rewrite (Hpv r2) by lia. reflexivity.
Qed.

Lemma parse_fuel (f : nat) :
  forall (f' : nat) (s : string),
    (String.length s < f)%nat -> (String.length s < f')%nat ->
    parse_value f s = parse_value f' s
    /\ parse_more_elements f s = parse_more_elements f' s
    /\ parse_more_members f s = parse_more_members f' s.
Proof.
  induction f as [| f IH]; intros f' s Hf Hf'; [lia |].
  destruct f' as [| f']; [lia |].
  pose proof (parse_consumes f) as (Cv & Ce & Cm).
  assert (IHv : forall t, (String.length t < String.length s)%nat ->
                          parse_value f t = parse_value f' t).
  { intros t Ht. apply IH; lia. }
  assert (IHe : forall t, (String.length t < String.length s)%nat ->
                          parse_more_elements f t = parse_more_elements f' t).
  { intros t Ht. apply IH; lia. }
  assert (IHm : forall t, (String.length t < String.length s)%nat ->
                          parse_more_members f t = parse_more_members f' t).
  { intros t Ht. apply IH; lia. }
  assert (Hmem : forall t, (String.length t < String.length s)%nat ->
             parse_member (parse_value f) t = parse_member (parse_value f') t).
  { intros t Ht. apply parse_member_ext. intros t' Ht'. apply IHv. lia. }
  cbn [parse_value parse_more_elements parse_more_members].
  destruct (skip_ws s) as [| c t] eqn:Es; [repeat split |].
  apply skip_ws_cons_length in Es.
  split; [| split].
  - rewrite <- (IHv t Es), <- (Hmem t Es).
    destruct (parse_value f t) as [[v r1] |] eqn:Ev.
    + apply Cv in Ev. rewrite <- (IHe r1) by lia.
      destruct (parse_member (parse_value f) t) as [[m r2] |] eqn:Em; [| reflexivity].
      apply (parse_member_length _ _ _ _ Cv) in Em.
      rewrite <- (IHm r2) by lia. reflexivity.
    + destruct (parse_member (parse_value f) t) as [[m r2] |] eqn:Em; [| reflexivity].
      apply (parse_member_length _ _ _ _ Cv) in Em.
      rewrite <- (IHm r2) by lia. reflexivity.
  - rewrite <- (IHv t Es).
    destruct (parse_value f t) as [[v r1] |] eqn:Ev; [| reflexivity].
    apply Cv in Ev. rewrite <- (IHe r1) by lia. reflexivity.
  - rewrite <- (Hmem t Es).
    destruct (parse_member (parse_value f) t) as [[m r2] |] eqn:Em; [| reflexivity].
    apply (parse_member_length _ _ _ _ Cv) in Em.
    rewrite <- (IHm r2) by lia. reflexivity.
Qed.

(** [parse] does not depend on the fuel it starts with: a text that is
    refused is refused for its syntax. *)
Theorem parse_any_fuel (f : nat) (text : string) :
  (String.length text < f)%nat ->
  parse text = match parse_value f text with
               | Some (v, rest) => if all_ws rest then Some v else None
               | None => None
               end.
Proof.
  intros Hf. unfold parse.
  destruct (parse_fuel (S (String.length text)) f text ltac:(lia) Hf) as (-> & _).
  reflexivity.
Qed.

End JsonFacts.

(* ===================================================================== *)
(** ** The typed values survive the trip through JSON *)
(* ===================================================================== *)

Module CodecFacts.
Import Json JsonText JsonFacts Codec.

Lemma plain_json_of_vote (v : Vote) : plain (json_of_vote v).
Proof. destruct v; constructor. Qed.

Lemma plain_json_of_note (n : TeamMemberNote) : plain (json_of_note n).
Proof.
  destruct n as [[a |] [b |] [c |]]; unfold json_of_note; cbn [member name note vote app];
    (constructor;
     [apply (bool_decide_unpack (NoDup _)); vm_compute; exact I
     | repeat constructor; apply plain_json_of_vote]).
Qed.

Lemma note_of_json_of_note (n : TeamMemberNote) : note_of_json (json_of_note n) = Some n.
Proof.
  destruct n as [[a |] [b |] [[] |]]; reflexivity.
Qed.

Lemma notes_of_members_map (l : list (string * TeamMemberNote)) :
  notes_of_members (map (fun kn => (fst kn, json_of_note (snd kn))) l) = Some l.
Proof.
  induction l as [| [k n] l IH]; [reflexivity |].
  cbn [map notes_of_members fst snd]. rewrite note_of_json_of_note, IH. reflexivity.
Qed.

Lemma teamNotes_of_json_of_teamNotes (m : gmap string TeamMemberNote) :
  teamNotes_of_json (json_of_teamNotes m) = Some m.
Proof.
  unfold teamNotes_of_json, json_of_teamNotes.
  rewrite notes_of_members_map. f_equal. apply list_to_map_to_list.
Qed.

Lemma plain_json_of_teamNotes (m : gmap string TeamMemberNote) :
  plain (json_of_teamNotes m).
Proof.
  unfold json_of_teamNotes. constructor.
  - rewrite map_map. cbn [fst]. apply NoDup_fst_map_to_list.
  - apply Forall_map. apply Forall_forall. intros kn _. apply plain_json_of_note.
Qed.

Lemma plain_json_of_entry (e : DressEntry) : plain (json_of_entry e).
Proof.
  unfold json_of_entry. constructor.
  - apply (bool_decide_unpack (NoDup _)). vm_compute. exact I.
  - apply List.Forall_cons; [constructor |].
    apply List.Forall_cons; [constructor |].
    apply List.Forall_cons; [constructor |].
    apply List.Forall_cons; [destruct (image e); constructor |].
    apply List.Forall_cons; [apply plain_json_of_teamNotes | constructor].
Qed.

Lemma entry_of_json_of_entry (e : DressEntry) : entry_of_json (json_of_entry e) = Some e.
Proof.
  destruct e as [i loc p im tn]. unfold json_of_entry, entry_of_json.
  cbn [Types.id location price image teamNotes].
  match goal with
  | |- context [obj_get "id" ?l] =>
      change (length l =? 5)%nat with true;
      change (obj_get "id" l) with (Some (JStr i));
      change (obj_get "location" l) with (Some (JStr loc));
      change (obj_get "price" l) with (Some (JStr p));
      change (obj_get "image" l) with (Some (json_of_image im));
      change (obj_get "teamNotes" l) with (Some (json_of_teamNotes tn))
  end.
  cbv iota. rewrite teamNotes_of_json_of_teamNotes.
  destruct im; reflexivity.
Qed.

Lemma entries_of_items_map (l : list DressEntry) :
  entries_of_items (map json_of_entry l) = Some l.
Proof.
  induction l as [| e l IH]; [reflexivity |].
  cbn [map entries_of_items]. rewrite entry_of_json_of_entry, IH. reflexivity.
Qed.

Lemma entries_of_json_of_entries (l : list DressEntry) :
  entries_of_json (json_of_entries l) = Some l.
Proof. apply entries_of_items_map. Qed.

Lemma plain_json_of_entries (l : list DressEntry) : plain (json_of_entries l).
Proof.
  constructor. apply Forall_map. apply Forall_forall. intros e _.
  apply plain_json_of_entry.
Qed.

Lemma plain_json_of_SyncData (d : SyncData) : plain (json_of_SyncData d).
Proof.
  unfold json_of_SyncData. constructor.
  - apply (bool_decide_unpack (NoDup _)). vm_compute. exact I.
  - apply List.Forall_cons; [apply plain_json_of_entries |].
    apply List.Forall_cons; [constructor | constructor].
Qed.

(** The text [save] writes parses to the snapshot it was written from. *)
Lemma parse_stringify_SyncData (d : SyncData) :
  parse (stringify (json_of_SyncData d)) = Some (json_of_SyncData d).
Proof. apply parse_stringify, plain_json_of_SyncData. Qed.

(** The text is never empty. *)
Lemma stringify_nonempty (v : jsval) :
  plain v -> exists c s, stringify v = String c s.
Proof.
  intros Hp. destruct (stringify_head v Hp) as (c & s & Hs & _). eauto.
Qed.

End CodecFacts.

(* ===================================================================== *)
(** ** Persistence: save, load and the storage signal *)
(* ===================================================================== *)

Module PersistenceFacts.
Import Json JsonText JsonFacts Codec CodecFacts Runtime Prog Sessions Samples.

#[local] Arguments stringify : simpl never.
#[local] Arguments json_of_SyncData : simpl never.

Lemma truthy_snapshotText (es : list DressEntry) (now : Z) :
  truthy_string (Some (snapshotText es now)) = true.
Proof.
  unfold snapshotText.
  destruct (stringify_nonempty _ (plain_json_of_SyncData (mkSyncData es now)))
    as (c & s & Hs).
  rewrite Hs. reflexivity.
Qed.

Lemma JSON_parse_snapshotText {St : Type} (es : list DressEntry) (now : Z) :
  @JSON_parse St (snapshotText es now) = ret (json_of_SyncData (mkSyncData es now)).
Proof.
  unfold JSON_parse, snapshotText. rewrite parse_stringify_SyncData. reflexivity.
Qed.

Lemma as_entries_json {St : Type} (es : list DressEntry) :
  @as_entries St (Some (json_of_entries es)) = ret es.
Proof. unfold as_entries. rewrite entries_of_json_of_entries. reflexivity. Qed.

Section App.
Variable TEAM_MEMBERS : list string.
Variable STORAGE_KEY : string.

(** The synthetic signal changes nothing. *)
Lemma handleStorageChange_synthetic (w : World Local.State) :
  run (Local.handleStorageChange STORAGE_KEY (mkStorageEvent None None)) w = (Normal tt, w).
Proof. reflexivity. Qed.

(** What [save] does to the world. *)
Lemma save_run (now : Z) (w : World Local.State) :
  run (Local.save STORAGE_KEY now) w
  = (Normal tt,
     mkWorld (Local.mkState (Local.entries (react w)) false (Some now))
             (<[STORAGE_KEY := snapshotText (Local.entries (react w)) now]> (localStorage w))
             (trace w ++ [DispatchEvent (mkStorageEvent None None);
                          Alert "הנתונים סונכרנו בהצלחה לכל הצוות!"])).
Proof.
  unfold run, Local.save, Local.saveToCloud, mbind, M_bind, bind. simpl.
  unfold alert, emit. cbn [trace react localStorage]. rewrite <- app_assoc. reflexivity.
Qed.

Lemma initialLoad_Local_snapshot (uuid : string) (es : list DressEntry) (now : Z)
    (w : World Local.State) :
  localStorage w !! STORAGE_KEY = Some (snapshotText es now) ->
  run (Local.initialLoad TEAM_MEMBERS STORAGE_KEY uuid) w
  = (Normal tt,
     mkWorld (Local.mkState es (Local.isSyncing (react w)) (Some now))
             (localStorage w) (trace w)).
Proof.
  intros Hslot.
  unfold run, Local.initialLoad, mbind, M_bind, bind, getItem.
  rewrite Hslot, truthy_snapshotText. cbn [default from_option Datatypes.id].
  rewrite JSON_parse_snapshotText.
  unfold json_of_SyncData, prop. cbv beta iota zeta. unfold ret. cbv beta iota zeta.
  cbn [entries lastUpdated].
  change (obj_get "entries" _) with (Some (json_of_entries es)).
  rewrite as_entries_json. reflexivity.
Qed.

Lemma initialLoad_Cloud_snapshot (es : list DressEntry) (now : Z) (w : World Cloud.State) :
  localStorage w !! STORAGE_KEY = Some (snapshotText es now) ->
  run (Cloud.initialLoad STORAGE_KEY) w
  = (Normal tt,
     mkWorld (Cloud.mkState es (Cloud.isSyncing (react w))
                (if decide (now = 0) then None else Some now)
                (Cloud.syncProgress (react w)) (Cloud.cloudStatus (react w)))
             (localStorage w) (trace w)).
Proof.
  intros Hslot.
  unfold run, Cloud.initialLoad, mbind, M_bind, bind, getItem, try_catch.
  rewrite Hslot, truthy_snapshotText. cbn [default from_option Datatypes.id].
  rewrite JSON_parse_snapshotText.
  unfold json_of_SyncData, prop. cbv beta iota zeta. unfold ret. cbv beta iota zeta.
  cbn [entries lastUpdated].
  change (obj_get "entries" _) with (Some (json_of_entries es)).
  change (or_else (Some (json_of_entries es)) (JArr [])) with (Some (json_of_entries es)).
  rewrite as_entries_json.
  destruct now as [| p | p]; reflexivity.
Qed.

(** *** Round trip *)

(** C5.  [save] writes the snapshot of the current entries with the
    time stamp [now] that [Date.now()] gave it, a positive number of
    milliseconds, and ends normally; a new session that loads from the
    same storage gets the same entries in the same order and the same
    time stamp, under the load of either revision. *)
Theorem C5_save_load_round_trip (uuid : string) (now : Z) (w : World Local.State)
    (Hnow : 0 < now) :
  let es := Local.entries (react w) in
  exists w',
    run (Local.save STORAGE_KEY now) w = (Normal tt, w')
    /\ localStorage w' !! STORAGE_KEY = Some (snapshotText es now)
    /\ Local.entries (react w') = es
    /\ Local.lastSyncTime (react w') = Some now
    /\ run (Local.initialLoad TEAM_MEMBERS STORAGE_KEY uuid) (newLocalSession (localStorage w'))
       = (Normal tt,
          mkWorld (Local.mkState es false (Some now)) (localStorage w') [])
    /\ run (Cloud.initialLoad STORAGE_KEY) (newCloudSession (localStorage w'))
       = (Normal tt,
          mkWorld (Cloud.mkState es false (Some now) 0 Cloud.idle) (localStorage w') []).
Proof.
  intros es. eexists. split; [apply save_run |].
  cbn [localStorage react Local.entries Local.lastSyncTime].
  split; [apply lookup_insert_eq |].
  split; [reflexivity |]. split; [reflexivity |]. split.
  - rewrite (initialLoad_Local_snapshot uuid es now); [reflexivity |].
    apply lookup_insert_eq.
  - rewrite (initialLoad_Cloud_snapshot es now) by apply lookup_insert_eq.
    destruct (decide (now = 0)) as [Hzero | _]; [lia | reflexivity].
Qed.

End App.

Lemma C5_save_load_round_trip_witness :
  exists w',
    run (Local.save "dresses" 1700000000000)
        (mkWorld (Local.mkState [Store.newEntry sampleRoster "e2"; sampleEntry] false None) ∅ [])
    = (Normal tt, w')
    /\ Local.entries (react (snd (run (Local.initialLoad sampleRoster "dresses" "u")
                                      (newLocalSession (localStorage w')))))
       = [Store.newEntry sampleRoster "e2"; sampleEntry]
    /\ Cloud.entries (react (snd (run (Cloud.initialLoad "dresses")
                                      (newCloudSession (localStorage w')))))
       = [Store.newEntry sampleRoster "e2"; sampleEntry]
    /\ Cloud.lastSyncTime (react (snd (run (Cloud.initialLoad "dresses")
                                           (newCloudSession (localStorage w')))))
       = Some 1700000000000.
Proof.
  destruct (C5_save_load_round_trip sampleRoster "dresses" "u" 1700000000000
              (mkWorld (Local.mkState [Store.newEntry sampleRoster "e2"; sampleEntry] false None) ∅ [])
              eq_refl)
    as (w' & Hsave & _ & _ & _ & Hlocal & Hcloud).
  exists w'. split; [exact Hsave |].
  rewrite Hlocal, Hcloud. split; [| split]; reflexivity.
Defined.

(** *** Malformed slot content *)

Section Malformed.
Variable TEAM_MEMBERS : list string.
Variable STORAGE_KEY : string.

(** C1 (the code at the failing input).  When the slot holds a non-empty
    text that is not JSON, the first revision's load throws the
    [SyntaxError] of [JSON.parse] out of the effect, with nothing caught
    and nothing logged; the second revision catches it, logs it and leaves
    the state as it was. *)
Theorem C1_malformed_slot (uuid : string) (c : ascii) (text : string)
    (w0 : World Local.State) (w1 : World Cloud.State)
    (Hbad : Json.parse (String c text) = None)
    (Hslot0 : localStorage w0 !! STORAGE_KEY = Some (String c text))
    (Hslot1 : localStorage w1 !! STORAGE_KEY = Some (String c text)) :
  run (Local.initialLoad TEAM_MEMBERS STORAGE_KEY uuid) w0 = (Throw SyntaxError, w0)
  /\ run (Cloud.initialLoad STORAGE_KEY) w1
     = (Normal tt,
        mkWorld (react w1) (localStorage w1)
                (trace w1 ++ [ConsoleError "Parse error" SyntaxError])).
Proof.
  split.
  - unfold run, Local.initialLoad, mbind, M_bind, bind, getItem.
    rewrite Hslot0. cbn [truthy_string default from_option Datatypes.id].
    unfold JSON_parse. rewrite Hbad. reflexivity.
  - unfold run, Cloud.initialLoad, mbind, M_bind, bind, getItem, try_catch.
    rewrite Hslot1. cbn [truthy_string default from_option Datatypes.id].
    unfold JSON_parse. rewrite Hbad. reflexivity.
Qed.

(** The second revision's load never throws, whatever the slot holds. *)
Lemma initialLoad_Cloud_no_throw (w : World Cloud.State) :
  forall e w', run (Cloud.initialLoad STORAGE_KEY) w <> (Throw e, w').
Proof.
  intros e w'. unfold run, Cloud.initialLoad, mbind, M_bind, bind, getItem.
  destruct (truthy_string (localStorage w !! STORAGE_KEY)); [| discriminate].
  unfold try_catch.
  match goal with
  | |- context [match ?body with (_, _) => _ end] => destruct body as [[a | err | v] w1]
  end; discriminate.
Qed.

End Malformed.

Lemma C1_malformed_slot_witness :
  run (Local.initialLoad ["Dana"%string] "dresses" "u") (newLocalSession brokenSlot)
  = (Throw SyntaxError, newLocalSession brokenSlot).
Proof.
  exact (proj1 (C1_malformed_slot ["Dana"%string] "dresses" "u" "{" EmptyString
                  (newLocalSession brokenSlot) (newCloudSession brokenSlot)
                  eq_refl eq_refl eq_refl)).
Defined.

(** Well-formed JSON of another shape is not caught by the second
    revision either: the number goes into the store as it is. *)
Lemma initialLoad_Cloud_wrong_shape :
  fst (run (Cloud.initialLoad "dresses")
           (newCloudSession {[ "dresses"%string := js "{'entries':5}" ]}))
  = IllTyped (Some (JNum 5)).
Proof. vm_compute. reflexivity. Qed.

(** *** The storage signal *)

(** C10.  The signal [save] dispatches to the listeners of its own tab is
    an event without [key] and without [newValue]; the handler leaves the
    world as it is unless the event's key is the storage key and its new
    value is present; so processing that signal changes neither the
    entries nor [lastSyncTime], whatever the state. *)
Theorem C10_synthetic_signal (STORAGE_KEY : string) (now : Z) (w : World Local.State)
    (e : StorageEvent) :
  (exists w',
      run (Local.save STORAGE_KEY now) w = (Normal tt, w')
      /\ trace w' = trace w ++ [DispatchEvent (mkStorageEvent None None);
                                Alert "הנתונים סונכרנו בהצלחה לכל הצוות!"])
  /\ (key e <> Some STORAGE_KEY \/ newValue e = None ->
      run (Local.handleStorageChange STORAGE_KEY e) w = (Normal tt, w))
  /\ run (Local.handleStorageChange STORAGE_KEY (mkStorageEvent None None)) w = (Normal tt, w)
  /\ run (Local.dispatchEvent STORAGE_KEY (mkStorageEvent None None)) w
     = (Normal tt,
        mkWorld (react w) (localStorage w)
                (trace w ++ [DispatchEvent (mkStorageEvent None None)])).
Proof.
  split; [| split; [| split]].
  - eexists. split; [apply save_run | reflexivity].
  - intros [Hkey | Hval]; unfold run, Local.handleStorageChange.
    + rewrite bool_decide_eq_false_2 by exact Hkey. reflexivity.
    + rewrite Hval. rewrite andb_false_r. reflexivity.
  - reflexivity.
  - reflexivity.
Qed.

End PersistenceFacts.

(* ===================================================================== *)
(** ** The Remote Mirror pass *)
(* ===================================================================== *)

Module MirrorFacts.
Import Json Codec Runtime Prog Sessions Mirror Samples PersistenceFacts.

#[local] Arguments stringify : simpl never.
#[local] Arguments json_of_SyncData : simpl never.
#[local] Arguments Cloud.percent : simpl never.
#[local] Arguments Cloud.partsFor : simpl never.

Lemma run_bind {St A B : Type} (c : M St A) (k : A -> M St B) (w : World St) :
  run (c ≫= k) w
  = match run c w with
    | (Normal a, w') => run (k a) w'
    | (Throw e, w') => (Throw e, w')
    | (IllTyped v, w') => (IllTyped v, w')
    end.
Proof. reflexivity. Qed.

Lemma withProgress_twice (p q : Z) (s : Cloud.State) :
  withProgress q (withProgress p s) = withProgress q s.
Proof. reflexivity. Qed.

(** One iteration. *)
Lemma iteration_run (n i : nat) (entry : DressEntry) (ok : bool) (w : World Cloud.State) :
  run (Cloud.setSyncProgress (Cloud.percent i n);;
       Cloud.generateContent ok MODEL (Cloud.partsFor i n entry)) w
  = (if ok then Normal tt else Throw RequestError,
     mkWorld (withProgress (Cloud.percent i n) (react w)) (localStorage w)
             (trace w ++ block n i entry ok)).
Proof.
  destruct w as [s ls t]. destruct ok; unfold run, block;
    cbv [mbind M_bind bind Cloud.setSyncProgress Cloud.generateContent modify emit throw
         react localStorage trace withProgress];
    rewrite <- !app_assoc; reflexivity.
Qed.

Lemma loop_run (remote : nat -> bool) (n : nat) (l : list DressEntry) :
  forall (i : nat) (w : World Cloud.State),
  exists p,
    run (loop remote n i l) w
    = (if all_ok remote i (length l) then Normal tt else Throw RequestError,
       mkWorld (withProgress p (react w)) (localStorage w)
               (trace w ++ blocks remote n i (take (reached remote i (length l)) l))).
Proof.
  induction l as [| entry rest IH]; intros i w.
  - exists (Cloud.syncProgress (react w)). destruct w as [[] ? ?].
    unfold run, loop. cbn. rewrite app_nil_r. reflexivity.
  - unfold loop in *. cbn [for_each length all_ok reached].
    rewrite run_bind, iteration_run.
    destruct (remote i) eqn:Hi.
    + match goal with
      | |- context [run (for_each ?body (S i) rest) ?w1] =>
          destruct (IH (S i) w1) as [p Hp]; rewrite Hp
      end.
      exists p. cbn [react localStorage trace andb take blocks].
      rewrite withProgress_twice, Hi, <- app_assoc. reflexivity.
    + exists (Cloud.percent i n). cbn [andb take blocks].
      rewrite Hi, app_nil_r. reflexivity.
Qed.

Lemma reached_all_ok (remote : nat -> bool) (i m : nat) :
  all_ok remote i m = true -> reached remote i m = m.
Proof.
  revert i. induction m as [| m IH]; intros i H; [reflexivity |].
  cbn [all_ok reached] in *. apply andb_true_iff in H as [H1 H2].
  rewrite H1, (IH _ H2). reflexivity.
Qed.

Lemma reached_le (remote : nat -> bool) (i m : nat) : (reached remote i m <= m)%nat.
Proof.
  revert i. induction m as [| m IH]; intros i; [reflexivity |].
  cbn [reached]. destruct (remote i); [specialize (IH (S i)) |]; lia.
Qed.

(** The first failure decides how far the loop gets. *)
Lemma reached_first_failure (remote : nat -> bool) (i m k : nat) :
  (k < m)%nat -> remote (i + k)%nat = false ->
  (forall j, (j < k)%nat -> remote (i + j)%nat = true) ->
  reached remote i m = S k /\ all_ok remote i m = false.
Proof.
  revert i k. induction m as [| m IH]; intros i k Hk Hfail Hok; [lia |].
  cbn [reached all_ok]. destruct k as [| k].
  - rewrite Nat.add_0_r in Hfail. rewrite Hfail. split; reflexivity.
  - pose proof (Hok 0%nat ltac:(lia)) as H0. rewrite Nat.add_0_r in H0. rewrite H0.
    destruct (IH (S i) k ltac:(lia)) as [Hr Ha].
    + rewrite <- Hfail. f_equal. lia.
    + intros j Hj. rewrite <- (Hok (S j) ltac:(lia)). f_equal. lia.
    + rewrite Hr, Ha. split; reflexivity.
Qed.

Lemma requests_app (a b : list Effect) : requests (a ++ b) = requests a ++ requests b.
Proof.
  induction a as [| e a IH]; [reflexivity |].
  destruct e; cbn [app requests]; rewrite ?IH; reflexivity.
Qed.

Lemma requests_blocks (remote : nat -> bool) (n i : nat) (l : list DressEntry) :
  requests (blocks remote n i l) = requestsFor n i l.
Proof.
  revert i. induction l as [| e l IH]; intros i; [reflexivity |].
  cbn [blocks requestsFor]. rewrite requests_app, IH.
  unfold block. destruct (remote i); reflexivity.
Qed.

Lemma run_try_catch {St A : Type} (body : M St A) (h : Error -> M St A) (w : World St) :
  run (try_catch body h) w
  = match run body w with
    | (Throw e, w') => run (h e) w'
    | r => r
    end.
Proof. reflexivity. Qed.

Lemma run_finally {St A : Type} (block0 : M St A) (cleanup : M St unit) (w : World St) :
  run (finally block0 cleanup) w
  = match run block0 w with
    | (IllTyped v, w') => (IllTyped v, w')
    | (r, w') =>
        match run cleanup w' with
        | (Normal _, w'') => (r, w'')
        | (Throw e, w'') => (Throw e, w'')
        | (IllTyped v, w'') => (IllTyped v, w'')
        end
    end.
Proof. reflexivity. Qed.

Section Pass.
Variable STORAGE_KEY : string.

(** The whole pass over a store that is not empty: it always ends
    normally; the snapshot is in the slot; the trace and the final state
    depend on whether a call failed. *)
Lemma saveToCloud_run (now : Z) (remote : nat -> bool) (w : World Cloud.State) :
  let es := Cloud.entries (react w) in
  let n := length es in
  es <> [] ->
  run (Cloud.saveToCloud STORAGE_KEY now remote) w
  = (Normal tt,
     mkWorld
       (if all_ok remote 0 n
        then Cloud.mkState es false (Some now) 0 Cloud.success
        else Cloud.mkState es false (Cloud.lastSyncTime (react w)) 0 Cloud.error)
       (<[STORAGE_KEY := snapshotText es now]> (localStorage w))
       (trace w ++ [Progress 0]
          ++ blocks remote n 0 (take (reached remote 0 n) es)
          ++ (if all_ok remote 0 n
              then [SetTimeout 3000; Alert successNotice; Progress 0]
              else [ConsoleError "Cloud Sync Error" RequestError;
                    Alert failureNotice; Progress 0]))).
Proof.
  intros es n Hne. subst es n.
  destruct w as [[es sy lt sp cs] ls t]. cbn [react Cloud.entries Cloud.lastSyncTime
    localStorage trace] in *.
  destruct (loop_run remote (length es) es 0
              (mkWorld (Cloud.mkState es true lt 0 Cloud.loading)
                       (<[STORAGE_KEY := snapshotText es now]> ls)
                       (t ++ [Progress 0]))) as [p Hp].
  unfold run at 1. unfold Cloud.saveToCloud.
  cbv [mbind M_bind bind mret M_ret ret gets modify emit setItem alert console_error
       finally try_catch throw Cloud.setIsSyncing Cloud.setCloudStatus
       Cloud.setSyncProgress Cloud.setLastSyncTime
       react localStorage trace Cloud.entries Cloud.isSyncing Cloud.lastSyncTime
       Cloud.syncProgress Cloud.cloudStatus lastUpdated].
  replace (length es =? 0)%nat with false
    by (destruct es; [contradiction | reflexivity]).
  cbv iota beta.
  change (stringify (json_of_SyncData (mkSyncData es now))) with (snapshotText es now).
  match goal with
  | |- context [for_each ?b 0%nat es ?w1] =>
      change (for_each b 0%nat es w1) with (run (loop remote (length es) 0 es) w1)
  end.
  rewrite Hp. cbn [react localStorage trace withProgress Cloud.entries Cloud.isSyncing
                     Cloud.lastSyncTime Cloud.cloudStatus].
  destruct (all_ok remote 0 (length es)); cbv iota beta;
    rewrite <- ?app_assoc; reflexivity.
Qed.

End Pass.

Lemma alerts_app (a b : list Effect) : alerts (a ++ b) = alerts a ++ alerts b.
Proof.
  induction a as [| e a IH]; [reflexivity |].
  destruct e; cbn [app alerts]; rewrite ?IH; reflexivity.
Qed.

Lemma alerts_blocks (remote : nat -> bool) (n i : nat) (l : list DressEntry) :
  alerts (blocks remote n i l) = [].
Proof.
  revert i. induction l as [| e l IH]; intros i; [reflexivity |].
  cbn [blocks]. rewrite alerts_app, IH. unfold block. destruct (remote i); reflexivity.
Qed.

Lemma blocks_app (remote : nat -> bool) (n i : nat) (l1 l2 : list DressEntry) :
  blocks remote n i (l1 ++ l2)
  = blocks remote n i l1 ++ blocks remote n (i + length l1) l2.
Proof.
  revert i. induction l1 as [| e l1 IH]; intros i.
  - cbn [app blocks length]. rewrite Nat.add_0_r. reflexivity.
  - cbn [app blocks length]. rewrite IH, <- app_assoc.
    replace (S i + length l1)%nat with (i + S (length l1))%nat by lia. reflexivity.
Qed.

(** C4.  When the call for the entry at index [k] (the [k+1]-th entry)
    fails and all earlier calls succeed, the pass ends normally with the
    store's entries untouched; the requests it issued are exactly those
    for the first [k+1] entries, one each and in order, so none for a
    later entry; the only notice shown is the failure notice; and the
    local slot holds the snapshot written at the start of the pass. *)
Theorem C4_abort_on_failure (STORAGE_KEY : string) (now : Z) (remote : nat -> bool)
    (w : World Cloud.State) (k : nat)
    (Hk : (k < length (Cloud.entries (react w)))%nat)
    (Hfail : remote k = false)
    (Hok : forall j, (j < k)%nat -> remote j = true) :
  let es := Cloud.entries (react w) in
  let n := length es in
  exists w' added,
    run (Cloud.saveToCloud STORAGE_KEY now remote) w = (Normal tt, w')
    /\ trace w' = trace w ++ added
    /\ added = [Progress 0] ++ blocks remote n 0 (take (S k) es)
               ++ [ConsoleError "Cloud Sync Error" RequestError;
                   Alert failureNotice; Progress 0]
    /\ requests added = requestsFor n 0 (take (S k) es)
    /\ length (requests added) = S k
    /\ alerts added = [failureNotice]
    /\ localStorage w' !! STORAGE_KEY = Some (snapshotText es now)
    /\ Cloud.entries (react w') = es
    /\ Cloud.lastSyncTime (react w') = Cloud.lastSyncTime (react w)
    /\ Cloud.cloudStatus (react w') = Cloud.error
    /\ Cloud.isSyncing (react w') = false.
Proof.
  intros es n.
  assert (Hne : es <> []) by (subst es; intros E; rewrite E in Hk; simpl in Hk; lia).
  destruct (reached_first_failure remote 0 n k Hk Hfail Hok) as [Hr Ha].
  pose proof (saveToCloud_run STORAGE_KEY now remote w Hne) as Hrun.
  cbv zeta in Hrun. fold es n in Hrun. rewrite Hr, Ha in Hrun.
  eexists. eexists. split; [exact Hrun |].
  cbn [trace localStorage react Cloud.entries Cloud.lastSyncTime Cloud.cloudStatus
       Cloud.isSyncing].
  split; [reflexivity |]. split; [reflexivity |].
  assert (Hreq : requests ([Progress 0] ++ blocks remote n 0 (take (S k) es)
                           ++ [ConsoleError "Cloud Sync Error" RequestError;
                               Alert failureNotice; Progress 0])
                 = requestsFor n 0 (take (S k) es)).
  { rewrite !requests_app, requests_blocks. cbn [requests app]. apply app_nil_r. }
  split; [exact Hreq |]. split.
  - rewrite Hreq.
    assert (Hlen : forall l i, length (requestsFor n i l) = length l).
    { induction l as [| e l IH]; intros i; [reflexivity |].
      cbn [requestsFor length]. rewrite IH. reflexivity. }
    rewrite Hlen, length_take. subst n es. lia.
  - split.
    + rewrite !alerts_app, alerts_blocks. reflexivity.
    + split; [apply lookup_insert_eq |]. repeat split.
Qed.

Lemma C4_abort_on_failure_witness :
  exists w' added,
    run (Cloud.saveToCloud "dresses" 1700000000000 (fun i => negb (i =? 1)%nat))
        (sampleWorld [sampleEntry; sampleEntry; sampleEntry])
    = (Normal tt, w')
    /\ trace w' = added
    /\ length (requests added) = 2%nat
    /\ alerts added = [failureNotice].
Proof.
  destruct (C4_abort_on_failure "dresses" 1700000000000 (fun i => negb (i =? 1)%nat)
              (sampleWorld [sampleEntry; sampleEntry; sampleEntry]) 1
              ltac:(simpl; lia) eq_refl
              ltac:(intros j Hj; assert (j = 0%nat) as -> by lia; reflexivity))
    as (w' & added & Hrun & Htrace & _ & _ & Hlen & Halerts & _).
  exists w', added. repeat split; assumption.
Defined.

(** C8 (as amended).  For every entry the loop reaches (index [i] of [n]),
    the progress value [Math.round(((i + 1) / n) * 100)] is reported
    immediately before that entry's call is issued, after exactly the
    calls for the earlier entries and before the call's own outcome. *)
Theorem C8_progress_before_call (STORAGE_KEY : string) (now : Z) (remote : nat -> bool)
    (w : World Cloud.State) (i : nat) (entry : DressEntry)
    (Hi : take (reached remote 0 (length (Cloud.entries (react w))))
               (Cloud.entries (react w)) !! i = Some entry) :
  let es := Cloud.entries (react w) in
  let n := length es in
  exists w' pre post,
    run (Cloud.saveToCloud STORAGE_KEY now remote) w = (Normal tt, w')
    /\ trace w' = trace w ++ pre
                  ++ [Progress (Cloud.percent i n);
                      GenerateContent MODEL (Cloud.partsFor i n entry);
                      if remote i then Resolved else Rejected]
                  ++ post
    /\ requests pre = requestsFor n 0 (take i es).
Proof.
  intros es n.
  assert (Hne : es <> []).
  { subst es. intros E. rewrite E in Hi. rewrite take_nil in Hi. discriminate. }
  pose proof (saveToCloud_run STORAGE_KEY now remote w Hne) as Hrun.
  cbv zeta in Hrun. fold es n in Hrun, Hi.
  set (r := reached remote 0 n) in *.
  pose proof (take_drop_middle _ _ _ Hi) as Hsplit.
  assert (Hlen : length (take i (take r es)) = i).
  { apply length_take_le. apply lookup_lt_Some in Hi. lia. }
  assert (Htake : take i (take r es) = take i es).
  { rewrite take_take. f_equal. apply lookup_lt_Some in Hi.
    rewrite length_take in Hi. lia. }
  eexists. exists ([Progress 0] ++ blocks remote n 0 (take i es)). eexists.
  split; [exact Hrun |]. cbn [trace]. split.
  - rewrite <- Hsplit at 1. rewrite Htake.
    rewrite blocks_app. cbn [blocks]. rewrite length_take_le
      by (apply lookup_lt_Some in Hi; rewrite length_take in Hi; lia).
    cbn [Nat.add]. unfold block at 1. rewrite <- !app_assoc. cbn [app].
    reflexivity.
  - rewrite requests_app, requests_blocks. reflexivity.
Qed.

Lemma C8_progress_before_call_witness :
  exists w' pre post,
    run (Cloud.saveToCloud "dresses" 1700000000000 (fun _ => true))
        (sampleWorld [sampleEntry; sampleEntry])
    = (Normal tt, w')
    /\ trace w' = pre ++ [Progress 100;
                          GenerateContent MODEL (Cloud.partsFor 1 2 sampleEntry);
                          Resolved] ++ post
    /\ length (requests pre) = 1%nat.
Proof.
  destruct (C8_progress_before_call "dresses" 1700000000000 (fun _ => true)
              (sampleWorld [sampleEntry; sampleEntry]) 1 sampleEntry eq_refl)
    as (w' & pre & post & Hrun & Htrace & Hreq).
  exists w', pre, post. split; [exact Hrun |]. split.
  - exact Htrace.
  - rewrite Hreq. reflexivity.
Defined.

(** The claim as the specification words it fails: the progress value of
    an entry is shown before the call for that entry is even issued, so
    before it has completed (with one entry: 100 percent while the only
    upload is still to start). *)
Lemma C8_counterexample :
  ~ (forall (STORAGE_KEY : string) (now : Z) (remote : nat -> bool)
            (w w' : World Cloud.State) (i : nat) (entry : DressEntry)
            (pre post : list Effect),
        run (Cloud.saveToCloud STORAGE_KEY now remote) w = (Normal tt, w') ->
        Cloud.entries (react w) !! i = Some entry ->
        trace w' = trace w ++ pre
                   ++ Progress (Cloud.percent i (length (Cloud.entries (react w)))) :: post ->
        (i < completed pre)%nat).
Proof.
  intros H.
  pose proof (saveToCloud_run "dresses" 1700000000000 (fun _ => true)
                (sampleWorld [sampleEntry]) ltac:(discriminate)) as Hrun.
  specialize (H "dresses"%string 1700000000000 (fun _ => true)
                (sampleWorld [sampleEntry]) _ 0%nat sampleEntry [Progress 0] _
                Hrun eq_refl eq_refl).
  simpl in H. lia.
Qed.

End MirrorFacts.

(* ===================================================================== *)
(** ** The size of the compressed image *)
(* ===================================================================== *)

Module ImageFacts.
Import Number Tolerance NumberFacts Cloud.
Local Open Scope Z_scope.

(** C7.  For an image of [img_width] by [img_height] (each an unsigned
    long): if the longer side exceeds 600, the canvas has that side at
    exactly 600, whichever axis it is, and the other side within one
    pixel (plus the rounding of two double operations) of what keeps the
    aspect ratio, never above 600; if both sides are at most 600 the
    canvas has the size of the image; and [compressImage] resolves with
    the JPEG encoding of that canvas at quality 0.5, the input being
    only read. *)
Theorem C7_image_normalizer (base64 : string) (img_width img_height : Z)
    (Hw : 0 <= img_width < 2 ^ 32) (Hh : 0 <= img_height < 2 ^ 32) :
  let c := canvasFor base64 img_width img_height in
  (600 < Z.max img_width img_height ->
     Z.max (canvas_width c) (canvas_height c) = 600
     /\ (img_height < img_width ->
         canvas_width c = 600
         /\ (Qabs (inject_Z (canvas_height c)
                   - 600 * inject_Z img_height / inject_Z img_width) < 1 + delta)%Q)
     /\ (img_width <= img_height ->
         canvas_height c = 600
         /\ (Qabs (inject_Z (canvas_width c)
                   - 600 * inject_Z img_width / inject_Z img_height) < 1 + delta)%Q))
  /\ (Z.max img_width img_height <= 600 ->
      canvas_width c = img_width /\ canvas_height c = img_height)
  /\ source c = base64
  /\ (forall (decode : string -> option (Z * Z)) (toDataURL : Canvas -> string -> Q -> string),
        decode base64 = Some (img_width, img_height) ->
        compressImage decode toDataURL base64 = Some (toDataURL c "image/jpeg" (1 # 2)%Q)).
Proof.
  intros c.
  assert (Hlast : forall (decode : string -> option (Z * Z))
                         (toDataURL : Canvas -> string -> Q -> string),
             decode base64 = Some (img_width, img_height) ->
             compressImage decode toDataURL base64
             = Some (toDataURL c "image/jpeg" (1 # 2)%Q)).
  { intros decode toDataURL Hd. unfold compressImage. rewrite Hd. reflexivity. }
  assert (Hsrc : source c = base64).
  { subst c. unfold canvasFor. destruct (scaledSize img_width img_height). reflexivity. }
  refine (conj _ (conj _ (conj Hsrc Hlast))); clear Hlast Hsrc;
    subst c; unfold canvasFor, scaledSize, MAX_SIZE.
  - intros Hmax.
    destruct (img_width >? img_height) eqn:Hgt;
      [apply Z.gtb_lt in Hgt | rewrite Z.gtb_ltb in Hgt; apply Z.ltb_ge in Hgt].
    + assert (Hbig : 600 < img_width) by lia.
      rewrite (proj2 (Z.gtb_lt _ _) Hbig). cbn [canvas_width canvas_height].
      destruct (ToUint32_scaled img_width img_height Hbig ltac:(lia)) as [Hr Ha].
      cbv zeta in Hr, Ha. change (ToUint32 (inject_Z 600)) with 600.
      split; [lia |]. split.
      * intros _. split; [reflexivity | exact Ha].
      * intros Hle. lia.
    + assert (Hbig : 600 < img_height) by lia.
      rewrite (proj2 (Z.gtb_lt _ _) Hbig). cbn [canvas_width canvas_height].
      destruct (ToUint32_scaled img_height img_width Hbig ltac:(lia)) as [Hr Ha].
      cbv zeta in Hr, Ha. change (ToUint32 (inject_Z 600)) with 600.
      split; [lia |]. split.
      * intros Hlt. lia.
      * intros _. split; [reflexivity | exact Ha].
  - intros Hmax.
    assert (H1 : (img_width >? 600) = false)
      by (rewrite Z.gtb_ltb; apply Z.ltb_ge; lia).
    assert (H2 : (img_height >? 600) = false)
      by (rewrite Z.gtb_ltb; apply Z.ltb_ge; lia).
    rewrite H1, H2.
    destruct (img_width >? img_height); cbn [canvas_width canvas_height];
      rewrite !ToUint32_inject by lia; split; reflexivity.
Qed.

(** The two sizes the specification names: 4000 x 2000 becomes 600 x 300,
    and 300 x 200 stays as it is. *)
Lemma C7_image_normalizer_witness :
  (canvas_width (canvasFor "data:image/png;base64,AAAA" 4000 2000) = 600
   /\ canvas_height (canvasFor "data:image/png;base64,AAAA" 4000 2000) = 300)
  /\ (canvas_width (canvasFor "data:image/png;base64,AAAA" 300 200) = 300
      /\ canvas_height (canvasFor "data:image/png;base64,AAAA" 300 200) = 200).
Proof.
  split.
  - pose proof (C7_image_normalizer "data:image/png;base64,AAAA" 4000 2000
                  ltac:(lia) ltac:(lia)) as H.
    destruct (proj1 H ltac:(lia)) as (_ & Hlandscape & _).
    destruct (Hlandscape ltac:(lia)) as [Hcw _].
    split; [exact Hcw | vm_compute; reflexivity].
  - exact (proj1 (proj2 (C7_image_normalizer "data:image/png;base64,AAAA" 300 200
                           ltac:(lia) ltac:(lia))) ltac:(lia)).
Defined.

End ImageFacts.

(* ===================================================================== *)
(** ** Laws of the Entry Store updaters *)
(* ===================================================================== *)

Module StoreLaws.
Import Runtime Prog Store Ops StoreFacts.

Lemma merge_entry_twice (e : DressEntry) (u : DressEntryUpdates) :
  merge_entry (merge_entry e u) u = merge_entry e u.
Proof.
  destruct u as [[i |] [lo |] [p |] [im |] [tn |]]; reflexivity.
Qed.

Lemma merge_entry_id (e : DressEntry) (u : DressEntryUpdates) :
  new_id u = None -> id (merge_entry e u) = id e.
Proof. intros H. unfold merge_entry. cbn [id]. rewrite H. reflexivity. Qed.

Lemma updateEntry_ids (i : string) (u : DressEntryUpdates) (l : list DressEntry) :
  new_id u = None -> map id (updateEntry i u l) = map id l.
Proof.
  intros Hu. unfold updateEntry. rewrite map_map. apply map_ext. intros e.
  destruct (String.eqb (id e) i); [apply merge_entry_id; exact Hu | reflexivity].
Qed.

Lemma updateMemberNote_ids (i m : string) (u : NoteUpdates) (l : list DressEntry) :
  map id (updateMemberNote i m u l) = map id l.
Proof.
  unfold updateMemberNote. rewrite map_map. apply map_ext. intros e.
  destruct (String.eqb (id e) i); reflexivity.
Qed.

Lemma removeDress_ids (i : string) (l : list DressEntry) :
  map id (removeDress true i l) = List.filter (fun x => negb (String.eqb x i)) (map id l).
Proof.
  unfold removeDress. induction l as [| e l IH]; [reflexivity |].
  simpl. destruct (String.eqb (id e) i); simpl; rewrite IH; reflexivity.
Qed.

Lemma updateMemberNote_absent (i m : string) (u : NoteUpdates) (l : list DressEntry) :
  (forall e, e ∈ l -> id e <> i) -> updateMemberNote i m u l = l.
Proof.
  intros Habs. unfold updateMemberNote.
  induction l as [| e l IH]; [reflexivity |].
  simpl. rewrite IH by (intros e' He'; apply Habs; right; exact He').
  destruct (String.eqb (id e) i) eqn:E; [| reflexivity].
  apply String.eqb_eq in E. exfalso. apply (Habs e); [left | exact E].
Qed.

(** With distinct identifiers, [updateMemberNote] changes the one entry
    that has the identifier. *)
Lemma updateMemberNote_at (l : list DressEntry) (i : nat) (e : DressEntry) (m : string)
    (u : NoteUpdates) :
  NoDup (map id l) -> l !! i = Some e ->
  updateMemberNote (id e) m u l
  = <[i := mkDressEntry (id e) (location e) (price e) (image e)
             (<[m := merge_note (teamNotes e !! m) u]> (teamNotes e))]> l.
Proof.
  revert i. induction l as [| a l IH]; intros i Hnd Hi; [discriminate |].
  simpl in Hnd. apply NoDup_cons in Hnd as [Ha Hnd].
  destruct i as [| i]; simpl in Hi.
  - injection Hi as ->. unfold updateMemberNote. simpl.
    rewrite String.eqb_refl. f_equal.
    apply (updateMemberNote_absent (id e) m u l).
    intros e' He' Heq. apply Ha. rewrite <- Heq.
    apply list_elem_of_In, in_map, list_elem_of_In. exact He'.
  - unfold updateMemberNote. simpl.
    destruct (String.eqb (id a) (id e)) eqn:E.
    + apply String.eqb_eq in E. exfalso. apply Ha. rewrite E.
      apply list_elem_of_In, in_map, list_elem_of_In.
      apply list_elem_of_lookup. exists i. exact Hi.
    + f_equal. apply IH; assumption.
Qed.

(** X1.  [updateEntry]: an identifier that no entry has changes nothing;
    applying the same update twice is applying it once; updates of
    different entries that leave the identifiers alone can be made in
    either order; and such an update keeps the number, the order and the
    identifiers of the entries. *)
Theorem updateEntry_laws (l : list DressEntry) (id1 id2 : string)
    (u1 u2 : DressEntryUpdates) :
  ((forall e, e ∈ l -> id e <> id1) -> updateEntry id1 u1 l = l)
  /\ updateEntry id1 u1 (updateEntry id1 u1 l) = updateEntry id1 u1 l
  /\ (id1 <> id2 -> new_id u1 = None -> new_id u2 = None ->
      updateEntry id1 u1 (updateEntry id2 u2 l) = updateEntry id2 u2 (updateEntry id1 u1 l))
  /\ length (updateEntry id1 u1 l) = length l
  /\ (new_id u1 = None -> map id (updateEntry id1 u1 l) = map id l).
Proof.
  split; [| split; [| split; [| split]]].
  - intros Habs. unfold updateEntry.
    induction l as [| e l IH]; [reflexivity |].
    simpl. rewrite IH by (intros e' He'; apply Habs; right; exact He').
    destruct (String.eqb (id e) id1) eqn:E; [| reflexivity].
    apply String.eqb_eq in E. exfalso. apply (Habs e); [left | exact E].
  - unfold updateEntry. rewrite map_map. apply map_ext. intros e.
    destruct (String.eqb (id e) id1) eqn:E; cbn beta iota.
    + destruct (String.eqb (id (merge_entry e u1)) id1);
        [apply merge_entry_twice | reflexivity].
    + rewrite E. reflexivity.
  - intros Hne H1 H2. unfold updateEntry. rewrite !map_map. apply map_ext. intros e.
    destruct (String.eqb (id e) id2) eqn:E2; destruct (String.eqb (id e) id1) eqn:E1;
      cbn beta iota.
    + apply String.eqb_eq in E1, E2. congruence.
    + rewrite (merge_entry_id e u2 H2), ?E1, ?E2. reflexivity.
    + rewrite (merge_entry_id e u1 H1), ?E1, ?E2. reflexivity.
    + rewrite ?E1, ?E2. reflexivity.
  - unfold updateEntry. apply length_map.
  - apply updateEntry_ids.
Qed.

Lemma removeDress_elem (i : string) (l : list DressEntry) (e : DressEntry) :
  e ∈ removeDress true i l <-> e ∈ l /\ id e <> i.
Proof.
  unfold removeDress. rewrite !list_elem_of_In, List.filter_In.
  rewrite Bool.negb_true_iff, String.eqb_neq. reflexivity.
Qed.

Lemma removeDress_absent (i : string) (l : list DressEntry) :
  (forall e, e ∈ l -> id e <> i) -> removeDress true i l = l.
Proof.
  intros Habs. unfold removeDress. induction l as [| e l IH]; [reflexivity |].
  simpl. destruct (String.eqb (id e) i) eqn:E.
  - apply String.eqb_eq in E. exfalso. apply (Habs e); [left | exact E].
  - simpl. f_equal. apply IH. intros e' He'. apply Habs. right. exact He'.
Qed.

Lemma removeDress_sublist (i : string) (l : list DressEntry) :
  removeDress true i l `sublist_of` l.
Proof.
  unfold removeDress. induction l as [| e l IH]; [constructor |].
  simpl. destruct (negb (String.eqb (id e) i)); [apply sublist_skip | apply sublist_cons];
    exact IH.
Qed.

(** X2.  [removeDress], once confirmed, keeps exactly the entries with
    another identifier, in their order; declined, it keeps everything.
    An identifier that no entry has removes nothing, removing twice is
    removing once, and two removals can be made in either order. *)
Theorem removeDress_laws (l : list DressEntry) (id1 id2 : string) :
  (forall e, e ∈ removeDress true id1 l <-> e ∈ l /\ id e <> id1)
  /\ removeDress true id1 l `sublist_of` l
  /\ removeDress false id1 l = l
  /\ ((forall e, e ∈ l -> id e <> id1) <-> removeDress true id1 l = l)
  /\ removeDress true id1 (removeDress true id1 l) = removeDress true id1 l
  /\ removeDress true id1 (removeDress true id2 l)
     = removeDress true id2 (removeDress true id1 l).
Proof.
  split; [intros e; apply removeDress_elem |].
  split; [apply removeDress_sublist |]. split; [reflexivity |].
  split; [| split].
  - split; [apply removeDress_absent |].
    intros Heq e He. rewrite <- Heq in He. apply removeDress_elem in He. apply He.
  - apply removeDress_absent. intros e He. apply removeDress_elem in He. apply He.
  - unfold removeDress. induction l as [| e l IH]; [reflexivity |].
    simpl. destruct (String.eqb (id e) id2) eqn:E2; destruct (String.eqb (id e) id1) eqn:E1;
      simpl; rewrite ?E1, ?E2; simpl; rewrite IH; reflexivity.
Qed.

(** X3.  A new entry goes last in the first revision and first in the
    second one.  Deleting it again undoes the addition: what is left is
    what deleting its identifier leaves of the entries there were, which
    is all of them when the identifier was not in use; an older entry
    with the same identifier goes with it. *)
Theorem add_then_remove (TEAM_MEMBERS : list string) (uuid : string)
    (w0 : World Local.State) (w1 : World Cloud.State) :
  let es0 := Local.entries (react w0) in
  let es1 := Cloud.entries (react w1) in
  run (Local.addNewDress TEAM_MEMBERS uuid) w0
  = (Normal tt, Page.localWith w0 (es0 ++ [newEntry TEAM_MEMBERS uuid]))
  /\ run (Cloud.addNewDress TEAM_MEMBERS uuid) w1
     = (Normal tt, Page.cloudWith w1 (newEntry TEAM_MEMBERS uuid :: es1))
  /\ run (Local.addNewDress TEAM_MEMBERS uuid;; Local.removeDress true uuid) w0
     = (Normal tt, Page.localWith w0 (removeDress true uuid es0))
  /\ run (Cloud.addNewDress TEAM_MEMBERS uuid;; Cloud.removeDress true uuid) w1
     = (Normal tt, Page.cloudWith w1 (removeDress true uuid es1))
  /\ ((forall e, e ∈ es0 -> id e <> uuid) ->
      run (Local.addNewDress TEAM_MEMBERS uuid;; Local.removeDress true uuid) w0
      = (Normal tt, w0))
  /\ ((forall e, e ∈ es1 -> id e <> uuid) ->
      run (Cloud.addNewDress TEAM_MEMBERS uuid;; Cloud.removeDress true uuid) w1
      = (Normal tt, w1)).
Proof.
  intros es0 es1.
  assert (Hlocal : run (Local.addNewDress TEAM_MEMBERS uuid;; Local.removeDress true uuid) w0
                   = (Normal tt, Page.localWith w0 (removeDress true uuid es0))).
  { unfold run, mbind, M_bind, bind. cbn.
    unfold Local.removeDress, Local.setEntries, modify, removeDress.
    cbn [react localStorage trace Local.entries Local.isSyncing Local.lastSyncTime].
    unfold Page.localWith, Page.withLocalEntries. fold es0.
    rewrite List.filter_app. cbn [List.filter id newEntry].
    rewrite String.eqb_refl. cbn [negb]. rewrite app_nil_r. reflexivity. }
  assert (Hcloud : run (Cloud.addNewDress TEAM_MEMBERS uuid;; Cloud.removeDress true uuid) w1
                   = (Normal tt, Page.cloudWith w1 (removeDress true uuid es1))).
  { unfold run, mbind, M_bind, bind. cbn.
    unfold Cloud.removeDress, Cloud.setEntries, modify, removeDress.
    cbn [react localStorage trace Cloud.entries Cloud.isSyncing Cloud.lastSyncTime
         Cloud.syncProgress Cloud.cloudStatus].
    unfold Page.cloudWith, Page.withCloudEntries. fold es1.
    cbn [List.filter id newEntry].
    rewrite String.eqb_refl. reflexivity. }
  split; [reflexivity |]. split; [reflexivity |].
  split; [exact Hlocal |]. split; [exact Hcloud |]. split.
  - intros Hfresh. rewrite Hlocal, (removeDress_absent _ _ Hfresh).
    subst es0. destruct w0 as [[] ? ?]. reflexivity.
  - intros Hfresh. rewrite Hcloud, (removeDress_absent _ _ Hfresh).
    subst es1. destruct w1 as [[] ? ?]. reflexivity.
Qed.

End StoreLaws.

(* ===================================================================== *)
(** ** The rendered page *)
(* ===================================================================== *)

Module PageFacts.
Import Runtime Prog Store Ops Page StoreFacts StoreLaws.

(** *** Rendering *)

Lemma renderAll_Shown {A B : Type} (f : A -> Rendered B) (l : list A) (ys : list B) :
  renderAll f l = Shown ys <-> Forall2 (fun x y => f x = Shown y) l ys.
Proof.
  revert ys. induction l as [| x l IH]; intros ys; simpl.
  - split.
    + intros [= <-]. constructor.
    + intros H. inversion H. reflexivity.
  - destruct (f x) as [y | e] eqn:Ex.
    + destruct (renderAll f l) as [ys' | e] eqn:Er.
      * split.
        -- intros [= <-]. constructor; [exact Ex | apply IH; reflexivity].
        -- intros H. inversion H as [| ? y0 ? ys0 Hy Hys]; subst.
           rewrite Ex in Hy. injection Hy as <-.
           apply IH in Hys. injection Hys as <-. reflexivity.
      * split; [discriminate |].
        intros H. inversion H as [| ? y0 ? ys0 Hy Hys]; subst.
        apply IH in Hys. discriminate.
    + split; [discriminate |].
      intros H. inversion H as [| ? y0 ? ys0 Hy Hys]; subst.
      rewrite Ex in Hy. discriminate.
Qed.

Lemma renderAll_Crashed {A B : Type} (f : A -> Rendered B) (l : list A) (e : Error) :
  renderAll f l = Crashed e -> exists x, x ∈ l /\ f x = Crashed e.
Proof.
  induction l as [| x l IH]; simpl; [discriminate |].
  destruct (f x) as [y | e0] eqn:Ex.
  - destruct (renderAll f l) as [ys' | e1] eqn:Er; [discriminate |].
    intros [= ->]. destruct (IH eq_refl) as (x0 & Hin & Hx0).
    exists x0. split; [right; exact Hin | exact Hx0].
  - intros [= ->]. exists x. split; [left | exact Ex].
Qed.

Lemma renderAll_total {A B : Type} (f : A -> Rendered B) (l : list A) :
  (forall x, x ∈ l -> exists y, f x = Shown y) -> exists ys, renderAll f l = Shown ys.
Proof.
  intros H. destruct (renderAll f l) as [ys | e] eqn:E; [eexists; reflexivity |].
  apply renderAll_Crashed in E as (x & Hin & Hx).
  destruct (H x Hin) as [y Hy]. congruence.
Qed.

Section Component.
Context {St : Type}.
Variable TEAM_MEMBERS : list string.
Variable updateEntry : string -> DressEntryUpdates -> M St unit.
Variable updateMemberNote : string -> string -> NoteUpdates -> M St unit.
Variable handleImageUpload : string -> option string -> M St unit.
Variable removeDress : bool -> string -> M St unit.
Variable addNewDress : string -> M St unit.
Variable entriesOf : St -> list DressEntry.
Variable withEntries : list DressEntry -> St -> St.
Variable process : string -> option string.
Variable add : DressEntry -> list DressEntry -> list DressEntry.

Local Abbreviation memberRow := (Page.memberRow updateMemberNote).
Local Abbreviation card :=
  (Page.card TEAM_MEMBERS updateEntry updateMemberNote handleImageUpload removeDress).
Local Abbreviation page :=
  (Page.page TEAM_MEMBERS updateEntry updateMemberNote handleImageUpload removeDress).
Local Abbreviation interact :=
  (Page.interact TEAM_MEMBERS updateEntry updateMemberNote handleImageUpload removeDress
                 addNewDress entriesOf).
Local Abbreviation session :=
  (Page.session TEAM_MEMBERS updateEntry updateMemberNote handleImageUpload removeDress
                addNewDress entriesOf).
Local Abbreviation acts := (Page.acts entriesOf withEntries).
Local Abbreviation put f w :=
  (mkWorld (withEntries (f (entriesOf (react w))) (react w)) (localStorage w) (trace w)).

Lemma memberRow_Shown (e : DressEntry) (m : string) (r : MemberRow) :
  memberRow e m = Shown r ->
  exists data,
    teamNotes e !! m = Some data
    /\ label r = m
    /\ upLit r = bool_decide (vote data = Some VoteUp)
    /\ downLit r = bool_decide (vote data = Some VoteDown)
    /\ noteValue r = note data
    /\ onUp r = updateMemberNote (id e) m (toggled (vote data) VoteUp)
    /\ onDown r = updateMemberNote (id e) m (toggled (vote data) VoteDown)
    /\ onNote r = (fun text => updateMemberNote (id e) m (mkNoteUpdates (Some text) None)).
Proof.
  unfold Page.memberRow. destruct (teamNotes e !! m) as [data |]; [| discriminate].
  intros [= <-]. exists data. repeat split.
Qed.

Lemma card_Shown_iff (e : DressEntry) :
  (exists c, card e = Shown c) <-> covers TEAM_MEMBERS e.
Proof.
  unfold Page.card, covers. split.
  - intros [c Hc] k Hk.
    destruct (renderAll (memberRow e) TEAM_MEMBERS) as [cells | err] eqn:E; [| discriminate].
    apply renderAll_Shown in E.
    apply list_elem_of_lookup in Hk as [j Hj].
    destruct (Forall2_lookup_l _ _ _ _ _ E Hj) as (r & _ & Hr).
    apply memberRow_Shown in Hr as (data & Hdata & _). eexists; exact Hdata.
  - intros Hcov.
    destruct (renderAll_total (memberRow e) TEAM_MEMBERS) as [cells Hcells].
    { intros k Hk. destruct (Hcov k Hk) as [data Hdata].
      unfold Page.memberRow. rewrite Hdata. eexists; reflexivity. }
    rewrite Hcells. eexists; reflexivity.
Qed.

Lemma page_Shown_iff (es : list DressEntry) :
  (exists cards, page es = Shown cards) <-> Forall (covers TEAM_MEMBERS) es.
Proof.
  unfold Page.page. split.
  - intros [cards Hc]. apply renderAll_Shown in Hc.
    apply List.Forall_forall. intros e He. apply list_elem_of_In in He.
    apply list_elem_of_lookup in He as [i Hi].
    destruct (Forall2_lookup_l _ _ _ _ _ Hc Hi) as (c & _ & Hcard).
    apply card_Shown_iff. exists c. exact Hcard.
  - intros Hall. apply renderAll_total. intros e He.
    apply card_Shown_iff. rewrite List.Forall_forall in Hall. apply Hall.
    apply list_elem_of_In. exact He.
Qed.

Lemma page_lookup (es : list DressEntry) (cards : list Card) (i : nat) (c : Card) :
  page es = Shown cards -> cards !! i = Some c ->
  exists e, es !! i = Some e /\ card e = Shown c.
Proof.
  unfold Page.page. intros Hp Hc. apply renderAll_Shown in Hp.
  destruct (Forall2_lookup_r _ _ _ _ _ Hp Hc) as (e & He & Hcard).
  exists e. split; assumption.
Qed.

Lemma card_fields (e : DressEntry) (c : Card) :
  card e = Shown c ->
  card_key c = id e
  /\ locationValue c = location e
  /\ priceValue c = price e
  /\ picture c = (if truthy_string (image e) then image e else None)
  /\ onDelete c = (fun confirm => removeDress confirm (id e))
  /\ onLocation c
     = (fun text => updateEntry (id e) (mkDressEntryUpdates None (Some text) None None None))
  /\ onPrice c
     = (fun text => updateEntry (id e) (mkDressEntryUpdates None None (Some text) None None))
  /\ onFile c = (fun file => handleImageUpload (id e) file)
  /\ onDeleteImage c
     = updateEntry (id e) (mkDressEntryUpdates None None None (Some None) None)
  /\ Forall2 (fun m r => memberRow e m = Shown r) TEAM_MEMBERS (rows c).
Proof.
  unfold Page.card.
  destruct (renderAll (memberRow e) TEAM_MEMBERS) as [cells | err] eqn:E; [| discriminate].
  intros [= <-]. cbn. apply renderAll_Shown in E. repeat split. exact E.
Qed.

Hypothesis get_with : forall l s, entriesOf (withEntries l s) = l.
Hypothesis with_get : forall s, withEntries (entriesOf s) s = s.
Hypothesis with_with : forall a b s, withEntries a (withEntries b s) = withEntries a s.
Hypothesis add_perm : forall e l, add e l ≡ₚ e :: l.
Hypothesis updateEntry_acts : forall i u, acts (updateEntry i u) (Store.updateEntry i u).
Hypothesis updateMemberNote_acts :
  forall i m u, acts (updateMemberNote i m u) (Store.updateMemberNote i m u).
Hypothesis removeDress_acts : forall b i, acts (removeDress b i) (Store.removeDress b i).
Hypothesis addNewDress_acts :
  forall uuid, acts (addNewDress uuid) (add (newEntry TEAM_MEMBERS uuid)).
Hypothesis handleImageUpload_run :
  forall i file w,
    run (handleImageUpload i file) w
    = match file ≫= process with
      | Some img =>
          (Normal tt,
           put (Store.updateEntry i (mkDressEntryUpdates None None None (Some (Some img)) None)) w)
      | None => (Normal tt, w)
      end.

(** One interaction on a page that renders: it ends normally, touches
    neither the storage nor the trace, and changes the entries by one of
    the four updaters, with arguments taken from the page. *)
Lemma interact_step (c : Click) (w : World St) :
  Forall (covers TEAM_MEMBERS) (entriesOf (react w)) ->
  exists es',
    run (interact c) w
    = (Normal tt, mkWorld (withEntries es' (react w)) (localStorage w) (trace w))
    /\ (es' = entriesOf (react w)
        \/ (exists i u, new_id u = None /\ new_teamNotes u = None
                        /\ es' = Store.updateEntry i u (entriesOf (react w)))
        \/ (exists i m u, m ∈ TEAM_MEMBERS
                          /\ es' = Store.updateMemberNote i m u (entriesOf (react w)))
        \/ (exists b i, es' = Store.removeDress b i (entriesOf (react w)))
        \/ (exists uuid, c = PressAdd uuid
                         /\ es' = add (newEntry TEAM_MEMBERS uuid) (entriesOf (react w)))).
Proof using All.
  intros Hcov. set (es := entriesOf (react w)) in *.
  assert (Hsame : exists es',
             (Normal tt, w)
             = (Normal tt, mkWorld (withEntries es' (react w)) (localStorage w) (trace w))
             /\ es' = es).
  { exists es. split; [| reflexivity]. subst es. rewrite with_get. destruct w; reflexivity. }
  destruct (proj2 (page_Shown_iff es) Hcov) as [cards Hcards].
  unfold Page.interact, run. unfold mbind, M_bind, bind, gets. fold es. rewrite Hcards.
  destruct c as [uuid | i confirm | i text | i text | i file | i | i j | i j | i j text];
    cbn [Page.control].
  - (* PressAdd *)
    exists (add (newEntry TEAM_MEMBERS uuid) es).
    split; [apply addNewDress_acts |]. do 4 right. exists uuid. split; reflexivity.
  - destruct (cards !! i) as [c0 |] eqn:Ec; cbn.
    + destruct (page_lookup _ _ _ _ Hcards Ec) as (e & He & Hcard).
      destruct (card_fields _ _ Hcard) as (_ & _ & _ & _ & -> & _).
      exists (Store.removeDress confirm (id e) es).
      split; [apply removeDress_acts |]. do 3 right. left. eexists _, _. reflexivity.
    + destruct Hsame as (es' & H1 & H2). exists es'. split; [exact H1 | left; exact H2].
  - destruct (cards !! i) as [c0 |] eqn:Ec; cbn.
    + destruct (page_lookup _ _ _ _ Hcards Ec) as (e & He & Hcard).
      destruct (card_fields _ _ Hcard) as (_ & _ & _ & _ & _ & -> & _).
      eexists. split; [apply updateEntry_acts |]. right. left.
      eexists _, _. split; [| split; [| reflexivity]]; reflexivity.
    + destruct Hsame as (es' & H1 & H2). exists es'. split; [exact H1 | left; exact H2].
  - destruct (cards !! i) as [c0 |] eqn:Ec; cbn.
    + destruct (page_lookup _ _ _ _ Hcards Ec) as (e & He & Hcard).
      destruct (card_fields _ _ Hcard) as (_ & _ & _ & _ & _ & _ & -> & _).
      eexists. split; [apply updateEntry_acts |]. right. left.
      eexists _, _. split; [| split; [| reflexivity]]; reflexivity.
    + destruct Hsame as (es' & H1 & H2). exists es'. split; [exact H1 | left; exact H2].
  - destruct (cards !! i) as [c0 |] eqn:Ec; cbn.
    + destruct (page_lookup _ _ _ _ Hcards Ec) as (e & He & Hcard).
      destruct (card_fields _ _ Hcard) as (_ & _ & _ & _ & _ & _ & _ & -> & _).
      pose proof (handleImageUpload_run (id e) file w) as Hrun. unfold run in Hrun.
      rewrite Hrun. destruct (file ≫= process) as [img |].
      * eexists. split; [reflexivity |]. right. left. eexists _, _. split; [| split; [| reflexivity]]; reflexivity.
      * destruct Hsame as (es' & H1 & H2). exists es'. split; [exact H1 | left; exact H2].
    + destruct Hsame as (es' & H1 & H2). exists es'. split; [exact H1 | left; exact H2].
  - destruct (cards !! i) as [c0 |] eqn:Ec; cbn.
    + destruct (page_lookup _ _ _ _ Hcards Ec) as (e & He & Hcard).
      destruct (card_fields _ _ Hcard) as (_ & _ & _ & _ & _ & _ & _ & _ & -> & _).
      destruct (picture c0).
      * eexists. split; [apply updateEntry_acts |]. right. left.
        eexists _, _. split; [| split; [| reflexivity]]; reflexivity.
      * destruct Hsame as (es' & H1 & H2). exists es'. split; [exact H1 | left; exact H2].
    + destruct Hsame as (es' & H1 & H2). exists es'. split; [exact H1 | left; exact H2].
  - destruct (cards !! i) as [c0 |] eqn:Ec; cbn.
    + destruct (page_lookup _ _ _ _ Hcards Ec) as (e & He & Hcard).
      destruct (card_fields _ _ Hcard) as (_ & _ & _ & _ & _ & _ & _ & _ & _ & Hrows).
      destruct (rows c0 !! j) as [r |] eqn:Er; cbn.
      * destruct (Forall2_lookup_r _ _ _ _ _ Hrows Er) as (m & Hm & Hrow).
        apply memberRow_Shown in Hrow as (data & _ & _ & _ & _ & _ & -> & _).
        eexists. split; [apply updateMemberNote_acts |]. do 2 right. left.
        eexists _, m, _. split; [| reflexivity].
        apply list_elem_of_lookup. exists j. exact Hm.
      * destruct Hsame as (es' & H1 & H2). exists es'. split; [exact H1 | left; exact H2].
    + destruct Hsame as (es' & H1 & H2). exists es'. split; [exact H1 | left; exact H2].
  - destruct (cards !! i) as [c0 |] eqn:Ec; cbn.
    + destruct (page_lookup _ _ _ _ Hcards Ec) as (e & He & Hcard).
      destruct (card_fields _ _ Hcard) as (_ & _ & _ & _ & _ & _ & _ & _ & _ & Hrows).
      destruct (rows c0 !! j) as [r |] eqn:Er; cbn.
      * destruct (Forall2_lookup_r _ _ _ _ _ Hrows Er) as (m & Hm & Hrow).
        apply memberRow_Shown in Hrow as (data & _ & _ & _ & _ & _ & _ & -> & _).
        eexists. split; [apply updateMemberNote_acts |]. do 2 right. left.
        eexists _, m, _. split; [| reflexivity].
        apply list_elem_of_lookup. exists j. exact Hm.
      * destruct Hsame as (es' & H1 & H2). exists es'. split; [exact H1 | left; exact H2].
    + destruct Hsame as (es' & H1 & H2). exists es'. split; [exact H1 | left; exact H2].
  - destruct (cards !! i) as [c0 |] eqn:Ec; cbn.
    + destruct (page_lookup _ _ _ _ Hcards Ec) as (e & He & Hcard).
      destruct (card_fields _ _ Hcard) as (_ & _ & _ & _ & _ & _ & _ & _ & _ & Hrows).
      destruct (rows c0 !! j) as [r |] eqn:Er; cbn.
      * destruct (Forall2_lookup_r _ _ _ _ _ Hrows Er) as (m & Hm & Hrow).
        apply memberRow_Shown in Hrow as (data & _ & _ & _ & _ & _ & _ & _ & ->).
        eexists. split; [apply updateMemberNote_acts |]. do 2 right. left.
        eexists _, m, _. split; [| reflexivity].
        apply list_elem_of_lookup. exists j. exact Hm.
      * destruct Hsame as (es' & H1 & H2). exists es'. split; [exact H1 | left; exact H2].
    + destruct Hsame as (es' & H1 & H2). exists es'. split; [exact H1 | left; exact H2].
Qed.

(** What the controls of one team member's row do. *)
Lemma press_run (i j : nat) (e : DressEntry) (m : string) (data : TeamMemberNote)
    (w : World St) :
  Forall (covers TEAM_MEMBERS) (entriesOf (react w)) ->
  entriesOf (react w) !! i = Some e -> TEAM_MEMBERS !! j = Some m ->
  teamNotes e !! m = Some data ->
  run (interact (PressUp i j)) w
  = (Normal tt, put (Store.updateMemberNote (id e) m (toggled (vote data) VoteUp)) w)
  /\ run (interact (PressDown i j)) w
     = (Normal tt, put (Store.updateMemberNote (id e) m (toggled (vote data) VoteDown)) w)
  /\ forall text,
       run (interact (EditNote i j text)) w
       = (Normal tt,
          put (Store.updateMemberNote (id e) m (mkNoteUpdates (Some text) None)) w).
Proof using All.
  intros Hcov He Hm Hdata. set (es := entriesOf (react w)) in *.
  destruct (proj2 (page_Shown_iff es) Hcov) as [cards Hcards].
  pose proof Hcards as Hall. unfold Page.page in Hall. apply renderAll_Shown in Hall.
  destruct (Forall2_lookup_l _ _ _ _ _ Hall He) as (c0 & Hc0 & Hcard).
  destruct (card_fields _ _ Hcard) as (_ & _ & _ & _ & _ & _ & _ & _ & _ & Hrows).
  destruct (Forall2_lookup_l _ _ _ _ _ Hrows Hm) as (r & Hr & Hrow).
  apply memberRow_Shown in Hrow as (data' & Hdata' & _ & _ & _ & _ & Hup & Hdown & Hnote).
  rewrite Hdata in Hdata'. injection Hdata' as <-.
  unfold Page.interact, run. unfold mbind, M_bind, bind, gets. fold es. rewrite Hcards.
  cbn [Page.control]. rewrite Hc0. cbn. rewrite Hr. cbn.
  rewrite Hup, Hdown, Hnote.
  split; [apply updateMemberNote_acts |]. split; [apply updateMemberNote_acts |].
  intros text. apply updateMemberNote_acts.
Qed.

(** The same with distinct identifiers: one entry changes, and in it
    one field of one note. *)
Lemma press_once (es : list DressEntry) (i j : nat) (e : DressEntry) (m : string)
    (data : TeamMemberNote) (w : World St) :
  entriesOf (react w) = es ->
  Forall (covers TEAM_MEMBERS) es -> NoDup (map id es) ->
  es !! i = Some e -> TEAM_MEMBERS !! j = Some m -> teamNotes e !! m = Some data ->
  run (interact (PressUp i j)) w
  = (Normal tt,
     mkWorld (withEntries (<[i := withVote e m data (pressed (vote data) VoteUp)]> es) (react w))
             (localStorage w) (trace w))
  /\ run (interact (PressDown i j)) w
     = (Normal tt,
        mkWorld (withEntries (<[i := withVote e m data (pressed (vote data) VoteDown)]> es)
                             (react w))
                (localStorage w) (trace w))
  /\ forall text,
       run (interact (EditNote i j text)) w
       = (Normal tt,
          mkWorld (withEntries (<[i := withNote e m data text]> es) (react w))
                  (localStorage w) (trace w)).
Proof using All.
  intros Hes Hcov Hnd Hi Hj Hdata. subst es.
  destruct (press_run i j e m data w Hcov Hi Hj Hdata) as (Hup & Hdown & Hnote).
  rewrite Hup, Hdown. rewrite !(updateMemberNote_at _ i e m _ Hnd Hi), Hdata.
  split; [reflexivity |]. split; [reflexivity |].
  intros text. rewrite Hnote, (updateMemberNote_at _ i e m _ Hnd Hi), Hdata. reflexivity.
Qed.

Lemma press_twice (es : list DressEntry) (i j : nat) (e : DressEntry) (m : string)
    (data : TeamMemberNote) (w : World St) :
  entriesOf (react w) = es ->
  Forall (covers TEAM_MEMBERS) es -> NoDup (map id es) ->
  es !! i = Some e -> TEAM_MEMBERS !! j = Some m -> teamNotes e !! m = Some data ->
  run (session [PressUp i j; PressUp i j]) w
  = (Normal tt,
     mkWorld (withEntries
                (<[i := withVote e m data
                          (if bool_decide (vote data = Some VoteUp) then VoteUp else VoteNull)]> es)
                (react w))
             (localStorage w) (trace w))
  /\ run (session [PressUp i j; PressDown i j]) w
     = (Normal tt,
        mkWorld (withEntries (<[i := withVote e m data VoteDown]> es) (react w))
                (localStorage w) (trace w)).
Proof using All.
  intros Hes Hcov Hnd Hi Hj Hdata.
  destruct (press_once es i j e m data w Hes Hcov Hnd Hi Hj Hdata) as (Hup & _ & _).
  set (v1 := pressed (vote data) VoteUp) in *.
  set (e1 := withVote e m data v1) in *.
  set (es1 := <[i := e1]> es) in *.
  set (w1 := mkWorld (withEntries es1 (react w)) (localStorage w) (trace w)) in *.
  assert (Hlen : (i < length es)%nat) by (eapply lookup_lt_Some; exact Hi).
  assert (Hes1 : entriesOf (react w1) = es1) by (subst w1; cbn; apply get_with).
  assert (Hcov1 : Forall (covers TEAM_MEMBERS) es1).
  { subst es1. apply Forall_insert; [exact Hcov |].
    rewrite Forall_lookup in Hcov. specialize (Hcov i e Hi).
    intros k Hk. subst e1. unfold withVote. cbn [teamNotes].
    destruct (decide (m = k)) as [-> | Hne].
    - rewrite lookup_insert_eq. eexists; reflexivity.
    - rewrite lookup_insert_ne by exact Hne. apply Hcov. exact Hk. }
  assert (Hnd1 : NoDup (map id es1)).
  { subst es1. change (map id (<[i := e1]> es)) with (id <$> <[i := e1]> es).
    rewrite list_fmap_insert. change (id e1) with (id e).
    rewrite list_insert_id; [exact Hnd |].
    rewrite list_lookup_fmap, Hi. reflexivity. }
  assert (Hi1 : es1 !! i = Some e1) by (subst es1; apply list_lookup_insert_eq; exact Hlen).
  assert (Hdata1 : teamNotes e1 !! m = Some (mkTeamMemberNote (name data) (note data) (Some v1))).
  { subst e1. unfold withVote. cbn [teamNotes]. apply lookup_insert_eq. }
  destruct (press_once es1 i j e1 m _ w1 Hes1 Hcov1 Hnd1 Hi1 Hj Hdata1) as (Hup1 & Hdown1 & _).
  assert (Hfold : forall v,
             <[i := withVote e1 m (mkTeamMemberNote (name data) (note data) (Some v1)) v]> es1
             = <[i := withVote e m data v]> es).
  { intros v. subst es1. rewrite list_insert_insert_eq. f_equal.
    subst e1. unfold withVote. cbn. rewrite insert_insert_eq. reflexivity. }
  rewrite !Hfold in Hup1, Hdown1.
  assert (Hw : forall l,
             mkWorld (withEntries l (react w1)) (localStorage w1) (trace w1)
             = mkWorld (withEntries l (react w)) (localStorage w) (trace w)).
  { intros l. subst w1. cbn. rewrite with_with. reflexivity. }
  rewrite !Hw in Hup1, Hdown1.
  split.
  - cbn [Page.session]. unfold run in *. unfold mbind, M_bind, bind, mret, M_ret, ret.
    rewrite Hup. fold w1. rewrite Hup1. do 3 f_equal.
    subst v1. unfold pressed. cbn [vote].
    destruct (vote data) as [[] |]; reflexivity.
  - cbn [Page.session]. unfold run in *. unfold mbind, M_bind, bind, mret, M_ret, ret.
    rewrite Hup. fold w1. rewrite Hdown1. do 3 f_equal.
    subst v1. unfold pressed. cbn [vote].
    destruct (vote data) as [[] |]; reflexivity.
Qed.

(** A property of the entries that may depend on the clicks still to
    come, and that every step the page can make carries over, holds at
    the end of a session. *)
Lemma session_run (P : list Click -> list DressEntry -> Prop) :
  (forall cs l, P cs l -> Forall (covers TEAM_MEMBERS) l) ->
  (forall c cs l, P (c :: cs) l -> P cs l) ->
  (forall c cs i u l, new_id u = None -> new_teamNotes u = None ->
                      P (c :: cs) l -> P cs (Store.updateEntry i u l)) ->
  (forall c cs i m u l, m ∈ TEAM_MEMBERS ->
                        P (c :: cs) l -> P cs (Store.updateMemberNote i m u l)) ->
  (forall c cs b i l, P (c :: cs) l -> P cs (Store.removeDress b i l)) ->
  (forall uuid cs l, P (PressAdd uuid :: cs) l ->
                     P cs (add (newEntry TEAM_MEMBERS uuid) l)) ->
  forall (cs : list Click) (w : World St),
    P cs (entriesOf (react w)) ->
    exists es',
      run (session cs) w
      = (Normal tt, mkWorld (withEntries es' (react w)) (localStorage w) (trace w))
      /\ P [] es'.
Proof using All.
  intros Hcov Hsame Hue Humn Hrd Hadd cs.
  induction cs as [| c cs IH]; intros w HP.
  - exists (entriesOf (react w)). split; [| exact HP].
    cbn. unfold run, mret, M_ret, ret. rewrite with_get. destruct w; reflexivity.
  - destruct (interact_step c w (Hcov _ _ HP)) as (es1 & Hrun & Hcase).
    assert (HP1 : P cs es1).
    { destruct Hcase as [-> | [(i & u & H1 & H2 & ->) | [(i & m & u & Hm & ->)
                        | [(b & i & ->) | (uuid & -> & ->)]]]].
      - eapply Hsame; exact HP.
      - eapply Hue; eassumption.
      - eapply Humn; eassumption.
      - eapply Hrd; exact HP.
      - apply Hadd; exact HP. }
    set (w1 := mkWorld (withEntries es1 (react w)) (localStorage w) (trace w)) in *.
    destruct (IH w1) as (es' & Hrun' & HP').
    { subst w1. cbn. rewrite get_with. exact HP1. }
    exists es'. split; [| exact HP'].
    cbn [Page.session]. unfold run in *. unfold mbind, M_bind, bind. rewrite Hrun.
    rewrite Hrun'. subst w1. cbn. rewrite with_with. reflexivity.
Qed.

End Component.

(** *** The two revisions as components *)

Lemma withLocalEntries_get (s : Local.State) : withLocalEntries (Local.entries s) s = s.
Proof. destruct s; reflexivity. Qed.

Lemma withCloudEntries_get (s : Cloud.State) : withCloudEntries (Cloud.entries s) s = s.
Proof. destruct s; reflexivity. Qed.

Lemma append_perm (e : DressEntry) (l : list DressEntry) : l ++ [e] ≡ₚ e :: l.
Proof. symmetry. apply Permutation_cons_append. Qed.

Lemma local_upload_run (i : string) (file : option string) (w : World Local.State) :
  run (Local.handleImageUpload i file) w
  = match file ≫= Some with
    | Some img =>
        (Normal tt,
         mkWorld (withLocalEntries
                    (Store.updateEntry i
                       (mkDressEntryUpdates None None None (Some (Some img)) None)
                       (Local.entries (react w))) (react w))
                 (localStorage w) (trace w))
    | None => (Normal tt, w)
    end.
Proof. destruct file; reflexivity. Qed.

Lemma cloud_upload_run (decode : string -> option (Z * Z))
    (toDataURL : Cloud.Canvas -> string -> Q -> string)
    (i : string) (file : option string) (w : World Cloud.State) :
  run (Cloud.handleImageUpload decode toDataURL i file) w
  = match file ≫= Cloud.compressImage decode toDataURL with
    | Some img =>
        (Normal tt,
         mkWorld (withCloudEntries
                    (Store.updateEntry i
                       (mkDressEntryUpdates None None None (Some (Some img)) None)
                       (Cloud.entries (react w))) (react w))
                 (localStorage w) (trace w))
    | None => (Normal tt, w)
    end.
Proof.
  destruct file as [base64 |]; [| reflexivity].
  unfold Cloud.handleImageUpload. cbn.
  destruct (Cloud.compressImage decode toDataURL base64); reflexivity.
Qed.

Lemma roster_shaped_covers (TEAM_MEMBERS : list string) (e : DressEntry) :
  roster_shaped TEAM_MEMBERS e -> covers TEAM_MEMBERS e.
Proof. intros [H _] k Hk. apply H. exact Hk. Qed.

Lemma Forall_roster_covers (TEAM_MEMBERS : list string) (l : list DressEntry) :
  Forall (roster_shaped TEAM_MEMBERS) l -> Forall (covers TEAM_MEMBERS) l.
Proof. intros H. eapply Forall_impl; [exact H | apply roster_shaped_covers]. Qed.

(** The session lemma for either revision. *)
Lemma localSession_run (TEAM_MEMBERS : list string)
    (P : list Click -> list DressEntry -> Prop) :
  (forall cs l, P cs l -> Forall (covers TEAM_MEMBERS) l) ->
  (forall c cs l, P (c :: cs) l -> P cs l) ->
  (forall c cs i u l, new_id u = None -> new_teamNotes u = None ->
                      P (c :: cs) l -> P cs (Store.updateEntry i u l)) ->
  (forall c cs i m u l, m ∈ TEAM_MEMBERS ->
                        P (c :: cs) l -> P cs (Store.updateMemberNote i m u l)) ->
  (forall c cs b i l, P (c :: cs) l -> P cs (Store.removeDress b i l)) ->
  (forall uuid cs l, P (PressAdd uuid :: cs) l ->
                     P cs (l ++ [newEntry TEAM_MEMBERS uuid])) ->
  forall (cs : list Click) (w : World Local.State),
    P cs (Local.entries (react w)) ->
    exists es',
      run (localSession TEAM_MEMBERS cs) w
      = (Normal tt, mkWorld (withLocalEntries es' (react w)) (localStorage w) (trace w))
      /\ P [] es'.
Proof.
  intros H1 H2 H3 H4 H5 H6. unfold localSession.
  apply (session_run TEAM_MEMBERS _ _ _ _ _ Local.entries withLocalEntries Some
           (fun e l => l ++ [e])); try assumption; try reflexivity.
  - apply withLocalEntries_get.
  - apply append_perm.
  - intros i u w. reflexivity.
  - intros i m u w. reflexivity.
  - intros b i w. reflexivity.
  - intros uuid w. reflexivity.
  - apply local_upload_run.
Qed.

Lemma cloudSession_run (TEAM_MEMBERS : list string)
    (decode : string -> option (Z * Z)) (toDataURL : Cloud.Canvas -> string -> Q -> string)
    (P : list Click -> list DressEntry -> Prop) :
  (forall cs l, P cs l -> Forall (covers TEAM_MEMBERS) l) ->
  (forall c cs l, P (c :: cs) l -> P cs l) ->
  (forall c cs i u l, new_id u = None -> new_teamNotes u = None ->
                      P (c :: cs) l -> P cs (Store.updateEntry i u l)) ->
  (forall c cs i m u l, m ∈ TEAM_MEMBERS ->
                        P (c :: cs) l -> P cs (Store.updateMemberNote i m u l)) ->
  (forall c cs b i l, P (c :: cs) l -> P cs (Store.removeDress b i l)) ->
  (forall uuid cs l, P (PressAdd uuid :: cs) l ->
                     P cs (newEntry TEAM_MEMBERS uuid :: l)) ->
  forall (cs : list Click) (w : World Cloud.State),
    P cs (Cloud.entries (react w)) ->
    exists es',
      run (cloudSession TEAM_MEMBERS decode toDataURL cs) w
      = (Normal tt, mkWorld (withCloudEntries es' (react w)) (localStorage w) (trace w))
      /\ P [] es'.
Proof.
  intros H1 H2 H3 H4 H5 H6. unfold cloudSession.
  apply (session_run TEAM_MEMBERS _ _ _ _ _ Cloud.entries withCloudEntries
           (Cloud.compressImage decode toDataURL) (fun e l => e :: l));
    try assumption; try reflexivity.
  - apply withCloudEntries_get.
  - intros i u w. reflexivity.
  - intros i m u w. reflexivity.
  - intros b i w. reflexivity.
  - intros uuid w. reflexivity.
  - apply cloud_upload_run.
Qed.

(** *** What the page needs to render *)

Lemma page_keys {St : Type} (TEAM_MEMBERS : list string)
    (updateEntry : string -> DressEntryUpdates -> M St unit)
    (updateMemberNote : string -> string -> NoteUpdates -> M St unit)
    (handleImageUpload : string -> option string -> M St unit)
    (removeDress : bool -> string -> M St unit)
    (es : list DressEntry) (cards : list Card) :
  Forall2 (fun e c => card TEAM_MEMBERS updateEntry updateMemberNote handleImageUpload
                           removeDress e = Shown c) es cards ->
  map card_key cards = map id es
  /\ Forall (fun c => map label (rows c) = TEAM_MEMBERS) cards.
Proof.
  induction 1 as [| e c es cards Hc _ [IH1 IH2]]; [split; [reflexivity | constructor] |].
  destruct (card_fields _ _ _ _ _ _ _ Hc) as (Hkey & _ & _ & _ & _ & _ & _ & _ & _ & Hrows).
  split.
  - simpl. rewrite Hkey, IH1. reflexivity.
  - constructor; [| exact IH2].
    clear -Hrows. induction Hrows as [| m r ms rs Hr _ IH]; [reflexivity |].
    apply memberRow_Shown in Hr as (data & _ & Hl & _). simpl. rewrite Hl, IH. reflexivity.
Qed.

(** X4.  The page renders exactly when every entry has a note for every
    team member; otherwise rendering throws a [TypeError] (a property of
    [undefined] is read).  A page that renders has one card per entry,
    keyed by the identifier, in the order of the entries, and in each
    card one row per team member, in the order of the roster. *)
Theorem page_renders {St : Type} (TEAM_MEMBERS : list string)
    (updateEntry : string -> DressEntryUpdates -> M St unit)
    (updateMemberNote : string -> string -> NoteUpdates -> M St unit)
    (handleImageUpload : string -> option string -> M St unit)
    (removeDress : bool -> string -> M St unit)
    (es : list DressEntry) :
  ((exists cards,
       page TEAM_MEMBERS updateEntry updateMemberNote handleImageUpload removeDress es
       = Shown cards)
   <-> Forall (covers TEAM_MEMBERS) es)
  /\ (forall err,
        page TEAM_MEMBERS updateEntry updateMemberNote handleImageUpload removeDress es
        = Crashed err -> err = TypeError)
  /\ (forall cards,
        page TEAM_MEMBERS updateEntry updateMemberNote handleImageUpload removeDress es
        = Shown cards ->
        map card_key cards = map id es
        /\ Forall (fun c => map label (rows c) = TEAM_MEMBERS) cards).
Proof.
  split; [apply page_Shown_iff |]. split.
  - intros err Hcrash. unfold page in Hcrash.
    apply renderAll_Crashed in Hcrash as (e & _ & He). unfold card in He.
    destruct (renderAll (memberRow updateMemberNote e) TEAM_MEMBERS) as [cells | err'] eqn:E;
      [discriminate |].
    injection He as <-.
    apply renderAll_Crashed in E as (m & _ & Hm). unfold memberRow in Hm.
    destruct (teamNotes e !! m); [discriminate |]. injection Hm as <-. reflexivity.
  - intros cards Hshown. unfold page in Hshown. apply renderAll_Shown in Hshown.
    eapply page_keys. exact Hshown.
Qed.

(** *** Sessions *)

Lemma uuids_cons (c : Click) (cs : list Click) : uuids cs `sublist_of` uuids (c :: cs).
Proof. destruct c; simpl; try reflexivity. apply sublist_cons. reflexivity. Qed.

Lemma tidy_skip (TEAM_MEMBERS known : list string) (c : Click) (cs : list Click)
    (l : list DressEntry) :
  tidy TEAM_MEMBERS known (c :: cs) l -> tidy TEAM_MEMBERS known cs l.
Proof.
  intros (H1 & H2 & H3 & H4 & H5 & H6). pose proof (uuids_cons c cs) as Hsub.
  repeat split; try assumption.
  - eapply sublist_NoDup; eassumption.
  - intros u Hu. apply H4. apply (sublist_subseteq _ _ Hsub). exact Hu.
  - intros u Hu. apply H6. apply (sublist_subseteq _ _ Hsub). exact Hu.
Qed.

Lemma tidy_same_ids (TEAM_MEMBERS known : list string) (cs : list Click)
    (l l' : list DressEntry) :
  map id l' = map id l -> Forall (roster_shaped TEAM_MEMBERS) l' ->
  tidy TEAM_MEMBERS known cs l -> tidy TEAM_MEMBERS known cs l'.
Proof.
  intros Hids Hr (H1 & H2 & H3 & H4 & H5 & H6). unfold tidy. rewrite Hids.
  repeat split; assumption.
Qed.

Lemma tidy_removeDress (TEAM_MEMBERS known : list string) (cs : list Click)
    (b : bool) (i : string) (l : list DressEntry) :
  tidy TEAM_MEMBERS known cs l -> tidy TEAM_MEMBERS known cs (removeDress b i l).
Proof.
  intros (H1 & H2 & H3 & H4 & H5 & H6).
  destruct b; [| repeat split; assumption].
  assert (Hsub : forall x, x ∈ map id (removeDress true i l) -> x ∈ map id l).
  { intros x. rewrite removeDress_ids, !list_elem_of_In, List.filter_In. tauto. }
  repeat split; try assumption.
  - apply removeDress_roster_shaped. exact H1.
  - rewrite removeDress_ids. apply NoDup_ListNoDup, List.NoDup_filter, NoDup_ListNoDup.
    exact H2.
  - intros u Hu Hin. apply (H4 u Hu). apply Hsub. exact Hin.
  - intros x Hx. apply H5, Hsub, Hx.
Qed.

Lemma tidy_add (TEAM_MEMBERS known : list string) (cs : list Click) (uuid : string)
    (l l' : list DressEntry) :
  l' ≡ₚ newEntry TEAM_MEMBERS uuid :: l ->
  tidy TEAM_MEMBERS known (PressAdd uuid :: cs) l -> tidy TEAM_MEMBERS known cs l'.
Proof.
  intros Hperm (H1 & H2 & H3 & H4 & H5 & H6). simpl in H3, H4, H6.
  apply NoDup_cons in H3 as [Hu H3].
  assert (Hids : map id l' ≡ₚ uuid :: map id l).
  { change (map id l') with (id <$> l'). rewrite Hperm. reflexivity. }
  unfold tidy. repeat split.
  - rewrite Hperm. constructor; [apply newEntry_roster_shaped | exact H1].
  - rewrite Hids. apply NoDup_cons. split; [| exact H2].
    apply H4. left.
  - exact H3.
  - intros u Hu' Hin. rewrite Hids in Hin. apply elem_of_cons in Hin as [-> | Hin].
    + exact (Hu Hu').
    + apply (H4 u); [right; exact Hu' | exact Hin].
  - intros x Hx. rewrite Hids in Hx. apply elem_of_cons in Hx as [-> | Hx].
    + apply H6. left.
    + apply H5. exact Hx.
  - intros u Hu'. apply H6. right. exact Hu'.
Qed.

Lemma page_session_keeps_roster_local (TEAM_MEMBERS : list string) (cs : list Click)
    (w : World Local.State) :
  Forall (roster_shaped TEAM_MEMBERS) (Local.entries (react w)) ->
  exists es',
    run (localSession TEAM_MEMBERS cs) w = (Normal tt, localWith w es')
    /\ Forall (roster_shaped TEAM_MEMBERS) es'.
Proof.
  intros Hshape.
  apply (localSession_run TEAM_MEMBERS (fun _ l => Forall (roster_shaped TEAM_MEMBERS) l)).
  - intros _ l. apply Forall_roster_covers.
  - intros _ _ l H. exact H.
  - intros _ _ i u l _ Hu H. apply updateEntry_roster_shaped; [| exact H].
    simpl. rewrite Hu. exact I.
  - intros _ _ i m u l Hm H. apply updateMemberNote_roster_shaped; assumption.
  - intros _ _ b i l H. apply removeDress_roster_shaped. exact H.
  - intros uuid _ l H. apply Forall_app. split; [exact H |].
    constructor; [apply newEntry_roster_shaped | constructor].
  - exact Hshape.
Qed.

Lemma page_session_keeps_roster_cloud (TEAM_MEMBERS : list string)
    (decode : string -> option (Z * Z)) (toDataURL : Cloud.Canvas -> string -> Q -> string)
    (cs : list Click) (w : World Cloud.State) :
  Forall (roster_shaped TEAM_MEMBERS) (Cloud.entries (react w)) ->
  exists es',
    run (cloudSession TEAM_MEMBERS decode toDataURL cs) w = (Normal tt, cloudWith w es')
    /\ Forall (roster_shaped TEAM_MEMBERS) es'.
Proof.
  intros Hshape.
  apply (cloudSession_run TEAM_MEMBERS decode toDataURL
           (fun _ l => Forall (roster_shaped TEAM_MEMBERS) l)).
  - intros _ l. apply Forall_roster_covers.
  - intros _ _ l H. exact H.
  - intros _ _ i u l _ Hu H. apply updateEntry_roster_shaped; [| exact H].
    simpl. rewrite Hu. exact I.
  - intros _ _ i m u l Hm H. apply updateMemberNote_roster_shaped; assumption.
  - intros _ _ b i l H. apply removeDress_roster_shaped. exact H.
  - intros uuid _ l H. constructor; [apply newEntry_roster_shaped | exact H].
  - exact Hshape.
Qed.

(** X5.  However the page is used, it stays a page: from entries that
    have the shape of the roster, every sequence of interactions ends
    normally in either revision, touches neither the storage nor any of
    the other state, leaves entries of the shape of the roster, and the
    page still renders. *)
Theorem page_session_keeps_roster (TEAM_MEMBERS : list string)
    (decode : string -> option (Z * Z)) (toDataURL : Cloud.Canvas -> string -> Q -> string)
    (cs : list Click) (w0 : World Local.State) (w1 : World Cloud.State)
    (Hshape0 : Forall (roster_shaped TEAM_MEMBERS) (Local.entries (react w0)))
    (Hshape1 : Forall (roster_shaped TEAM_MEMBERS) (Cloud.entries (react w1))) :
  (exists es',
      run (localSession TEAM_MEMBERS cs) w0 = (Normal tt, localWith w0 es')
      /\ Forall (roster_shaped TEAM_MEMBERS) es'
      /\ exists cards, localPage TEAM_MEMBERS es' = Shown cards)
  /\ (exists es',
         run (cloudSession TEAM_MEMBERS decode toDataURL cs) w1 = (Normal tt, cloudWith w1 es')
         /\ Forall (roster_shaped TEAM_MEMBERS) es'
         /\ exists cards, cloudPage TEAM_MEMBERS decode toDataURL es' = Shown cards).
Proof.
  split.
  - destruct (page_session_keeps_roster_local TEAM_MEMBERS cs w0 Hshape0)
      as (es' & Hrun & Hes').
    exists es'. split; [exact Hrun |]. split; [exact Hes' |].
    apply page_Shown_iff, Forall_roster_covers, Hes'.
  - destruct (page_session_keeps_roster_cloud TEAM_MEMBERS decode toDataURL cs w1 Hshape1)
      as (es' & Hrun & Hes').
    exists es'. split; [exact Hrun |]. split; [exact Hes' |].
    apply page_Shown_iff, Forall_roster_covers, Hes'.
Qed.

Lemma page_session_keeps_roster_witness :
  exists es',
    run (localSession ["Dana"; "Noa"]%string sampleClicks)
        (mkWorld (Local.mkState [newEntry ["Dana"; "Noa"]%string "e1"] false None) ∅ [])
    = (Normal tt,
       mkWorld (Local.mkState es' false None) ∅ [])
    /\ Forall (roster_shaped ["Dana"; "Noa"]%string) es'.
Proof.
  destruct (page_session_keeps_roster ["Dana"; "Noa"]%string
              (fun _ => None) (fun _ _ _ => EmptyString) sampleClicks
              (mkWorld (Local.mkState [newEntry ["Dana"; "Noa"]%string "e1"] false None) ∅ [])
              (mkWorld Cloud.initialState ∅ [])
              (@List.Forall_cons _ _ _ _ (newEntry_roster_shaped _ _) (List.Forall_nil _))
              (List.Forall_nil _))
    as [(es' & Hrun & Hshape & _) _].
  exists es'. split; [exact Hrun | exact Hshape].
Defined.

Lemma startable_tidy (TEAM_MEMBERS : list string) (cs : list Click) (l : list DressEntry) :
  startable TEAM_MEMBERS cs l -> tidy TEAM_MEMBERS (map id l ++ uuids cs) cs l.
Proof.
  intros (H1 & H2 & H3 & H4). repeat split; try assumption.
  - intros x Hx. apply elem_of_app. left. exact Hx.
  - intros u Hu. apply elem_of_app. right. exact Hu.
Qed.

(** X6.  Identifiers are never invented, changed or shared: when the
    entries have distinct identifiers and [crypto.randomUUID()] hands
    out identifiers that are distinct and not in use, then after any
    sequence of interactions, in either revision, the entries still have
    distinct identifiers, each of them one the session started with or
    one that was handed out. *)
Theorem page_session_keeps_ids (TEAM_MEMBERS : list string)
    (decode : string -> option (Z * Z)) (toDataURL : Cloud.Canvas -> string -> Q -> string)
    (cs : list Click) (w0 : World Local.State) (w1 : World Cloud.State)
    (Hstart0 : startable TEAM_MEMBERS cs (Local.entries (react w0)))
    (Hstart1 : startable TEAM_MEMBERS cs (Cloud.entries (react w1))) :
  (exists es',
      run (localSession TEAM_MEMBERS cs) w0 = (Normal tt, localWith w0 es')
      /\ NoDup (map id es')
      /\ forall x, x ∈ map id es' -> x ∈ map id (Local.entries (react w0)) \/ x ∈ uuids cs)
  /\ (exists es',
         run (cloudSession TEAM_MEMBERS decode toDataURL cs) w1 = (Normal tt, cloudWith w1 es')
         /\ NoDup (map id es')
         /\ forall x, x ∈ map id es' -> x ∈ map id (Cloud.entries (react w1)) \/ x ∈ uuids cs).
Proof.
  split.
  - destruct (localSession_run TEAM_MEMBERS
                (tidy TEAM_MEMBERS (map id (Local.entries (react w0)) ++ uuids cs)))
      with (cs := cs) (w := w0) as (es' & Hrun & Hes').
    + intros cs' l H. apply Forall_roster_covers, H.
    + intros c cs' l. apply tidy_skip.
    + intros c cs' i u l Hid Hu H. apply tidy_skip in H.
      eapply tidy_same_ids; [apply updateEntry_ids; exact Hid | | exact H].
      apply updateEntry_roster_shaped; [simpl; rewrite Hu; exact I | apply H].
    + intros c cs' i m u l Hm H. apply tidy_skip in H.
      eapply tidy_same_ids; [apply updateMemberNote_ids | | exact H].
      apply updateMemberNote_roster_shaped; [exact Hm | apply H].
    + intros c cs' b i l H. apply tidy_removeDress. eapply tidy_skip. exact H.
    + intros uuid cs' l. apply tidy_add. apply append_perm.
    + apply startable_tidy. exact Hstart0.
    + exists es'. split; [exact Hrun |]. destruct Hes' as (_ & Hnd & _ & _ & Hknown & _).
      split; [exact Hnd |]. intros x Hx. apply elem_of_app. apply Hknown. exact Hx.
  - destruct (cloudSession_run TEAM_MEMBERS decode toDataURL
                (tidy TEAM_MEMBERS (map id (Cloud.entries (react w1)) ++ uuids cs)))
      with (cs := cs) (w := w1) as (es' & Hrun & Hes').
    + intros cs' l H. apply Forall_roster_covers, H.
    + intros c cs' l. apply tidy_skip.
    + intros c cs' i u l Hid Hu H. apply tidy_skip in H.
      eapply tidy_same_ids; [apply updateEntry_ids; exact Hid | | exact H].
      apply updateEntry_roster_shaped; [simpl; rewrite Hu; exact I | apply H].
    + intros c cs' i m u l Hm H. apply tidy_skip in H.
      eapply tidy_same_ids; [apply updateMemberNote_ids | | exact H].
      apply updateMemberNote_roster_shaped; [exact Hm | apply H].
    + intros c cs' b i l H. apply tidy_removeDress. eapply tidy_skip. exact H.
    + intros uuid cs' l. apply tidy_add. reflexivity.
    + apply startable_tidy. exact Hstart1.
    + exists es'. split; [exact Hrun |]. destruct Hes' as (_ & Hnd & _ & _ & Hknown & _).
      split; [exact Hnd |]. intros x Hx. apply elem_of_app. apply Hknown. exact Hx.
Qed.

Lemma sample_startable :
  startable ["Dana"; "Noa"]%string sampleClicks [newEntry ["Dana"; "Noa"]%string "e1"].
Proof.
  split; [| split; [| split]].
  - constructor; [apply newEntry_roster_shaped | constructor].
  - apply NoDup_singleton.
  - apply NoDup_singleton.
  - intros u Hu Hin. cbn in Hu, Hin.
    apply list_elem_of_singleton in Hu, Hin. subst u. discriminate.
Qed.

Lemma page_session_keeps_ids_witness :
  startable ["Dana"; "Noa"]%string sampleClicks [newEntry ["Dana"; "Noa"]%string "e1"]
  /\ exists es',
       run (localSession ["Dana"; "Noa"]%string sampleClicks)
           (mkWorld (Local.mkState [newEntry ["Dana"; "Noa"]%string "e1"] false None) ∅ [])
       = (Normal tt, mkWorld (Local.mkState es' false None) ∅ [])
       /\ NoDup (map id es').
Proof.
  split; [exact sample_startable |].
  destruct (page_session_keeps_ids ["Dana"; "Noa"]%string
              (fun _ => None) (fun _ _ _ => EmptyString) sampleClicks
              (mkWorld (Local.mkState [newEntry ["Dana"; "Noa"]%string "e1"] false None) ∅ [])
              (mkWorld (Cloud.mkState [newEntry ["Dana"; "Noa"]%string "e1"] false None 0
                                      Cloud.idle) ∅ [])
              sample_startable sample_startable)
    as [(es' & Hrun & Hnd & _) _].
  exists es'. split; [exact Hrun | exact Hnd].
Defined.

(** *** The vote buttons and the text area *)

Lemma session_one {St : Type} (TEAM_MEMBERS : list string)
    (updateEntry : string -> DressEntryUpdates -> M St unit)
    (updateMemberNote : string -> string -> NoteUpdates -> M St unit)
    (handleImageUpload : string -> option string -> M St unit)
    (removeDress : bool -> string -> M St unit)
    (addNewDress : string -> M St unit) (entriesOf : St -> list DressEntry)
    (c : Click) (w w' : World St) :
  run (interact TEAM_MEMBERS updateEntry updateMemberNote handleImageUpload removeDress
                addNewDress entriesOf c) w = (Normal tt, w') ->
  run (session TEAM_MEMBERS updateEntry updateMemberNote handleImageUpload removeDress
               addNewDress entriesOf [c]) w = (Normal tt, w').
Proof.
  intros H. cbn [session]. unfold run in *. unfold mbind, M_bind, bind. rewrite H. reflexivity.
Qed.

(** X7.  The controls of a team member's row, in either revision, with
    distinct identifiers: a vote button that is not lit sets its vote,
    whatever the vote was; a button that is lit clears the vote; the
    same button twice gives back a lit vote and otherwise leaves no
    vote; the other button after it overwrites.  The text area sets the
    text and keeps the vote.  Nothing else changes: no other entry, no
    other note, neither the name nor the text of the note voted on. *)
Theorem vote_buttons (TEAM_MEMBERS : list string)
    (decode : string -> option (Z * Z)) (toDataURL : Cloud.Canvas -> string -> Q -> string)
    (es : list DressEntry) (i j : nat) (e : DressEntry) (m : string) (data : TeamMemberNote)
    (text : string) (w0 : World Local.State) (w1 : World Cloud.State)
    (Hes0 : Local.entries (react w0) = es) (Hes1 : Cloud.entries (react w1) = es)
    (Hcov : Forall (covers TEAM_MEMBERS) es) (Hnd : NoDup (map id es))
    (Hi : es !! i = Some e) (Hj : TEAM_MEMBERS !! j = Some m)
    (Hdata : teamNotes e !! m = Some data) :
  forall (cs : list Click) (es' : list DressEntry),
    (cs, es') ∈
      [([PressUp i j], <[i := withVote e m data (pressed (vote data) VoteUp)]> es);
       ([PressDown i j], <[i := withVote e m data (pressed (vote data) VoteDown)]> es);
       ([PressUp i j; PressUp i j],
        <[i := withVote e m data
                 (if bool_decide (vote data = Some VoteUp) then VoteUp else VoteNull)]> es);
       ([PressUp i j; PressDown i j], <[i := withVote e m data VoteDown]> es);
       ([EditNote i j text], <[i := withNote e m data text]> es)] ->
    run (localSession TEAM_MEMBERS cs) w0 = (Normal tt, localWith w0 es')
    /\ run (cloudSession TEAM_MEMBERS decode toDataURL cs) w1 = (Normal tt, cloudWith w1 es').
Proof.
  assert (L1 := fun H1 H2 H3 H4 H5 H6 H7 H8 H9 =>
            press_once TEAM_MEMBERS Local.updateEntry Local.updateMemberNote
              Local.handleImageUpload Local.removeDress (Local.addNewDress TEAM_MEMBERS)
              Local.entries withLocalEntries Some (fun e l => l ++ [e])
              H1 H2 H3 H4 H5 H6 H7 H8 H9 es i j e m data w0 Hes0 Hcov Hnd Hi Hj Hdata).
  assert (L2 := fun H1 H2 H3 H4 H5 H6 H7 H8 H9 =>
            press_twice TEAM_MEMBERS Local.updateEntry Local.updateMemberNote
              Local.handleImageUpload Local.removeDress (Local.addNewDress TEAM_MEMBERS)
              Local.entries withLocalEntries Some (fun e l => l ++ [e])
              H1 H2 H3 H4 H5 H6 H7 H8 H9 es i j e m data w0 Hes0 Hcov Hnd Hi Hj Hdata).
  assert (C1 := fun H1 H2 H3 H4 H5 H6 H7 H8 H9 =>
            press_once TEAM_MEMBERS Cloud.updateEntry Cloud.updateMemberNote
              (Cloud.handleImageUpload decode toDataURL) Cloud.removeDress
              (Cloud.addNewDress TEAM_MEMBERS)
              Cloud.entries withCloudEntries (Cloud.compressImage decode toDataURL)
              (fun e l => e :: l)
              H1 H2 H3 H4 H5 H6 H7 H8 H9 es i j e m data w1 Hes1 Hcov Hnd Hi Hj Hdata).
  assert (C2 := fun H1 H2 H3 H4 H5 H6 H7 H8 H9 =>
            press_twice TEAM_MEMBERS Cloud.updateEntry Cloud.updateMemberNote
              (Cloud.handleImageUpload decode toDataURL) Cloud.removeDress
              (Cloud.addNewDress TEAM_MEMBERS)
              Cloud.entries withCloudEntries (Cloud.compressImage decode toDataURL)
              (fun e l => e :: l)
              H1 H2 H3 H4 H5 H6 H7 H8 H9 es i j e m data w1 Hes1 Hcov Hnd Hi Hj Hdata).
  destruct L1 as (L1up & L1down & L1note);
    [reflexivity | apply withLocalEntries_get | reflexivity | apply append_perm
    | intros ? ? ?; reflexivity | intros ? ? ? ?; reflexivity | intros ? ? ?; reflexivity
    | intros ? ?; reflexivity | apply local_upload_run |].
  destruct L2 as (L2up & L2down);
    [reflexivity | apply withLocalEntries_get | reflexivity | apply append_perm
    | intros ? ? ?; reflexivity | intros ? ? ? ?; reflexivity | intros ? ? ?; reflexivity
    | intros ? ?; reflexivity | apply local_upload_run |].
  destruct C1 as (C1up & C1down & C1note);
    [reflexivity | apply withCloudEntries_get | reflexivity | reflexivity
    | intros ? ? ?; reflexivity | intros ? ? ? ?; reflexivity | intros ? ? ?; reflexivity
    | intros ? ?; reflexivity | apply cloud_upload_run |].
  destruct C2 as (C2up & C2down);
    [reflexivity | apply withCloudEntries_get | reflexivity | reflexivity
    | intros ? ? ?; reflexivity | intros ? ? ? ?; reflexivity | intros ? ? ?; reflexivity
    | intros ? ?; reflexivity | apply cloud_upload_run |].
  intros cs es' Hin.
  repeat (apply elem_of_cons in Hin as [[= -> ->] | Hin]).
  - split; apply session_one; [exact L1up | exact C1up].
  - split; apply session_one; [exact L1down | exact C1down].
  - split; [exact L2up | exact C2up].
  - split; [exact L2down | exact C2down].
  - split; apply session_one; [apply L1note | apply C1note].
  - apply elem_of_nil in Hin. destruct Hin.
Qed.

Lemma vote_buttons_witness :
  run (cloudSession ["Dana"; "Noa"]%string (fun _ => None) (fun _ _ _ => EmptyString)
         [PressUp 0 0; PressDown 0 0])
      (mkWorld (Cloud.mkState [newEntry ["Dana"; "Noa"]%string "e1"] false None 0 Cloud.idle)
               ∅ [])
  = (Normal tt,
     mkWorld (Cloud.mkState
                [withVote (newEntry ["Dana"; "Noa"]%string "e1") "Dana"
                   (mkTeamMemberNote (Some "Dana"%string) (Some EmptyString) (Some VoteNull))
                   VoteDown]
                false None 0 Cloud.idle)
             ∅ []).
Proof.
  refine (proj2 (vote_buttons ["Dana"; "Noa"]%string (fun _ => None) (fun _ _ _ => EmptyString)
                   [newEntry ["Dana"; "Noa"]%string "e1"] 0 0
                   (newEntry ["Dana"; "Noa"]%string "e1") "Dana"
                   (mkTeamMemberNote (Some "Dana"%string) (Some EmptyString) (Some VoteNull))
                   EmptyString
                   (mkWorld (Local.mkState [newEntry ["Dana"; "Noa"]%string "e1"] false None)
                            ∅ [])
                   (mkWorld (Cloud.mkState [newEntry ["Dana"; "Noa"]%string "e1"] false None 0
                                           Cloud.idle) ∅ [])
                   eq_refl eq_refl _ _ eq_refl eq_refl _
                   [PressUp 0 0; PressDown 0 0] _ _)).
  - apply Forall_roster_covers. constructor; [apply newEntry_roster_shaped | constructor].
  - apply NoDup_singleton.
  - vm_compute. reflexivity.
  - do 3 right. left.
Defined.

End PageFacts.

(* ===================================================================== *)
(** ** Sessions side by side: the listener and the pending save *)
(* ===================================================================== *)

Module TabsFacts.
Import Json JsonText JsonFacts Codec CodecFacts Runtime Prog Sessions Samples.
Import Store Ops StoreFacts Page PageFacts Tabs PersistenceFacts.

#[local] Arguments stringify : simpl never.
#[local] Arguments json_of_SyncData : simpl never.

Section App.
Variable TEAM_MEMBERS : list string.
Variable STORAGE_KEY : string.

(** X8.  What one session saves, another one takes over as it is: the
    event that reports the write of the snapshot makes the listener
    replace the entries and the time of the last save by those of the
    snapshot, whatever the listening session held before; its other
    state, the storage and the trace are left alone. *)
Theorem storage_event_overwrites (now : Z) (wA wB : World Local.State) :
  let es := Local.entries (react wA) in
  exists wA' text,
    run (Local.save STORAGE_KEY now) wA = (Normal tt, wA')
    /\ localStorage wA' !! STORAGE_KEY = Some text
    /\ run (Local.handleStorageChange STORAGE_KEY (storageEvent STORAGE_KEY text)) wB
       = (Normal tt,
          mkWorld (Local.mkState es (Local.isSyncing (react wB)) (Some now))
                  (localStorage wB) (trace wB)).
Proof.
  intros es. eexists _, (snapshotText es now).
  split; [apply save_run |]. split; [apply lookup_insert_eq |].
  unfold run, Local.handleStorageChange, storageEvent, mbind, M_bind, bind.
  cbn [key newValue]. rewrite bool_decide_eq_true_2 by reflexivity.
  rewrite truthy_snapshotText. cbn [andb default from_option Datatypes.id].
  rewrite JSON_parse_snapshotText.
  unfold json_of_SyncData, prop. cbv beta iota zeta. unfold ret. cbv beta iota zeta.
  cbn [entries lastUpdated].
  change (obj_get "entries" _) with (Some (json_of_entries es)).
  rewrite as_entries_json. reflexivity.
Qed.

(** X9.  The listener has no guard of its own: for an event of the
    storage key whose new value is not JSON it throws the [SyntaxError]
    of [JSON.parse], and for one whose new value is JSON for [null] a
    [TypeError]; in both cases nothing has been changed.  An empty new
    value is ignored like a missing one. *)
Theorem storage_event_malformed (c : ascii) (text : string) (w : World Local.State) :
  (Json.parse (String c text) = None ->
   run (Local.handleStorageChange STORAGE_KEY (storageEvent STORAGE_KEY (String c text))) w
   = (Throw SyntaxError, w))
  /\ (Json.parse (String c text) = Some JNull ->
      run (Local.handleStorageChange STORAGE_KEY (storageEvent STORAGE_KEY (String c text))) w
      = (Throw TypeError, w))
  /\ run (Local.handleStorageChange STORAGE_KEY (storageEvent STORAGE_KEY EmptyString)) w
     = (Normal tt, w).
Proof.
  split; [| split].
  - intros Hbad.
    unfold run, Local.handleStorageChange, storageEvent, mbind, M_bind, bind.
    cbn [key newValue]. rewrite bool_decide_eq_true_2 by reflexivity.
    cbn [truthy_string andb default from_option Datatypes.id].
    unfold JSON_parse. rewrite Hbad. reflexivity.
  - intros Hnull.
    unfold run, Local.handleStorageChange, storageEvent, mbind, M_bind, bind.
    cbn [key newValue]. rewrite bool_decide_eq_true_2 by reflexivity.
    cbn [truthy_string andb default from_option Datatypes.id].
    unfold JSON_parse. rewrite Hnull. reflexivity.
  - unfold run, Local.handleStorageChange, storageEvent.
    cbn [key newValue truthy_string]. rewrite Bool.andb_false_r. reflexivity.
Qed.

(** X10.  The first revision saves what was on the page when the button
    was pressed: the snapshot is taken by [saveToCloud], and the callback
    of its timer writes it.  What the user does on the page while the
    timer runs stays in memory, but it is not in the snapshot written,
    and a session that loads afterwards does not get it. *)
Theorem save_while_editing (uuid : string) (now : Z) (cs : list Click)
    (w : World Local.State)
    (Hshape : Forall (roster_shaped TEAM_MEMBERS) (Local.entries (react w))) :
  let es := Local.entries (react w) in
  let pending := Local.mkState es true (Local.lastSyncTime (react w)) in
  exists es',
    run (localSession TEAM_MEMBERS cs) (mkWorld pending (localStorage w) (trace w))
    = (Normal tt,
       mkWorld (Local.mkState es' true (Local.lastSyncTime (react w)))
               (localStorage w) (trace w))
    /\ run (saveWhileEditing TEAM_MEMBERS STORAGE_KEY now cs) w
       = (Normal tt,
          mkWorld (Local.mkState es' false (Some now))
                  (<[STORAGE_KEY := snapshotText es now]> (localStorage w))
                  (trace w ++ [DispatchEvent (mkStorageEvent None None);
                               Alert "הנתונים סונכרנו בהצלחה לכל הצוות!"]))
    /\ run (Local.initialLoad TEAM_MEMBERS STORAGE_KEY uuid)
           (newLocalSession (<[STORAGE_KEY := snapshotText es now]> (localStorage w)))
       = (Normal tt,
          mkWorld (Local.mkState es false (Some now))
                  (<[STORAGE_KEY := snapshotText es now]> (localStorage w)) []).
Proof.
  intros es pending.
  set (w1 := mkWorld pending (localStorage w) (trace w)).
  destruct (page_session_keeps_roster_local TEAM_MEMBERS cs w1 Hshape) as (es' & Hrun & _).
  exists es'. split; [exact Hrun |]. split.
  - unfold saveWhileEditing, run in *. unfold mbind, M_bind, bind.
    unfold Local.saveToCloud at 1. unfold mbind, M_bind, bind. cbn [Local.setIsSyncing modify].
    unfold gets, mret, M_ret, ret. cbn [react localStorage trace Local.entries
                                         Local.isSyncing Local.lastSyncTime].
    fold es. fold pending. fold w1. rewrite Hrun.
    cbn [Local.callback]. unfold mbind, M_bind, bind.
    simpl. unfold alert, emit. cbn [trace react localStorage]. rewrite <- app_assoc. reflexivity.
  - apply initialLoad_Local_snapshot. apply lookup_insert_eq.
Qed.

(** X11.  The second revision's load is guarded as a whole: whatever
    text the slot holds, it does not throw and does not write to the
    storage.  It logs exactly when the text is not JSON (the
    [SyntaxError] of [JSON.parse]) or is JSON for [null] (the [TypeError]
    of reading [parsed.entries]), and then the state is as it was; an
    empty text is treated like an absent slot. *)
Theorem cloud_load_guarded (text : string) (w : World Cloud.State)
    (Hslot : localStorage w !! STORAGE_KEY = Some text) :
  exists c w',
    run (Cloud.initialLoad STORAGE_KEY) w = (c, w')
    /\ (forall e, c <> Throw e)
    /\ localStorage w' = localStorage w
    /\ trace w'
       = trace w ++ match text, Json.parse text with
                    | EmptyString, _ => []
                    | _, None => [ConsoleError "Parse error" SyntaxError]
                    | _, Some JNull => [ConsoleError "Parse error" TypeError]
                    | _, Some _ => []
                    end
    /\ (text = EmptyString \/ Json.parse text = None \/ Json.parse text = Some JNull ->
        c = Normal tt /\ react w' = react w).
Proof.
  unfold run, Cloud.initialLoad, mbind, M_bind, bind, getItem. rewrite Hslot.
  destruct text as [| ch text].
  { cbn [truthy_string]. exists (Normal tt), w.
    rewrite app_nil_r. repeat split; discriminate. }
  cbn [truthy_string default from_option Datatypes.id].
  unfold try_catch, JSON_parse.
  destruct (Json.parse (String ch text)) as [v |] eqn:Hparse.
  2:{ eexists _, _. split; [reflexivity |]. cbn. repeat split; discriminate. }
  destruct v as [| b | z | lit | str | items | members].
  - eexists _, _. split; [reflexivity |]. cbn. repeat split; discriminate.
  - eexists _, _. split; [reflexivity |]. cbn. rewrite app_nil_r.
    split; [discriminate |]. split; [reflexivity |]. split; [reflexivity |].
    intros [H | [H | H]]; discriminate.
  - eexists _, _. split; [reflexivity |]. cbn. rewrite app_nil_r.
    split; [discriminate |]. split; [reflexivity |]. split; [reflexivity |].
    intros [H | [H | H]]; discriminate.
  - eexists _, _. split; [reflexivity |]. cbn. rewrite app_nil_r.
    split; [discriminate |]. split; [reflexivity |]. split; [reflexivity |].
    intros [H | [H | H]]; discriminate.
  - eexists _, _. split; [reflexivity |]. cbn. rewrite app_nil_r.
    split; [discriminate |]. split; [reflexivity |]. split; [reflexivity |].
    intros [H | [H | H]]; discriminate.
  - eexists _, _. split; [reflexivity |]. cbn. rewrite app_nil_r.
    split; [discriminate |]. split; [reflexivity |]. split; [reflexivity |].
    intros [H | [H | H]]; discriminate.
  - unfold prop, ret. cbv beta iota.
    unfold as_entries.
    destruct (or_else (obj_get "entries" members) (JArr [])) as [j |];
      [| eexists _, _; split; [reflexivity |]; cbn; rewrite app_nil_r;
         split; [discriminate |]; split; [reflexivity |]; split; [reflexivity |];
         intros [H | [H | H]]; discriminate].
    destruct (entries_of_json j) as [l |];
      [| eexists _, _; split; [reflexivity |]; cbn; rewrite app_nil_r;
         split; [discriminate |]; split; [reflexivity |]; split; [reflexivity |];
         intros [H | [H | H]]; discriminate].
    unfold ret. cbv beta iota. cbn [Cloud.setEntries modify].
    unfold as_time.
    destruct (or_else (obj_get "lastUpdated" members) JNull) as [[| b | z | lit | str | its | ms] |];
      (eexists _, _; split; [reflexivity |]; cbn; rewrite app_nil_r;
       split; [discriminate |]; split; [reflexivity |]; split; [reflexivity |];
       intros [H | [H | H]]; discriminate).
Qed.

End App.

Lemma save_while_editing_witness :
  exists es',
    run (saveWhileEditing sampleRoster "dresses" 1700000000000
           [EditLocation 0 "Atelier"])
        (mkWorld (Local.mkState [newEntry sampleRoster "e1"] false None) ∅ [])
    = (Normal tt,
       mkWorld (Local.mkState es' false (Some 1700000000000))
               (<["dresses"%string :=
                    snapshotText [newEntry sampleRoster "e1"] 1700000000000]> ∅)
               [DispatchEvent (mkStorageEvent None None);
                Alert "הנתונים סונכרנו בהצלחה לכל הצוות!"]).
Proof.
  destruct (save_while_editing sampleRoster "dresses" "u" 1700000000000
              [EditLocation 0 "Atelier"]
              (mkWorld (Local.mkState [newEntry sampleRoster "e1"] false None) ∅ [])
              (@List.Forall_cons _ _ _ _ (newEntry_roster_shaped _ _) (List.Forall_nil _)))
    as (es' & _ & Hrun & _).
  exists es'. exact Hrun.
Defined.

Lemma cloud_load_guarded_witness :
  run (Cloud.initialLoad "dresses") (newCloudSession nullSlot)
  = (Normal tt,
     mkWorld Cloud.initialState nullSlot [ConsoleError "Parse error" TypeError]).
Proof.
  destruct (cloud_load_guarded "dresses" "null" (newCloudSession nullSlot) eq_refl)
    as (c & w' & Hrun & _ & Hls & Htrace & Hsame).
  destruct (Hsame (or_intror (or_intror eq_refl))) as [-> Hreact].
  rewrite Hrun. destruct w' as [s ls tr]. cbn in Hls, Htrace, Hreact. subst. reflexivity.
Defined.

End TabsFacts.

(* ===================================================================== *)
(** ** The Remote Mirror pass as a whole *)
(* ===================================================================== *)

Module PassFacts.
Import Json Codec Runtime Prog Sessions Mirror Samples PersistenceFacts MirrorFacts.
Import Store Ops StoreFacts StoreLaws Tabs.

#[local] Arguments stringify : simpl never.
#[local] Arguments json_of_SyncData : simpl never.
#[local] Arguments Cloud.percent : simpl never.
#[local] Arguments Cloud.partsFor : simpl never.

Lemma all_ok_spec (remote : nat -> bool) (i m : nat) :
  all_ok remote i m = true <-> forall j, (j < m)%nat -> remote (i + j)%nat = true.
Proof.
  revert i. induction m as [| m IH]; intros i; simpl.
  - split; [intros _ j Hj; lia | reflexivity].
  - rewrite Bool.andb_true_iff, IH. split.
    + intros [H0 Hrest] j Hj. destruct j as [| j].
      * rewrite Nat.add_0_r. exact H0.
      * replace (i + S j)%nat with (S i + j)%nat by lia. apply Hrest. lia.
    + intros H. split.
      * rewrite <- (Nat.add_0_r i). apply H. lia.
      * intros j Hj. replace (S i + j)%nat with (i + S j)%nat by lia. apply H. lia.
Qed.

(** X12.  A pass never throws and never touches the entries, whatever
    the remote calls do.  With no entries it does nothing at all.
    Otherwise it writes the snapshot, makes the calls for the entries in
    order up to the first one that fails, shows exactly one notice (of
    success when every call succeeded, of failure otherwise), sets the
    time of the last save only on success, and ends with the progress
    back at 0 and not syncing. *)
Theorem mirror_pass_outcome (STORAGE_KEY : string) (now : Z) (remote : nat -> bool)
    (w : World Cloud.State) :
  let es := Cloud.entries (react w) in
  let n := length es in
  (es = [] -> run (Cloud.saveToCloud STORAGE_KEY now remote) w = (Normal tt, w))
  /\ (es <> [] ->
      exists w' added,
        run (Cloud.saveToCloud STORAGE_KEY now remote) w = (Normal tt, w')
        /\ trace w' = trace w ++ added
        /\ Cloud.entries (react w') = es
        /\ Cloud.isSyncing (react w') = false
        /\ Cloud.syncProgress (react w') = 0
        /\ localStorage w' = <[STORAGE_KEY := snapshotText es now]> (localStorage w)
        /\ requests added = requestsFor n 0 (take (reached remote 0 n) es)
        /\ alerts added = [if all_ok remote 0 n then successNotice else failureNotice]
        /\ Cloud.lastSyncTime (react w')
           = (if all_ok remote 0 n then Some now else Cloud.lastSyncTime (react w))
        /\ Cloud.cloudStatus (react w')
           = (if all_ok remote 0 n then Cloud.success else Cloud.error)
        /\ ((forall i, (i < n)%nat -> remote i = true) ->
            requests added = requestsFor n 0 es
            /\ alerts added = [successNotice]
            /\ Cloud.lastSyncTime (react w') = Some now)).
Proof.
  intros es n. split.
  - intros Hes. unfold run, Cloud.saveToCloud, mbind, M_bind, bind, gets.
    fold es. rewrite Hes. reflexivity.
  - intros Hne.
    pose proof (saveToCloud_run STORAGE_KEY now remote w Hne) as Hrun.
    cbv zeta in Hrun. fold es n in Hrun.
    eexists. eexists. split; [exact Hrun |].
    cbn [trace localStorage react].
    split; [reflexivity |].
    assert (Hreq : requests ([Progress 0] ++ blocks remote n 0 (take (reached remote 0 n) es)
                             ++ (if all_ok remote 0 n
                                 then [SetTimeout 3000; Alert successNotice; Progress 0]
                                 else [ConsoleError "Cloud Sync Error" RequestError;
                                       Alert failureNotice; Progress 0]))
                   = requestsFor n 0 (take (reached remote 0 n) es)).
    { rewrite !requests_app, requests_blocks.
      destruct (all_ok remote 0 n); cbn [requests app]; apply app_nil_r. }
    assert (Hal : alerts ([Progress 0] ++ blocks remote n 0 (take (reached remote 0 n) es)
                          ++ (if all_ok remote 0 n
                              then [SetTimeout 3000; Alert successNotice; Progress 0]
                              else [ConsoleError "Cloud Sync Error" RequestError;
                                    Alert failureNotice; Progress 0]))
                  = [if all_ok remote 0 n then successNotice else failureNotice]).
    { rewrite !alerts_app, alerts_blocks. destruct (all_ok remote 0 n); reflexivity. }
    split; [destruct (all_ok remote 0 n); reflexivity |].
    split; [destruct (all_ok remote 0 n); reflexivity |].
    split; [destruct (all_ok remote 0 n); reflexivity |].
    split; [reflexivity |].
    split; [exact Hreq |]. split; [exact Hal |].
    split; [destruct (all_ok remote 0 n); reflexivity |].
    split; [destruct (all_ok remote 0 n); reflexivity |].
    intros Hall.
    assert (Hok : all_ok remote 0 n = true) by (apply all_ok_spec; intros j Hj; apply Hall, Hj).
    rewrite Hreq, Hal. rewrite (reached_all_ok _ _ _ Hok), Hok.
    subst n. rewrite firstn_all. repeat split.
Qed.

Lemma remove_all_run (TEAM_MEMBERS : list string) (ids : list string) :
  forall (w : World Cloud.State),
    (forall e, e ∈ Cloud.entries (react w) -> id e ∈ ids) ->
    run (sequence (performCloud TEAM_MEMBERS) (map RemoveEntry ids)) w
    = (Normal tt, Page.cloudWith w []).
Proof.
  induction ids as [| i ids IH]; intros w Hall.
  - assert (Hnil : Cloud.entries (react w) = []).
    { destruct (Cloud.entries (react w)) as [| e l] eqn:E; [reflexivity |].
      exfalso. specialize (Hall e ltac:(left)). apply elem_of_nil in Hall. exact Hall. }
    cbn. unfold Page.cloudWith. rewrite <- Hnil, PageFacts.withCloudEntries_get.
    destruct w; reflexivity.
  - cbn [map sequence performCloud]. unfold run in *. unfold mbind, M_bind, bind.
    cbn [Cloud.removeDress Cloud.setEntries modify].
    rewrite IH.
    + reflexivity.
    + cbn [react Cloud.entries]. intros e He.
      apply removeDress_elem in He as [He Hne].
      specialize (Hall e He). apply elem_of_cons in Hall as [Heq | Hin]; [| exact Hin].
      contradiction.
Qed.

(** X13.  A store that was emptied cannot be saved: with no entries the
    pass returns before it writes, so the slot keeps the snapshot of the
    pass before, and a session that loads afterwards gets the deleted
    entries back. *)
Theorem emptied_store_is_not_saved (TEAM_MEMBERS : list string) (STORAGE_KEY : string)
    (now1 now2 : Z) (remote1 remote2 : nat -> bool) (w : World Cloud.State)
    (Hne : Cloud.entries (react w) <> []) :
  let es := Cloud.entries (react w) in
  exists w',
    run (saveEmptySave TEAM_MEMBERS STORAGE_KEY now1 now2 remote1 remote2) w = (Normal tt, w')
    /\ Cloud.entries (react w') = []
    /\ localStorage w' !! STORAGE_KEY = Some (snapshotText es now1)
    /\ run (Cloud.initialLoad STORAGE_KEY) (newCloudSession (localStorage w'))
       = (Normal tt,
          mkWorld (Cloud.mkState es false (if decide (now1 = 0) then None else Some now1)
                                 0 Cloud.idle)
                  (localStorage w') []).
Proof.
  intros es.
  pose proof (saveToCloud_run STORAGE_KEY now1 remote1 w Hne) as Hrun1.
  cbv zeta in Hrun1. fold es in Hrun1.
  match type of Hrun1 with _ = (_, ?x) => set (w1 := x) in * end.
  assert (Hes1 : Cloud.entries (react w1) = es).
  { subst w1. cbn [react]. destruct (all_ok remote1 0 (length es)); reflexivity. }
  pose proof (remove_all_run TEAM_MEMBERS (map id es) w1) as Hrun2.
  rewrite Hes1 in Hrun2.
  specialize (Hrun2 ltac:(intros e He; apply list_elem_of_In, in_map, list_elem_of_In; exact He)).
  exists (Page.cloudWith w1 []).
  split; [| split; [reflexivity | split]].
  - unfold saveEmptySave, run in *. unfold mbind, M_bind, bind, gets. fold es.
    rewrite Hrun1, Hrun2.
    unfold Cloud.saveToCloud, mbind, M_bind, bind, gets. reflexivity.
  - subst w1. cbn [Page.cloudWith localStorage]. apply lookup_insert_eq.
  - apply (initialLoad_Cloud_snapshot STORAGE_KEY es now1
             (newCloudSession (localStorage (Page.cloudWith w1 [])))).
    subst w1. cbn [Page.cloudWith newCloudSession localStorage]. apply lookup_insert_eq.
Qed.

Lemma emptied_store_is_not_saved_witness :
  exists w',
    run (saveEmptySave sampleRoster "dresses" 1700000000000 1700000005000
           (fun _ => true) (fun _ => true))
        (sampleWorld [sampleEntry]) = (Normal tt, w')
    /\ Cloud.entries (react w') = []
    /\ localStorage w' !! "dresses"%string = Some (snapshotText [sampleEntry] 1700000000000).
Proof.
  destruct (emptied_store_is_not_saved sampleRoster "dresses" 1700000000000 1700000005000
              (fun _ => true) (fun _ => true) (sampleWorld [sampleEntry])
              ltac:(discriminate))
    as (w' & Hrun & Hes & Hslot & _).
  exists w'. split; [exact Hrun |]. split; [exact Hes | exact Hslot].
Defined.

End PassFacts.

(* ===================================================================== *)
(** ** The progress values and the parts of a request *)
(* ===================================================================== *)

Module RequestFacts.
Import Json Runtime Number Tolerance NumberFacts Cloud Commas.
Local Open Scope Q_scope.

(** What the two roundings in [percent] leave of the exact value. *)
Lemma rounded_percentage (a : Q) :
  0 <= a ->
  let c := fl (fl a * 100) in
  100 * a * (1 - eps) * (1 - eps) <= c /\ c <= 100 * a * (1 + eps) * (1 + eps).
Proof.
  intros Ha. cbv zeta.
  pose proof (fl_error a) as E1. rewrite (Qabs_pos a Ha) in E1.
  apply Qabs_Qle_condition in E1. destruct E1 as [E1l E1h].
  assert (Hf : 0 <= fl a) by (unfold eps in *; lra).
  pose proof (fl_error (fl a * 100)) as E2.
  rewrite (Qabs_pos (fl a * 100)) in E2 by lra.
  apply Qabs_Qle_condition in E2. destruct E2 as [E2l E2h].
  unfold eps in *. split; lra.
Qed.

Lemma share_bounds (i n : nat) :
  (i < n)%nat ->
  0 <= inject_Z (Z.of_nat i + 1) / inject_Z (Z.of_nat n) <= 1.
Proof.
  intros Hi.
  assert (Hn : 0 < inject_Z (Z.of_nat n)) by (rewrite <- (Zlt_Qlt 0); lia).
  split.
  - apply Qle_shift_div_l; [exact Hn |]. rewrite Qmult_0_l. rewrite <- (Zle_Qle 0). lia.
  - apply Qle_shift_div_r; [exact Hn |]. rewrite Qmult_1_l. rewrite <- Zle_Qle. lia.
Qed.

Lemma share_step (i j n : nat) :
  (i < j)%nat -> (j < n)%nat -> (Z.of_nat n < 2 ^ 32)%Z ->
  inject_Z (Z.of_nat i + 1) / inject_Z (Z.of_nat n) + (1 # 4294967296)
  <= inject_Z (Z.of_nat j + 1) / inject_Z (Z.of_nat n).
Proof.
  intros Hij Hj Hn.
  assert (Hpos : 0 < inject_Z (Z.of_nat n)) by (rewrite <- (Zlt_Qlt 0); lia).
  assert (Hlt : inject_Z (Z.of_nat n) <= 4294967296).
  { change 4294967296 with (inject_Z (2 ^ 32)). rewrite <- Zle_Qle. lia. }
  assert (Hone : inject_Z (Z.of_nat i + 1) + 1 <= inject_Z (Z.of_nat j + 1)).
  { assert (H : inject_Z (Z.of_nat i + 1 + 1) <= inject_Z (Z.of_nat j + 1))
      by (rewrite <- Zle_Qle; lia).
    rewrite (inject_Z_plus (Z.of_nat i + 1) 1) in H. exact H. }
  assert (Hinv : (1 # 4294967296) <= / inject_Z (Z.of_nat n)).
  { apply Qle_shift_inv_l; [exact Hpos |]. lra. }
  assert (Hdiv : inject_Z (Z.of_nat i + 1) / inject_Z (Z.of_nat n) + / inject_Z (Z.of_nat n)
                 <= inject_Z (Z.of_nat j + 1) / inject_Z (Z.of_nat n)).
  { assert (Heq : inject_Z (Z.of_nat i + 1) / inject_Z (Z.of_nat n) + / inject_Z (Z.of_nat n)
                  == (inject_Z (Z.of_nat i + 1) + 1) / inject_Z (Z.of_nat n))
      by (field; lra).
    rewrite Heq. unfold Qdiv. apply Qmult_le_compat_r; [exact Hone |].
    apply Qlt_le_weak, Qinv_lt_0_compat, Hpos. }
  lra.
Qed.

Lemma percent_unfold (i n : nat) :
  percent i n
  = Qfloor (fl (fl (inject_Z (Z.of_nat i + 1) / inject_Z (Z.of_nat n)) * 100) + (1 # 2)).
Proof. reflexivity. Qed.

(** X14.  The progress shown during a pass over [n] entries (fewer than
    [2^32], as every array has): each value is a whole number from 0 to
    100, within a half (and the rounding of two double operations) of
    the exact percentage; the values never decrease from one entry to
    the next; and the value for the last entry is 100. *)
Theorem progress_values (i j n : nat)
    (Hij : (i <= j)%nat) (Hj : (j < n)%nat) (Hn : (Z.of_nat n < 2 ^ 32)%Z) :
  (0 <= percent i n <= 100)%Z
  /\ Qabs (inject_Z (percent i n) - 100 * inject_Z (Z.of_nat i + 1) / inject_Z (Z.of_nat n))
     <= (1 # 2) + delta
  /\ (percent i n <= percent j n)%Z
  /\ percent (n - 1) n = 100%Z.
Proof.
  assert (Hi : (i < n)%nat) by lia.
  pose proof (share_bounds i n Hi) as Ha.
  pose proof (share_bounds j n Hj) as Hb.
  rewrite !percent_unfold.
  set (a := inject_Z (Z.of_nat i + 1) / inject_Z (Z.of_nat n)) in *.
  set (b := inject_Z (Z.of_nat j + 1) / inject_Z (Z.of_nat n)) in *.
  destruct (rounded_percentage a ltac:(lra)) as [Cal Cah].
  destruct (rounded_percentage b ltac:(lra)) as [Cbl Cbh].
  cbv zeta in Cal, Cah, Cbl, Cbh.
  set (ca := fl (fl a * 100)) in *. set (cb := fl (fl b * 100)) in *.
  pose proof (Qfloor_le (ca + (1 # 2))) as Fl.
  pose proof (Qlt_floor (ca + (1 # 2))) as Fh.
  rewrite inject_Z_plus in Fh. change (inject_Z 1) with 1 in Fh.
  split; [| split; [| split]].
  - split.
    + change 0%Z with (Qfloor 0). apply Qfloor_resp_le. unfold eps in *. lra.
    + apply Z.lt_succ_r. change (Z.succ 100) with 101%Z. rewrite Zlt_Qlt.
      apply Qle_lt_trans with (ca + (1 # 2)); [exact Fl |].
      change (inject_Z 101) with 101. unfold eps in *. lra.
  - assert (Hexact : 100 * inject_Z (Z.of_nat i + 1) / inject_Z (Z.of_nat n) == 100 * a).
    { subst a. unfold Qdiv. ring. }
    rewrite Hexact. apply Qabs_Qle_condition. unfold eps, delta in *. split; lra.
  - destruct (Nat.eq_dec i j) as [-> | Hne]; [subst a b ca cb; lia |].
    pose proof (share_step i j n ltac:(lia) Hj Hn) as Hstep. fold a b in Hstep.
    apply Qfloor_resp_le. unfold eps in *. lra.
  - assert (Hn0 : (0 < n)%nat) by lia.
    assert (Hone : inject_Z (Z.of_nat (n - 1) + 1) / inject_Z (Z.of_nat n) == inject_Z 1).
    { replace (Z.of_nat (n - 1) + 1)%Z with (Z.of_nat n) by lia.
      change (inject_Z 1) with 1. field.
      assert (0 < inject_Z (Z.of_nat n)) by (rewrite <- (Zlt_Qlt 0); lia). lra. }
    pose proof (fl_integer _ 1 Hone ltac:(reflexivity)) as H1.
    assert (Hhundred : fl (inject_Z (Z.of_nat (n - 1) + 1) / inject_Z (Z.of_nat n)) * 100
                       == inject_Z 100).
    { rewrite H1. reflexivity. }
    pose proof (fl_integer _ 100 Hhundred ltac:(reflexivity)) as H2.
    assert (Hfin : fl (fl (inject_Z (Z.of_nat (n - 1) + 1) / inject_Z (Z.of_nat n)) * 100)
                   + (1 # 2) == 201 # 2).
    { rewrite H2. reflexivity. }
    rewrite (Qfloor_comp _ _ Hfin). reflexivity.
Qed.

Lemma progress_values_witness :
  (percent 0 3 <= percent 1 3)%Z /\ percent 2 3 = 100%Z.
Proof.
  destruct (progress_values 0 1 3 ltac:(lia) ltac:(lia) ltac:(reflexivity))
    as (_ & _ & Hmono & Hlast).
  split; [exact Hmono | exact Hlast].
Defined.

(** *** The parts of a request *)

Local Close Scope Q_scope.

Lemma upto_comma_append (b c : string) :
  has_comma b = false ->
  upto_comma b = b /\ upto_comma (b +:+ String "," c) = b.
Proof.
  induction b as [| x b IH]; intros Hb.
  - split; reflexivity.
  - simpl in Hb. apply Bool.orb_false_iff in Hb as [Hx Hb].
    destruct (IH Hb) as [IH1 IH2].
    split; simpl; rewrite Hx; [rewrite IH1 | rewrite IH2]; reflexivity.
Qed.

Lemma split_comma_1_append (a rest : string) :
  has_comma a = false ->
  split_comma_1 a = None
  /\ split_comma_1 (a +:+ String "," rest) = Some (upto_comma rest).
Proof.
  induction a as [| x a IH]; intros Ha.
  - split; reflexivity.
  - simpl in Ha. apply Bool.orb_false_iff in Ha as [Hx Ha].
    destruct (IH Ha) as [IH1 IH2].
    split; simpl; rewrite Hx; [exact IH1 | exact IH2].
Qed.

(** X15.  The request for an entry has a text part, which does not
    depend on the image, and after it at most one image part: there is
    one exactly when the image is a text that starts with [data:image].
    That part is always declared as [image/jpeg], and its data is what
    stands between the first comma of the image text and the next one
    (or the end); without a comma there is no data. *)
Theorem request_parts (i n : nat) (entry : DressEntry) :
  (exists text,
      forall img : option string,
        partsFor i n (mkDressEntry (id entry) (location entry) (price entry) img
                                   (teamNotes entry))
        = TextPart text
          :: match img with
             | Some s =>
                 if startsWith "data:image" s
                 then [InlineData "image/jpeg" (split_comma_1 s)]
                 else []
             | None => []
             end)
  /\ (forall a b c : string,
        has_comma a = false -> has_comma b = false ->
        split_comma_1 a = None
        /\ split_comma_1 (a +:+ String "," b) = Some b
        /\ split_comma_1 (a +:+ String "," (b +:+ String "," c)) = Some b).
Proof.
  split.
  - eexists. intros img. unfold partsFor. cbn [image id location price teamNotes].
    destruct img as [s |]; [| reflexivity].
    destruct s as [| ch s]; [reflexivity |].
    cbn [String.eqb negb andb].
    destruct (startsWith "data:image" (String ch s)); reflexivity.
  - intros a b c Ha Hb.
    destruct (upto_comma_append b c Hb) as [U1 U2].
    destruct (split_comma_1_append a b Ha) as [S1 S2].
    destruct (split_comma_1_append a (b +:+ String "," c) Ha) as [_ S3].
    rewrite S2, S3, U1, U2. repeat split. exact S1.
Qed.

End RequestFacts.

(* ===================================================================== *)
(** ** The compressed image never grows *)
(* ===================================================================== *)

Module SizeFacts.
Import Number Tolerance NumberFacts Cloud.

(** The scaled side is at most the side it comes from, and nothing is
    left of it when the picture is more than 600 times as long as wide. *)
Lemma ToUint32_scaled_le (long short : Z) :
  600 < long < 2 ^ 32 -> 0 <= short <= long ->
  let out := ToUint32 (mul (inject_Z short) (div (inject_Z 600) (inject_Z long))) in
  out <= short /\ (600 * short < long -> out = 0).
Proof.
  intros Hlong Hshort out.
  destruct (scaled_side long short ltac:(lia) Hshort) as (Hy0 & Hy & Hex).
  cbv zeta in Hy0, Hy, Hex. subst out.
  set (y := mul (inject_Z short) (div (inject_Z 600) (inject_Z long))) in *.
  set (exact := (600 * inject_Z short / inject_Z long)%Q) in *.
  apply Qabs_Qle_condition in Hy. unfold delta in *.
  pose proof (Qfloor_le y) as Hlo. pose proof (Qlt_floor y) as Hhi.
  rewrite inject_Z_plus in Hhi. change (inject_Z 1) with 1%Q in Hhi.
  assert (Hl : (600 < inject_Z long)%Q) by (rewrite <- (Zlt_Qlt 600); lia).
  assert (Hl2 : (inject_Z long < 4294967296)%Q).
  { change 4294967296%Q with (inject_Z (2 ^ 32)). rewrite <- Zlt_Qlt. lia. }
  assert (Hs0 : (0 <= inject_Z short)%Q) by (rewrite <- (Zle_Qle 0); lia).
  assert (Hexs : (exact <= inject_Z short)%Q).
  { subst exact. apply Qle_shift_div_r; [lra |].
    assert (H : (600 * inject_Z short <= inject_Z long * inject_Z short)%Q)
      by (apply Qmult_le_compat_r; lra).
    lra. }
  assert (Hf0 : 0 <= Qfloor y).
  { rewrite <- (Qfloor_Z 0). apply Qfloor_resp_le. exact Hy0. }
  assert (Hf1 : Qfloor y <= short).
  { apply Z.lt_succ_r. unfold Z.succ. rewrite Zlt_Qlt, inject_Z_plus.
    change (inject_Z 1) with 1%Q. lra. }
  unfold ToUint32.
  assert (H0 : Qle_bool 0 y = true) by (apply Qle_bool_iff; exact Hy0).
  rewrite H0, Z.mod_small by lia.
  split; [exact Hf1 |].
  intros Hthin.
  assert (Hex1 : (exact <= 1 - / inject_Z long)%Q).
  { subst exact. apply Qle_shift_div_r; [lra |].
    assert (H1 : ((1 - / inject_Z long) * inject_Z long == inject_Z long - 1)%Q)
      by (field; lra).
    rewrite H1.
    assert (H2 : (inject_Z (600 * short + 1) <= inject_Z long)%Q)
      by (rewrite <- Zle_Qle; lia).
    rewrite inject_Z_plus, inject_Z_mult in H2.
    change (inject_Z 600) with 600%Q in H2. change (inject_Z 1) with 1%Q in H2. lra. }
  assert (Hinv : ((1 # 4294967296) <= / inject_Z long)%Q).
  { apply Qle_shift_inv_l; lra. }
  assert (Hlt1 : Qfloor y < 1).
  { rewrite Zlt_Qlt. change (inject_Z 1) with 1%Q. lra. }
  lia.
Qed.

Lemma canvas_small (base64 : string) (w h : Z) :
  0 <= w <= 600 -> 0 <= h <= 600 ->
  canvas_width (canvasFor base64 w h) = w /\ canvas_height (canvasFor base64 w h) = h.
Proof.
  intros Hw Hh. unfold canvasFor, scaledSize, MAX_SIZE.
  assert (H1 : (w >? 600) = false) by (rewrite Z.gtb_ltb; apply Z.ltb_ge; lia).
  assert (H2 : (h >? 600) = false) by (rewrite Z.gtb_ltb; apply Z.ltb_ge; lia).
  rewrite H1, H2.
  destruct (w >? h); cbn [canvas_width canvas_height];
    rewrite !ToUint32_inject by lia; split; reflexivity.
Qed.

(** X16.  The canvas is never larger than the picture, in either
    direction, and never larger than 600 by 600; so a picture that has
    been through [compressImage] keeps its size when it goes through
    again. *)
Theorem compressed_size (base64 again : string) (img_width img_height : Z)
    (Hw : 0 <= img_width < 2 ^ 32) (Hh : 0 <= img_height < 2 ^ 32) :
  let c := canvasFor base64 img_width img_height in
  0 <= canvas_width c <= Z.min img_width 600
  /\ 0 <= canvas_height c <= Z.min img_height 600
  /\ canvas_width (canvasFor again (canvas_width c) (canvas_height c)) = canvas_width c
  /\ canvas_height (canvasFor again (canvas_width c) (canvas_height c)) = canvas_height c.
Proof.
  intros c.
  assert (Hbox : 0 <= canvas_width c <= Z.min img_width 600
                 /\ 0 <= canvas_height c <= Z.min img_height 600).
  { subst c. unfold canvasFor, scaledSize, MAX_SIZE.
    destruct (img_width >? img_height) eqn:Hgt;
      [apply Z.gtb_lt in Hgt | rewrite Z.gtb_ltb in Hgt; apply Z.ltb_ge in Hgt].
    - destruct (img_width >? 600) eqn:Hbig;
        [apply Z.gtb_lt in Hbig | rewrite Z.gtb_ltb in Hbig; apply Z.ltb_ge in Hbig];
        cbn [canvas_width canvas_height].
      + destruct (ToUint32_scaled img_width img_height Hbig ltac:(lia)) as [Hr _].
        destruct (ToUint32_scaled_le img_width img_height ltac:(lia) ltac:(lia)) as [Hle _].
        cbv zeta in Hr, Hle. change (ToUint32 (inject_Z 600)) with 600. lia.
      + rewrite !ToUint32_inject by lia. lia.
    - destruct (img_height >? 600) eqn:Hbig;
        [apply Z.gtb_lt in Hbig | rewrite Z.gtb_ltb in Hbig; apply Z.ltb_ge in Hbig];
        cbn [canvas_width canvas_height].
      + destruct (ToUint32_scaled img_height img_width Hbig ltac:(lia)) as [Hr _].
        destruct (ToUint32_scaled_le img_height img_width ltac:(lia) ltac:(lia)) as [Hle _].
        cbv zeta in Hr, Hle. change (ToUint32 (inject_Z 600)) with 600. lia.
      + rewrite !ToUint32_inject by lia. lia. }
  destruct Hbox as [Hcw Hch].
  split; [exact Hcw |]. split; [exact Hch |].
  apply canvas_small; lia.
Qed.

Lemma compressed_size_witness :
  canvas_width (canvasFor "data:image/png;base64,AAAA" 4000 2000) <= 600
  /\ canvas_height (canvasFor "data:image/png;base64,AAAA" 4000 2000) <= 600.
Proof.
  destruct (compressed_size "data:image/png;base64,AAAA" "data:image/jpeg;base64,BBBB"
              4000 2000 ltac:(lia) ltac:(lia)) as (Hcw & Hch & _).
  cbv zeta in Hcw, Hch. split; lia.
Defined.

(** X17.  A picture more than 600 times as long as it is wide (or as
    wide as it is long) gets a canvas without area: the short side is
    scaled to 0. *)
Theorem thin_picture_vanishes (base64 : string) (img_width img_height : Z)
    (Hw : 0 <= img_width < 2 ^ 32) (Hh : 0 <= img_height < 2 ^ 32) :
  (600 * img_height < img_width -> canvas_height (canvasFor base64 img_width img_height) = 0)
  /\ (600 * img_width < img_height -> canvas_width (canvasFor base64 img_width img_height) = 0).
Proof.
  unfold canvasFor, scaledSize, MAX_SIZE. split; intros Hthin.
  - assert (Hgt : (img_width >? img_height) = true) by (apply Z.gtb_lt; lia).
    rewrite Hgt.
    destruct (img_width >? 600) eqn:Hbig;
      [apply Z.gtb_lt in Hbig | rewrite Z.gtb_ltb in Hbig; apply Z.ltb_ge in Hbig];
      cbn [canvas_height].
    + destruct (ToUint32_scaled_le img_width img_height ltac:(lia) ltac:(lia)) as [_ Hz].
      apply Hz. exact Hthin.
    + rewrite ToUint32_inject by lia. lia.
  - assert (Hgt : (img_width >? img_height) = false)
      by (rewrite Z.gtb_ltb; apply Z.ltb_ge; lia).
    rewrite Hgt.
    destruct (img_height >? 600) eqn:Hbig;
      [apply Z.gtb_lt in Hbig | rewrite Z.gtb_ltb in Hbig; apply Z.ltb_ge in Hbig];
      cbn [canvas_width].
    + destruct (ToUint32_scaled_le img_height img_width ltac:(lia) ltac:(lia)) as [_ Hz].
      apply Hz. exact Hthin.
    + rewrite ToUint32_inject by lia. lia.
Qed.

Lemma thin_picture_vanishes_witness :
  canvas_height (canvasFor "data:image/png;base64,AAAA" 4000 1) = 0.
Proof.
  exact (proj1 (thin_picture_vanishes "data:image/png;base64,AAAA" 4000 1
                  ltac:(lia) ltac:(lia)) ltac:(lia)).
Defined.

End SizeFacts.

(* ===================================================================== *)
(** ** The countdown over time *)
(* ===================================================================== *)

Module TicksFacts.
Import CountdownTimer CountdownFacts Ticks.

(** X18.  For a remaining time below [2^53] ms the parts are those of
    the integer division: whole days, and hours, minutes and seconds
    that, put together again, give the remaining time up to the
    milliseconds below one second. *)
Theorem countdown_reconstructs (distance : Z) (Hd : 0 <= distance < 2 ^ 53) :
  let t := decompose distance in
  days t = distance / 86400000
  /\ hours t = (distance / 3600000) mod 24
  /\ minutes t = (distance / 60000) mod 60
  /\ seconds t = (distance / 1000) mod 60
  /\ days t * 86400000 + hours t * 3600000 + minutes t * 60000 + seconds t * 1000
     = distance - distance mod 1000.
Proof.
  cbv zeta.
  destruct (decompose_parts distance ltac:(lia)) as (Hh & Hm & Hs).
  rewrite Hh, Hm, Hs, (decompose_days distance Hd).
  assert (E1 : (distance mod 86400000) / 3600000 = (distance / 3600000) mod 24).
  { change 86400000 with (3600000 * 24). rewrite Z.rem_mul_r by lia.
    rewrite Z.mul_comm, Z.div_add by lia.
    rewrite (Z.div_small (distance mod 3600000)) by (apply Z.mod_pos_bound; lia). lia. }
  assert (E2 : (distance mod 3600000) / 60000 = (distance / 60000) mod 60).
  { change 3600000 with (60000 * 60). rewrite Z.rem_mul_r by lia.
    rewrite Z.mul_comm, Z.div_add by lia.
    rewrite (Z.div_small (distance mod 60000)) by (apply Z.mod_pos_bound; lia). lia. }
  assert (E3 : (distance mod 60000) / 1000 = (distance / 1000) mod 60).
  { change 60000 with (1000 * 60). rewrite Z.rem_mul_r by lia.
    rewrite Z.mul_comm, Z.div_add by lia.
    rewrite (Z.div_small (distance mod 1000)) by (apply Z.mod_pos_bound; lia). lia. }
  rewrite E1, E2, E3. repeat split.
  pose proof (Z.div_mod distance 1000 ltac:(lia)) as D1.
  pose proof (Z.div_mod (distance / 1000) 60 ltac:(lia)) as D2.
  pose proof (Z.div_mod (distance / 60000) 60 ltac:(lia)) as D3.
  pose proof (Z.div_mod (distance / 3600000) 24 ltac:(lia)) as D4.
  assert (Q2 : distance / 1000 / 60 = distance / 60000)
    by (rewrite Z.div_div by lia; reflexivity).
  assert (Q3 : distance / 60000 / 60 = distance / 3600000)
    by (rewrite Z.div_div by lia; reflexivity).
  assert (Q4 : distance / 3600000 / 24 = distance / 86400000)
    by (rewrite Z.div_div by lia; reflexivity).
  rewrite Q2 in D2. rewrite Q3 in D3. rewrite Q4 in D4. lia.
Qed.

Lemma countdown_reconstructs_witness :
  0 <= 1234567890 < 2 ^ 53
  /\ days (decompose 1234567890) = 14
  /\ hours (decompose 1234567890) = 6.
Proof.
  split; [lia |].
  destruct (countdown_reconstructs 1234567890 ltac:(lia)) as (Hd & Hh & _).
  split; [exact Hd | exact Hh].
Defined.

(** X19.  The countdown stops for good at the first tick after the
    target: from then on the display stays what the last tick before
    showed (the initial state when there was none), whatever the clock
    does later; before that, every tick shows the decomposition of the
    time that remains. *)
Theorem interval_freezes (TARGET_DATE : Z) (pre post : list Z) (now : Z) (t : TimeLeft)
    (Hpre : Forall (fun x => x <= TARGET_DATE) pre) (Hnow : TARGET_DATE < now) :
  interval TARGET_DATE pre t
  = match last pre with
    | Some x => decompose (TARGET_DATE - x)
    | None => t
    end
  /\ interval TARGET_DATE (pre ++ now :: post) t = interval TARGET_DATE pre t.
Proof.
  revert t. induction Hpre as [| x pre Hx Hpre IH]; intros t.
  - split; [reflexivity |].
    cbn [app interval]. unfold tick.
    replace (TARGET_DATE - now <? 0) with true by (symmetry; apply Z.ltb_lt; lia).
    reflexivity.
  - cbn [app interval]. unfold tick.
    replace (TARGET_DATE - x <? 0) with false by (symmetry; apply Z.ltb_ge; lia).
    destruct (IH (decompose (TARGET_DATE - x))) as [IH1 IH2].
    split; [| exact IH2].
    rewrite IH1. destruct pre as [| y pre']; [reflexivity |].
    rewrite last_cons_cons.
    destruct (last (y :: pre')) as [z |] eqn:E; [reflexivity |].
    apply last_None in E. discriminate.
Qed.

Lemma interval_freezes_witness :
  interval 90061000 [0; 1000; 90062000; 2000] initialTimeLeft
  = decompose 90060000.
Proof.
  destruct (interval_freezes 90061000 [0; 1000] [2000] 90062000 initialTimeLeft
              ltac:(repeat constructor; lia) ltac:(lia)) as [H1 H2].
  cbn [app] in H2. rewrite H2, H1. reflexivity.
Defined.

End TicksFacts.
